(** * Track counting: selection, discriminants, efficiency and ROC curves

    A shallow embedding of [tools/trackCounting.py].

    Numbers.  The program computes with machine floats (binary64).  They
    are modelled here by exact rationals ([Q]).  The two agree on what is
    selected, copied and compared, and on sums and differences of entry
    counts up to 2^53 ([maxExactCount]); the quotient of two such counts is
    exact here and rounded once in the program.  The properties of
    drawEffVsCutCurve are therefore stated for histograms of counts
    ([countHistogram]); module [Binary64] transcribes that function with
    binary64 numbers, to show what rounding does outside this scope.
    The single-precision slots of the classifier inputs keep an explicit
    rounding function ([float32]).  Counts (the tracks of a category, the
    entries of a jet category passed as [total]) are natural numbers.

    Effects.  Printing, the calls made to the formula engine and to the
    classifier, the classifier's input slots and Python exceptions are
    threaded through one small state-and-error monad [M]. *)

From Stdlib Require Import String Bool Arith ZArith NArith QArith Lia Lqa List.
From Stdlib Require Floats.
Import ListNotations.

Set Implicit Arguments.
Close Scope Q_scope.

(** ** Output, calls to external engines, exceptions *)

(** What a [print] statement writes: the pieces of the formatted line. *)
Inductive item : Type :=
| Str (s : string)
| Int (z : Z)
| Flt (q : Q)
| Flts (qs : list Q).

Definition line : Type := list item.

(** Calls made to the formula engine (TTreeFormula) and to the classifier
    runtime (TMVA.Reader), in program order. *)
Inductive call : Type :=
| CutGetNdata
| CutEvalInstance (trackN : nat)
| VarGetNdata (var : string)
| VarEvalInstance (var : string) (trackN : nat)
| ReaderEvaluateMVA (name : string).

Inductive exn : Type :=
| ZeroDivisionError
| IndexError
| SystemExit (code : Z)
| Exception (msg : line)
| VectorOutOfRange.
(* [VectorOutOfRange]: a write [v[i] = x] to a std::vector at an index
   >= size().  The unchecked operator[] gives it no defined behaviour (a
   checking binding raises an IndexError); the model stops there, and
   states nothing of what the program does after such a write.  What is
   proved of the tree a run returns is thus proved of the runs in which
   every write stays within its vector. *)

(** [slots]: the contents of the one-element arrays array("f",[0]) held by
    the trackMVASelector, in the order of its variables. *)
Record World : Type := mkWorld {
  slots : list Q;
  calls : list call;
  stdout : list line
}.

Definition M (A : Type) : Type := World -> (exn + A) * World.

Definition ret {A} (a : A) : M A := fun w => (inr a, w).

Definition bind {A B} (m : M A) (k : A -> M B) : M B :=
  fun w => match m w with
           | (inr a, w') => k a w'
           | (inl e, w') => (inl e, w')
           end.

Definition raise {A} (e : exn) : M A := fun w => (inl e, w).

Definition print (l : line) : M unit :=
  fun w => (inr tt, mkWorld (slots w) (calls w) (stdout w ++ [l])).

Definition trace (c : call) : M unit :=
  fun w => (inr tt, mkWorld (slots w) (calls w ++ [c]) (stdout w)).

Definition getSlots : M (list Q) := fun w => (inr (slots w), w).

Definition setSlots (vs : list Q) : M unit :=
  fun w => (inr tt, mkWorld vs (calls w) (stdout w)).

Declare Scope monad_scope.
Delimit Scope monad_scope with monad.
Notation "x <- m ;; k" := (bind m (fun x => k))
  (at level 61, m at next level, right associativity) : monad_scope.
Notation "' p <- m ;; k" := (bind m (fun x => let p := x in k))
  (at level 61, p pattern, m at next level, right associativity) : monad_scope.
Notation "m ;; k" := (bind m (fun _ => k))
  (at level 61, right associativity) : monad_scope.
Open Scope monad_scope.

(** [for x in l: s = body x s] *)
Fixpoint for_ {A S} (l : list A) (body : A -> S -> M S) (s : S) : M S :=
  match l with
  | [] => ret s
  | a :: l' => s' <- body a s ;; for_ l' body s'
  end.

Definition xrange (a b : nat) : list nat := seq a (b - a).
Definition range (n : nat) : list nat := seq 0 n.

(** Python list indexing: [l[i]] and the in-place updates of [l[i]]
    ([l[i] += 1], [l[i].append(x)]) raise IndexError out of range. *)
Definition getitem {A} (l : list A) (i : nat) : M A :=
  match nth_error l i with
  | Some a => ret a
  | None => raise IndexError
  end.

Fixpoint update {A} (l : list A) (i : nat) (f : A -> A) : list A :=
  match l, i with
  | [], _ => []
  | a :: l', O => f a :: l'
  | a :: l', S i' => a :: update l' i' f
  end.

Definition setitem {A} (l : list A) (i : nat) (f : A -> A) : M (list A) :=
  if i <? length l then ret (update l i f) else raise IndexError.

Definition any (l : list bool) : bool := existsb (fun b => b) l.

Definition Qgt_bool (x y : Q) : bool := negb (Qle_bool x y).
Definition Qlt_bool (x y : Q) : bool := negb (Qle_bool y x).
Definition truthy (x : Q) : bool := negb (Qeq_bool x 0).

(** [float(a)/b] with [b] a number: ZeroDivisionError when [b] is zero.
    The quotient is exact; the program rounds it once. *)
Definition pydiv (a b : Q) : M Q :=
  if Qeq_bool b 0 then raise ZeroDivisionError else ret (a / b)%Q.

(** ** ROOT objects *)

(** A graph is its sequence of points.  ROOT.TGraph(n, x, y) takes the
    first [n] entries of the two arrays. *)
Definition TGraph : Type := list (Q * Q).

Definition newTGraph (n : nat) (x y : list Q) : TGraph := firstn n (combine x y).
Definition GetN (g : TGraph) : nat := length g.
(* GetPoint leaves its arguments (0.0 from ROOT.Double()) alone out of range *)
Definition GetPoint (g : TGraph) (i : nat) : Q * Q := nth i g (0%Q, 0%Q).

(** A one-dimensional histogram: bin 0 is the underflow, bins
    1..GetNbinsX are the regular bins. *)
Record TH1 : Type := mkTH1 {
  GetNbinsX : nat;
  GetBinLowEdge : nat -> Q;
  GetBinContent : nat -> Q
}.

Definition Qsum (l : list Q) : Q := fold_right Qplus 0%Q l.

(** TH1::Integral(): the sum of the contents of the regular bins.  The
    program adds binary64 numbers in the order of the bins
    ([Binary64.Integral]); on counts up to 2^53 the sum is the same. *)
Definition Integral (h : TH1) : Q :=
  Qsum (map (GetBinContent h) (seq 1 (GetNbinsX h))).

(** ** drawEffVsCutCurve *)

(** Lines 290-293.  The subtraction is exact; in the program it rounds
    ([Binary64.effLoopBody]), except on counts up to 2^53. *)
Definition effLoopBody (myTH1 : TH1) (s : list Q * list Q * Q) (i : nat)
  : list Q * list Q * Q :=
  let '(discrV, effV, integral) := s in
  let discrV := discrV ++ [GetBinLowEdge myTH1 i] in
  let integral := (integral - GetBinContent myTH1 (i - 1))%Q in
  let effV := effV ++ [integral] in
  (discrV, effV, integral).

Definition drawEffVsCutCurve (myTH1 : TH1) (total : N) : M TGraph :=
  let discrV := [GetBinLowEdge myTH1 1] in
  let integral := Integral myTH1 in
  let effV := [integral] in
  let '(discrV, effV, integral) :=
    fold_left (effLoopBody myTH1) (xrange 2 (GetNbinsX myTH1))
              (discrV, effV, integral) in
  integral <-
    (if negb (N.eqb total 0) then
       (if Qlt_bool (inject_Z (Z.of_N total)) integral then
          print [Str "Warning in createEffVsCutCurve: total number specified to be *smaller* than the histograms's integral. Something might be wrong."]
        else ret tt) ;;
       ret (inject_Z (Z.of_N total))
     else ret integral) ;;
  effV <- for_ effV (fun x acc => y <- pydiv x integral ;; ret (acc ++ [y])) [] ;;
  ret (newTGraph (length discrV) discrV effV).

(** ** drawROCfromEffVsCutCurves *)

Definition rocLoopBody (sigGraph bkgGraph : TGraph) (s : list Q * list Q) (i : nat)
  : list Q * list Q :=
  let '(sigEff, bkgEff) := s in
  let '(sigValX, sigValY) := GetPoint sigGraph i in
  let '(bkgValX, bkgValY) := GetPoint bkgGraph i in
  (sigEff ++ [sigValY], bkgEff ++ [bkgValY]).

Definition drawROCfromEffVsCutCurves (sigGraph bkgGraph : TGraph) : M TGraph :=
  let nPoints := GetN sigGraph in
  (if negb (nPoints =? GetN bkgGraph) then
     print [Str "Background and signal curves must have the same number of entries!"] ;;
     print [Str "Entries signal:     "; Int (Z.of_nat nPoints)] ;;
     print [Str "Entries background: "; Int (Z.of_nat (GetN bkgGraph))] ;;
     raise (SystemExit 1)
   else ret tt) ;;
  let '(sigEff, bkgEff) :=
    fold_left (rocLoopBody sigGraph bkgGraph) (range nPoints) ([], []) in
  ret (newTGraph nPoints sigEff bkgEff).

(** ** The input tree *)

(** One entry of the BTagAnalyzer tree.  Branches are arrays indexed by jet
    or by track. *)
Record Event : Type := mkEvent {
  nJet : nat;
  Jet_nFirstTrack : nat -> nat;
  Jet_nLastTrack : nat -> nat;
  Jet_genpt : nat -> Q;
  Jet_pt : nat -> Q;
  Jet_ntracks : nat -> Q;
  Jet_eta : nat -> Q;
  Jet_phi : nat -> Q;
  Jet_flavour : nat -> Z;
  Track_IPsig : nat -> Q
}.

(** [tree.__getattr__(name)[jetInd]] for the branches that are copied. *)
Definition tree_getattr (tree : Event) (name : string) (jetInd : nat) : Q :=
  if String.eqb name "Jet_genpt" then Jet_genpt tree jetInd
  else if String.eqb name "Jet_pt" then Jet_pt tree jetInd
  else if String.eqb name "Jet_ntracks" then Jet_ntracks tree jetInd
  else if String.eqb name "Jet_eta" then Jet_eta tree jetInd
  else if String.eqb name "Jet_phi" then Jet_phi tree jetInd
  else if String.eqb name "Jet_flavour" then inject_Z (Jet_flavour tree jetInd)
  else 0%Q.

(** The [trackMVA] dictionary. *)
Record MVA : Type := mkMVA {
  mva_path : string;
  mva_name : string;
  mva_cuts : list Q;
  mva_vars : list string
}.

(** ** Python's sorted(l, reverse=True, key=...) : stable, decreasing *)

Section Sorted.
Variable A : Type.
Variable key : A -> Q.

Fixpoint insert_desc (x : A) (l : list A) : list A :=
  match l with
  | [] => [x]
  | y :: l' =>
      if Qle_bool (key y) (key x) then x :: y :: l' else y :: insert_desc x l'
  end.

Definition sorted_reverse (l : list A) : list A :=
  fold_right insert_desc [] l.
End Sorted.

(** ** std::vector<float> *)

Definition push_back (v : list Q) (x : Q) : list Q := v ++ [x].

(** [v[i] = x] through the unchecked operator[]. *)
Definition vector_set (v : list Q) (i : nat) (x : Q) : M (list Q) :=
  if i <? length v then ret (update v i (fun _ => x)) else raise VectorOutOfRange.

Record OutVariables : Type := mkOut {
  Jet_nseltracks : list Q;
  Jet_Ip : list Q;
  TCHE : list Q;
  TCHP : list Q
}.

Definition clear (out : OutVariables) : OutVariables := mkOut [] [] [] [].

(** A record of the output tree: the copied branches and the four vectors
    as they are when [Fill] is called. *)
Record Row : Type := mkRow {
  copied : list (string * Q);
  vectors : OutVariables
}.

Record Counters : Type := mkCounters {
  nSelTracksB : list nat;
  nTotTracksB : nat;
  nSelTracksLight : list nat;
  nTotTracksLight : nat;
  nSelTracksC : list nat;
  nTotTracksC : nat;
  nSelTracksPU : list nat;
  nTotTracksPU : nat
}.

Definition sentinel : Q := (- inject_Z (10 ^ 10))%Q.

Definition copiedVariablesToStore : list string :=
  ["Jet_genpt"; "Jet_pt"; "Jet_ntracks"; "Jet_eta"; "Jet_phi"; "Jet_flavour"]%string.

Section Engines.

(** The external collaborators: the formula engine (an expression, the
    current entry, an instance number), the classifier runtime (weights
    file, method name, the input values in booking order), the file
    system, and the rounding done by a single-precision slot. *)
Variable TTreeFormula : string -> Event -> nat -> Q.
Variable EvaluateMVA : string -> string -> list Q -> Q.
Variable isfile : string -> bool.
Variable float32 : Q -> Q.

(** *** class trackCutSelector *)

Record trackCutSelector : Type := mkCutSel { cutsel_cuts : string }.

Definition trackCutSelector_evaluate (self : trackCutSelector)
           (tree : Event) (trackN : nat) : M Q :=
  trace CutGetNdata ;;
  trace (CutEvalInstance trackN) ;;
  ret (TTreeFormula (cutsel_cuts self) tree trackN).

(** *** class trackMVASelector *)

(** [sel_trackVars]: the names of [self.trackVars]; the arrays paired
    with them are the [slots] of the world. *)
Record trackMVASelector : Type := mkMVASel {
  sel_name : string;
  sel_path : string;
  sel_cuts : list Q;
  sel_trackVars : list string
}.

Definition trackMVASelector_init (path name : string) (cuts : list Q)
           (trackVars : list string) : M trackMVASelector :=
  setSlots (map (fun _ => 0%Q) trackVars) ;;
  ret (mkMVASel name path cuts trackVars).

Fixpoint sync_vars (tree : Event) (trackN : nat) (vars : list string)
  : M (list Q) :=
  match vars with
  | [] => ret []
  | var :: rest =>
      trace (VarGetNdata var) ;;
      trace (VarEvalInstance var trackN) ;;
      let slot := float32 (TTreeFormula var tree trackN) in
      rest' <- sync_vars tree trackN rest ;;
      ret (slot :: rest')
  end.

Definition trackMVASelector_sync (self : trackMVASelector)
           (tree : Event) (trackN : nat) : M unit :=
  vars' <- sync_vars tree trackN (sel_trackVars self) ;;
  setSlots vars'.

Definition trackMVASelector_getValue (self : trackMVASelector)
           (tree : Event) (trackN : nat) : M Q :=
  trackMVASelector_sync self tree trackN ;;
  trace (ReaderEvaluateMVA (sel_name self)) ;;
  inputs <- getSlots ;;
  ret (EvaluateMVA (sel_path self) (sel_name self) inputs).

Definition trackMVASelector_evaluate (self : trackMVASelector)
           (tree : Event) (trackN : nat) : M (list bool) :=
  mvaValue <- trackMVASelector_getValue self tree trackN ;;
  ret (map (fun cut => Qgt_bool mvaValue cut) (sel_cuts self)).

(** *** createJetTreeTC: the loops *)

Section Loops.
Variable myTrackCutSel : option trackCutSelector.
Variable myTrackMVASel : option trackMVASelector.
Variable nCuts : nat.

Definition isB (tree : Event) (jetInd : nat) : bool :=
  (Z.abs (Jet_flavour tree jetInd) =? 5)%Z.
Definition isC (tree : Event) (jetInd : nat) : bool :=
  (Z.abs (Jet_flavour tree jetInd) =? 4)%Z.
Definition isLight (tree : Event) (jetInd : nat) : bool :=
  (Z.abs (Jet_flavour tree jetInd) <? 4)%Z || (Jet_flavour tree jetInd =? 21)%Z.

(** Lines 137-145: the per-track totals. *)
Definition countTotal (tree : Event) (jetInd : nat) (c : Counters) : Counters :=
  if Qle_bool 8 (Jet_genpt tree jetInd) then
    let c := if isB tree jetInd then
               mkCounters (nSelTracksB c) (nTotTracksB c + 1)
                          (nSelTracksLight c) (nTotTracksLight c)
                          (nSelTracksC c) (nTotTracksC c)
                          (nSelTracksPU c) (nTotTracksPU c)
             else c in
    let c := if isC tree jetInd then
               mkCounters (nSelTracksB c) (nTotTracksB c)
                          (nSelTracksLight c) (nTotTracksLight c)
                          (nSelTracksC c) (nTotTracksC c + 1)
                          (nSelTracksPU c) (nTotTracksPU c)
             else c in
    let c := if isLight tree jetInd then
               mkCounters (nSelTracksB c) (nTotTracksB c)
                          (nSelTracksLight c) (nTotTracksLight c + 1)
                          (nSelTracksC c) (nTotTracksC c)
                          (nSelTracksPU c) (nTotTracksPU c)
             else c in
    c
  else
    mkCounters (nSelTracksB c) (nTotTracksB c)
               (nSelTracksLight c) (nTotTracksLight c)
               (nSelTracksC c) (nTotTracksC c)
               (nSelTracksPU c) (nTotTracksPU c + 1).

(** Lines 160-168: the per-threshold counters of a selected track. *)
Definition countSelected (tree : Event) (jetInd i : nat) (c : Counters)
  : M Counters :=
  if Qle_bool 8 (Jet_genpt tree jetInd) then
    c <- (if isB tree jetInd then
            l <- setitem (nSelTracksB c) i (fun n => n + 1) ;;
            ret (mkCounters l (nTotTracksB c)
                            (nSelTracksLight c) (nTotTracksLight c)
                            (nSelTracksC c) (nTotTracksC c)
                            (nSelTracksPU c) (nTotTracksPU c))
          else ret c) ;;
    c <- (if isC tree jetInd then
            l <- setitem (nSelTracksC c) i (fun n => n + 1) ;;
            ret (mkCounters (nSelTracksB c) (nTotTracksB c)
                            (nSelTracksLight c) (nTotTracksLight c)
                            l (nTotTracksC c)
                            (nSelTracksPU c) (nTotTracksPU c))
          else ret c) ;;
    c <- (if isLight tree jetInd then
            l <- setitem (nSelTracksLight c) i (fun n => n + 1) ;;
            ret (mkCounters (nSelTracksB c) (nTotTracksB c)
                            l (nTotTracksLight c)
                            (nSelTracksC c) (nTotTracksC c)
                            (nSelTracksPU c) (nTotTracksPU c))
          else ret c) ;;
    ret c
  else
    l <- setitem (nSelTracksPU c) i (fun n => n + 1) ;;
    ret (mkCounters (nSelTracksB c) (nTotTracksB c)
                    (nSelTracksLight c) (nTotTracksLight c)
                    (nSelTracksC c) (nTotTracksC c)
                    l (nTotTracksPU c)).

(** Lines 147-156: the per-threshold decision for one track.  [None]
    stands for [continue].  [x and cutResult] is kept by its truth
    value. *)
Definition keepTrackOf (tree : Event) (track : nat) : M (option (list bool)) :=
  let keepTrack := map (fun _ => true) (range nCuts) in
  keepTrack <-
    match myTrackCutSel with
    | Some sel =>
        cutResult <- trackCutSelector_evaluate sel tree track ;;
        ret (map (fun x => x && truthy cutResult) keepTrack)
    | None => ret keepTrack
    end ;;
  if negb (any keepTrack) then ret None else
  keepTrack <-
    match myTrackMVASel with
    | Some sel =>
        ys <- trackMVASelector_evaluate sel tree track ;;
        ret (map (fun xy => fst xy && snd xy) (combine keepTrack ys))
    | None => ret keepTrack
    end ;;
  if negb (any keepTrack) then ret None else
  ret (Some keepTrack).

Definition SelTracks : Type := list (list (nat * Q)).

(** Lines 158-171. *)
Definition selectBody (tree : Event) (jetInd track : nat)
           (keepTrack : list bool) (i : nat) (s : Counters * SelTracks)
  : M (Counters * SelTracks) :=
  let '(c, selTracks) := s in
  k <- getitem keepTrack i ;;
  if k : bool then
    c <- countSelected tree jetInd i c ;;
    selTracks <- setitem selTracks i
                   (fun l => l ++ [(track, Track_IPsig tree track)]) ;;
    ret (c, selTracks)
  else ret (c, selTracks).

(** Lines 135-171: the body of the loop over the tracks of a jet. *)
Definition trackBody (tree : Event) (jetInd track : nat)
           (s : Counters * SelTracks) : M (Counters * SelTracks) :=
  let '(c, selTracks) := s in
  let c := countTotal tree jetInd c in
  keep <- keepTrackOf tree track ;;
  match keep with
  | None => ret (c, selTracks)
  | Some keepTrack =>
      for_ (range nCuts) (selectBody tree jetInd track keepTrack) (c, selTracks)
  end.

(** Lines 177-193: the body of the loop over the thresholds.  The list
    returned by [sorted] is not bound to anything. *)
Definition emitBody (selTracks : SelTracks) (i : nat)
           (s : OutVariables * bool) : M (OutVariables * bool) :=
  let '(out, selectedJet) := s in
  sel_i <- getitem selTracks i ;;
  if negb (length sel_i =? 0) then
    let selectedJet := true in
    let out := mkOut (push_back (Jet_nseltracks out)
                                (inject_Z (Z.of_nat (length sel_i))))
                     (Jet_Ip out) (TCHE out) (TCHP out) in
    let _ := sorted_reverse (fun track : nat * Q => snd track) sel_i in
    first <- getitem sel_i 0 ;;
    let out := mkOut (Jet_nseltracks out) (push_back (Jet_Ip out) (snd first))
                     (TCHE out) (TCHP out) in
    let out := mkOut (Jet_nseltracks out) (Jet_Ip out)
                     (push_back (TCHE out) sentinel) (TCHP out) in
    let out := mkOut (Jet_nseltracks out) (Jet_Ip out)
                     (TCHE out) (push_back (TCHP out) sentinel) in
    out <- (if 1 <? length sel_i then
              second <- getitem sel_i 1 ;;
              v <- vector_set (TCHE out) i (snd second) ;;
              ret (mkOut (Jet_nseltracks out) (Jet_Ip out) v (TCHP out))
            else ret out) ;;
    out <- (if 2 <? length sel_i then
              third <- getitem sel_i 2 ;;
              v <- vector_set (TCHP out) i (snd third) ;;
              ret (mkOut (Jet_nseltracks out) (Jet_Ip out) (TCHE out) v)
            else ret out) ;;
    ret (out, selectedJet)
  else ret (out, selectedJet).

Definition LoopState : Type := Counters * OutVariables * list Row.

(** Lines 129-203: the body of the loop over the jets of an entry. *)
Definition jetBody (tree : Event) (jetInd : nat) (s : LoopState) : M LoopState :=
  let '(c, out, outTree) := s in
  let selTracks : SelTracks := map (fun _ => []) (range nCuts) in
  '(c, selTracks) <-
    for_ (xrange (Jet_nFirstTrack tree jetInd) (Jet_nLastTrack tree jetInd))
         (trackBody tree jetInd) (c, selTracks) ;;
  '(out, selectedJet) <-
    for_ (range nCuts) (emitBody selTracks) (out, false) ;;
  let outTree :=
    if selectedJet : bool then
      outTree ++ [mkRow (map (fun name => (name, tree_getattr tree name jetInd))
                             copiedVariablesToStore)
                        out]
    else outTree in
  ret (c, clear out, outTree).

(** Lines 123-203: the body of the loop over the entries. *)
Definition eventBody (entry_tree : nat * Event) (s : LoopState) : M LoopState :=
  let '(entry, tree) := entry_tree in
  (if (entry + 1) mod 1000 =? 0 then
     print [Str "Event "; Int (Z.of_nat (entry + 1)); Str "."]
   else ret tt) ;;
  for_ (range (nJet tree)) (jetBody tree) s.

End Loops.

(** *** createJetTreeTC *)

Definition Qnat (n : nat) : Q := inject_Z (Z.of_nat n).

(** Lines 93-106: the two selectors and the number of thresholds. *)
Definition setup (trackCut : option string) (trackMVA : option MVA)
  : M (option trackCutSelector * option trackMVASelector * nat) :=
  let nCuts := 1 in
  print [Str ""] ;;
  myTrackCutSel <-
    match trackCut with
    | Some cut =>
        print [Str "Will use base rectangular cuts: "; Str cut] ;;
        ret (Some (mkCutSel cut))
    | None => ret None
    end ;;
  '(myTrackMVASel, nCuts) <-
    match trackMVA with
    | Some m =>
        (if negb (isfile (mva_path m)) then
           raise (Exception [Str "Error: file "; Str (mva_path m);
                             Str " does not exist."])
         else ret tt) ;;
        print [Str "Will use MVA-based track selector "; Str (mva_name m);
               Str " on cut values "; Flts (mva_cuts m); Str "."; Str ""] ;;
        sel <- trackMVASelector_init (mva_path m) (mva_name m) (mva_cuts m)
                                     (mva_vars m) ;;
        ret (Some sel, length (mva_cuts m))
    | None => ret (None, nCuts)
    end ;;
  print [Str ""] ;;
  ret (myTrackCutSel, myTrackMVASel, nCuts).

(** Lines 110-203: the pass over the entries. *)
Definition eventLoop (myTrackCutSel : option trackCutSelector)
           (myTrackMVASel : option trackMVASelector) (nCuts : nat)
           (tree : list Event) : M LoopState :=
  let nEntries := length tree in
  print [Str "Will loop over "; Int (Z.of_nat nEntries); Str " events."] ;;
  let c := mkCounters (repeat 0 nCuts) 0 (repeat 0 nCuts) 0
                      (repeat 0 nCuts) 0 (repeat 0 nCuts) 0 in
  for_ (combine (range nEntries) tree)
       (eventBody myTrackCutSel myTrackMVASel nCuts)
       (c, mkOut [] [] [] [], []).

(** Lines 207-215: the efficiencies of one threshold. *)
Definition reportBody (trackMVA : option MVA) (c : Counters) (i : nat) (_ : unit)
  : M unit :=
  match trackMVA with
  | Some m =>
      cut <- getitem (mva_cuts m) i ;;
      print [Str "MVA cut value "; Flt cut; Str ":"]
  | None => print [Str "Non-MVA cuts:"]
  end ;;
  selB <- getitem (nSelTracksB c) i ;;
  effB <- pydiv (Qnat (100 * selB)) (Qnat (nTotTracksB c)) ;;
  print [Str "B track efficiency:  "; Int (Z.of_nat selB); Str "/";
         Int (Z.of_nat (nTotTracksB c)); Str " = "; Flt effB; Str "%."] ;;
  selC <- getitem (nSelTracksC c) i ;;
  effC <- pydiv (Qnat (100 * selC)) (Qnat (nTotTracksC c)) ;;
  print [Str "C track efficiency:  "; Int (Z.of_nat selC); Str "/";
         Int (Z.of_nat (nTotTracksC c)); Str " = "; Flt effC; Str "%."] ;;
  selLight <- getitem (nSelTracksLight c) i ;;
  effLight <- pydiv (Qnat (100 * selLight)) (Qnat (nTotTracksLight c)) ;;
  print [Str "Light track efficiency:  "; Int (Z.of_nat selLight); Str "/";
         Int (Z.of_nat (nTotTracksB c)); Str " = "; Flt effLight; Str "%."] ;;
  selPU <- getitem (nSelTracksPU c) i ;;
  effPU <- pydiv (Qnat (100 * selPU)) (Qnat (nTotTracksPU c)) ;;
  print [Str "PU track efficiency: "; Int (Z.of_nat selPU); Str "/";
         Int (Z.of_nat (nTotTracksPU c)); Str " = "; Flt effPU; Str "%."; Str ""].

Definition report (trackMVA : option MVA) (nCuts : nat) (c : Counters) : M unit :=
  for_ (range nCuts) (reportBody trackMVA c) tt.

(** The value returned stands for the tree written to the output file:
    [outTree.Write()] comes after the report.  The chain is the sequence of
    the entries of its files.  Each formula is registered with
    [tree.SetNotify] (lines 19 and 42) and the chain keeps the last one
    only; what happens to the other formulas when the chain moves to a
    second file is not modelled, so that the outcome of a run is that of the
    program for a chain of one file, or for a single formula. *)
Definition createJetTreeTC (rootFiles : list (list Event))
           (trackCut : option string) (trackMVA : option MVA) : M (list Row) :=
  let tree := concat rootFiles in
  '(myTrackCutSel, myTrackMVASel, nCuts) <- setup trackCut trackMVA ;;
  '(c, out, outTree) <- eventLoop myTrackCutSel myTrackMVASel nCuts tree ;;
  print [Str ""] ;;
  report trackMVA nCuts c ;;
  ret outTree.

End Engines.


(** ** Reference definitions used in the statements *)

(** Two curves with the same points, up to equality of rationals. *)
Definition same_point (p q : Q * Q) : Prop :=
  (fst p == fst q)%Q /\ (snd p == snd q)%Q.

Definition same_curve (g1 g2 : TGraph) : Prop := Forall2 same_point g1 g2.

(** What [effLoopBody] accumulates: the running values of [integral]. *)
Fixpoint running (h : TH1) (x : Q) (bins : list nat) : list Q :=
  match bins with
  | [] => []
  | i :: bins' =>
      let x' := (x - GetBinContent h (i - 1))%Q in x' :: running h x' bins'
  end.

Definition residual (h : TH1) (x : Q) (bins : list nat) : Q :=
  fold_left (fun x i => (x - GetBinContent h (i - 1))%Q) bins x.

(** The number every efficiency value is divided by (line 301). *)
Definition normalisation (h : TH1) (total : N) : Q :=
  if N.eqb total 0 then residual h (Integral h) (xrange 2 (GetNbinsX h))
  else inject_Z (Z.of_N total).

(** The curves of the ROC example. *)
Definition example_sig : TGraph := [(0, 9 # 10); (1, 5 # 10); (2, 1 # 10)]%Q.
Definition example_bkg : TGraph := [(0, 8 # 10); (1, 3 # 10); (2, 5 # 100)]%Q.
Definition world0 : World := mkWorld [] [] [].

(** Histograms of counts.  The integers up to 2^53 are binary64 numbers,
    and their sums and differences within that bound are computed without
    rounding.  A histogram filled with weight 1 holds such counts: each
    regular bin holds a natural number, and the integral stays within the
    bound. *)
Definition maxExactCount : N := 9007199254740992.

Definition countHistogram (h : TH1) : Prop :=
  (forall i, 1 <= i <= GetNbinsX h ->
             exists n : nat, (GetBinContent h i == Qnat n)%Q) /\
  (Integral h <= inject_Z (Z.of_N maxExactCount))%Q.

(** A histogram of three bins holding one entry each, and one of a single
    bin. *)
Definition hist3 : TH1 := mkTH1 3 (fun i => Qnat i) (fun _ => 1%Q).
Definition hist1 : TH1 := mkTH1 1 (fun i => Qnat i) (fun _ => 1%Q).

(** ** Reference definitions for the track selection *)

Definition isCutEval (c : call) : bool :=
  match c with CutEvalInstance _ => true | _ => false end.

Definition isMVAEval (c : call) : bool :=
  match c with ReaderEvaluateMVA _ => true | _ => false end.

Definition count (p : call -> bool) (l : list call) : nat := length (filter p l).

Definition nonEmpty (l : list (nat * Q)) : bool := negb (length l =? 0).

(** The significance of the k-th pair of a list, in the order of the list. *)
Definition significance (l : list (nat * Q)) (k : nat) : Q := snd (nth k l (0, 0%Q)).

(** What the loop over the thresholds pushes when no write goes out of
    range: one entry per non-empty list, read off the list as it stands. *)
Definition emitted (sel : list (list (nat * Q))) : OutVariables :=
  let ne := filter nonEmpty sel in
  mkOut (map (fun l => Qnat (length l)) ne)
        (map (fun l => significance l 0) ne)
        (map (fun l => if 1 <? length l then significance l 1 else sentinel) ne)
        (map (fun l => if 2 <? length l then significance l 2 else sentinel) ne).

(** The writes [TCHE[i] = ...] and [TCHP[i] = ...] stay in range: a list
    with two tracks or more comes after non-empty lists only. *)
Fixpoint writesInRange (allBefore : bool) (sel : list (list (nat * Q))) : bool :=
  match sel with
  | [] => true
  | l :: rest =>
      if nonEmpty l then
        ((length l <=? 1) || allBefore) && writesInRange allBefore rest
      else writesInRange false rest
  end.

(** The discriminant record in the words of the specification: sort by
    decreasing significance, then take the count and the first three
    values. *)
Definition spec_record (l : list (nat * Q)) : Q * Q * Q * Q :=
  let s := sorted_reverse (fun track : nat * Q => snd track) l in
  (Qnat (length s),
   significance s 0,
   if 2 <=? length s then significance s 1 else sentinel,
   if 3 <=? length s then significance s 2 else sentinel).

Definition wfCounters (n : nat) (c : Counters) : Prop :=
  length (nSelTracksB c) = n /\ length (nSelTracksLight c) = n /\
  length (nSelTracksC c) = n /\ length (nSelTracksPU c) = n.

Definition appendSel (keep : list bool) (x : nat * Q) (sel : list (list (nat * Q)))
  : list (list (nat * Q)) :=
  map (fun kl => if fst kl : bool then snd kl ++ [x] else snd kl) (combine keep sel).

Section Reference.
Variable TTreeFormula : string -> Event -> nat -> Q.
Variable EvaluateMVA : string -> string -> list Q -> Q.
Variable float32 : Q -> Q.
Variable myTrackCutSel : option trackCutSelector.
Variable myTrackMVASel : option trackMVASelector.
Variable nCuts : nat.

(** The cut predicate, when there is one, holds for the track. *)
Definition cutPassed (tree : Event) (track : nat) : bool :=
  match myTrackCutSel with
  | Some sel => truthy (TTreeFormula (cutsel_cuts sel) tree track)
  | None => true
  end.

(** The classifier's score of a track: the classifier applied to the
    values of the input-variable formulas for that track. *)
Definition scoreOf (sel : trackMVASelector) (tree : Event) (track : nat) : Q :=
  EvaluateMVA (sel_path sel) (sel_name sel)
    (map (fun var => float32 (TTreeFormula var tree track)) (sel_trackVars sel)).

(** A track is accepted under threshold [i]. *)
Definition accepted (tree : Event) (track i : nat) : bool :=
  cutPassed tree track &&
  match myTrackMVASel with
  | Some sel => Qgt_bool (scoreOf sel tree track) (nth i (sel_cuts sel) 0%Q)
  | None => true
  end.

(** The selected-track list of a jet under threshold [i]. *)
Definition selected (tree : Event) (jetInd i : nat) : list (nat * Q) :=
  map (fun track => (track, Track_IPsig tree track))
      (filter (fun track => accepted tree track i)
              (xrange (Jet_nFirstTrack tree jetInd) (Jet_nLastTrack tree jetInd))).

Definition selTracksOf (tree : Event) (jetInd : nat) : list (list (nat * Q)) :=
  map (selected tree jetInd) (range nCuts).

(** The calls expected of the selection of one track. *)
Definition cutCalls (track : nat) : list call :=
  match myTrackCutSel with
  | Some _ => [CutGetNdata; CutEvalInstance track]
  | None => []
  end.

Definition syncCalls (vars : list string) (track : nat) : list call :=
  flat_map (fun var => [VarGetNdata var; VarEvalInstance var track]) vars.

Definition mvaCalls (tree : Event) (track : nat) : list call :=
  match myTrackMVASel with
  | Some sel =>
      if (0 <? nCuts) && cutPassed tree track then
        syncCalls (sel_trackVars sel) track ++ [ReaderEvaluateMVA (sel_name sel)]
      else []
  | None => []
  end.

(** The jets of a chain, in the order of the loops. *)
Definition jetsOf (tree : list Event) : list (Event * nat) :=
  flat_map (fun ev => map (pair ev) (range (nJet ev))) tree.

Definition jetSelected (jet : Event * nat) : bool :=
  existsb nonEmpty (selTracksOf (fst jet) (snd jet)).

Definition jetWritesInRange (jet : Event * nat) : bool :=
  writesInRange true (selTracksOf (fst jet) (snd jet)).

Definition rowOf (jet : Event * nat) : Row :=
  mkRow (map (fun name => (name, tree_getattr (fst jet) name (snd jet)))
             copiedVariablesToStore)
        (emitted (selTracksOf (fst jet) (snd jet))).

End Reference.

(** The selectors and the number of thresholds that [setup] builds. *)
Definition cutSelOf (trackCut : option string) : option trackCutSelector :=
  match trackCut with Some cut => Some (mkCutSel cut) | None => None end.

Definition mvaSelOf (trackMVA : option MVA) : option trackMVASelector :=
  match trackMVA with
  | Some m => Some (mkMVASel (mva_name m) (mva_path m) (mva_cuts m) (mva_vars m))
  | None => None
  end.

Definition nCutsOf (trackMVA : option MVA) : nat :=
  match trackMVA with Some m => length (mva_cuts m) | None => 1 end.

(** Some category has no track at all. *)
Definition someTotalZero (c : Counters) : bool :=
  (nTotTracksB c =? 0) || (nTotTracksC c =? 0) ||
  (nTotTracksLight c =? 0) || (nTotTracksPU c =? 0).

(** ** Example inputs *)

(** An entry with four jets: a b jet with tracks 0 and 1 of significance 1
    and 5, a c jet, a light jet, and a jet below the genpt threshold with
    one track each. *)
Definition event4 : Event :=
  mkEvent 4
    (fun j => nth j [0; 2; 3; 4] 0) (fun j => nth j [2; 3; 4; 5] 0)
    (fun j => nth j [10; 10; 10; 5]%Q 0%Q) (fun _ => 30%Q) (fun _ => 2%Q)
    (fun _ => 0%Q) (fun _ => 0%Q)
    (fun j => nth j [5; 4; 1; 5]%Z 0%Z)
    (fun t => nth t [1; 5; 2; 3; 4]%Q 0%Q).

(** An entry with a single light jet of one track. *)
Definition eventLight : Event :=
  mkEvent 1 (fun _ => 0) (fun _ => 1) (fun _ => 10%Q) (fun _ => 30%Q)
    (fun _ => 1%Q) (fun _ => 0%Q) (fun _ => 0%Q) (fun _ => 1%Z) (fun _ => 3%Q).

(** Engines for the examples: the expression "Track_IPsig>2" is the cut,
    any other expression reads the significance; the classifier adds up its
    inputs. *)
Definition exFormula (expr : string) (tree : Event) (i : nat) : Q :=
  if String.eqb expr "Track_IPsig>2" then
    if Qle_bool (Track_IPsig tree i) 2 then 0%Q else 1%Q
  else Track_IPsig tree i.

Definition exMVA (path name : string) (inputs : list Q) : Q := Qsum inputs.

Definition exMVAdict : MVA :=
  mkMVA "weights.xml" "BDT" [0; 4]%Q ["Track_IPsig"; "Track_IPsig"]%string.

Definition exCutSel : trackCutSelector := mkCutSel "Track_IPsig>2".

Definition exMVASel : trackMVASelector :=
  mkMVASel "BDT" "weights.xml" [0; 4]%Q ["Track_IPsig"; "Track_IPsig"]%string.

Definition exRun : (exn + list Row) * World :=
  createJetTreeTC exFormula exMVA (fun _ => true) (fun x => x) [[event4]]
                  (Some "Track_IPsig>2"%string) (Some exMVAdict) world0.

Definition rowsOf (r : (exn + list Row) * World) : list Row :=
  match fst r with inr rows => rows | inl _ => [] end.

(** * drawEffVsCutCurve in binary64

    Lines 281-303 once more, with the numbers of the program: the bin
    contents, the low edges and the running integral are binary64 values,
    [total] is a Python int.  Sums, differences and quotients round to
    nearest, ties to even. *)
Module Binary64.
Import Floats.

Record TH1 : Type := mkTH1 {
  GetNbinsX : nat;
  GetBinLowEdge : nat -> float;
  GetBinContent : nat -> float
}.

Definition TGraph : Type := list (float * float).

Definition newTGraph (n : nat) (x y : list float) : TGraph := firstn n (combine x y).

(** TH1::Integral(): the contents of bins 1..GetNbinsX, added to 0 in the
    order of the bins. *)
Definition Integral (h : TH1) : float :=
  fold_left (fun s i => (s + GetBinContent h i)%float) (seq 1 (GetNbinsX h)) 0%float.

Definition effLoopBody (myTH1 : TH1) (s : list float * list float * float) (i : nat)
  : list float * list float * float :=
  let '(discrV, effV, integral) := s in
  let discrV := discrV ++ [GetBinLowEdge myTH1 i] in
  let integral := (integral - GetBinContent myTH1 (i - 1))%float in
  let effV := effV ++ [integral] in
  (discrV, effV, integral).

(** [total < integral]: Python compares an int with a float by value,
    without rounding the int. *)
Definition int_lt_float (n : N) (x : float) : bool :=
  match Prim2SF x with
  | S754_zero _ => false
  | S754_infinity s => negb s
  | S754_nan => false
  | S754_finite true _ _ => false
  | S754_finite false m e =>
      match e with
      | Z.neg k => (Z.of_N n * 2 ^ Z.pos k <? Z.pos m)%Z
      | _ => (Z.of_N n <? Z.pos m * 2 ^ e)%Z
      end
  end.

Definition OverflowError : exn :=
  Exception [Str "OverflowError: long int too large to convert to float"].

(** The conversion of a Python int to a float: to the nearest binary64
    value, OverflowError when that is out of range. *)
Definition float_of_int (n : N) : M float :=
  match binary_normalize prec emax (Z.of_N n) 0 false with
  | S754_infinity _ => raise OverflowError
  | x => ret (SF2Prim x)
  end.

(** The divisor of line 301: the float the loop leaves, or the int [total]. *)
Inductive number : Type :=
| Float (x : float)
| Int (n : N).

(** [x / integral] on a float [x]: an int divisor is converted first, a zero
    divisor raises. *)
Definition pydiv (x : float) (d : number) : M float :=
  y <- match d with
       | Float y => ret y
       | Int n => float_of_int n
       end ;;
  if (y =? 0)%float then raise ZeroDivisionError else ret (x / y)%float.

Definition drawEffVsCutCurve (myTH1 : TH1) (total : N) : M TGraph :=
  let discrV := [GetBinLowEdge myTH1 1] in
  let integral := Integral myTH1 in
  let effV := [integral] in
  let '(discrV, effV, integral) :=
    fold_left (effLoopBody myTH1) (xrange 2 (GetNbinsX myTH1))
              (discrV, effV, integral) in
  integral <-
    (if negb (N.eqb total 0) then
       (if int_lt_float total integral then
          print [Str "Warning in createEffVsCutCurve: total number specified to be *smaller* than the histograms's integral. Something might be wrong."]
        else ret tt) ;;
       ret (Int total)
     else ret (Float integral)) ;;
  effV <- for_ effV (fun x acc => y <- pydiv x integral ;; ret (acc ++ [y])) [] ;;
  ret (newTGraph (length discrV) discrV effV).

Definition float_of_nat (n : nat) : float :=
  SF2Prim (binary_normalize prec emax (Z.of_nat n) 0 false).

Definition less (x y : float) : bool := (x <? y)%float.



(** TAxis::FindBin for fixed bins, on binary64 numbers:
    [1 + int(fNbins * (x - fXmin) / (fXmax - fXmin))] between the limits. *)
Definition truncate (x : float) : Z :=
  match Prim2SF x with
  | S754_finite s m e =>
      let v := match e with
               | Z.neg k => (Z.pos m / 2 ^ Z.pos k)%Z
               | _ => (Z.pos m * 2 ^ e)%Z
               end in
      if s then (- v)%Z else v
  | _ => 0%Z
  end.

Definition FindBin (fNbins : nat) (fXmin fXmax x : float) : Z :=
  if (x <? fXmin)%float then 0%Z
  else if negb (x <? fXmax)%float then (Z.of_nat fNbins + 1)%Z
  else (1 + truncate (float_of_nat fNbins * (x - fXmin) / (fXmax - fXmin))%float)%Z.

(** The binary64 number nearest to 0.1, and the one just below it. *)
Definition tenth : float := (1 / 10)%float.
Definition belowTenth : float := next_down tenth.

(** Three bins holding one entry each, as [hist3]. *)
Definition histCounts : TH1 := mkTH1 3 float_of_nat (fun _ => 1%float).

Definition curveCounts : TGraph := [(1, 1.5); (2, 1)]%float.

End Binary64.

(** ** Reference definitions for the counters *)

(** The four categories of the efficiency counters. *)
Inductive Category : Type := CatB | CatC | CatLight | CatPU.

(** The tracks of a jet count in category [k] (lines 137-145). *)
Definition inCategory (tree : Event) (jetInd : nat) (k : Category) : bool :=
  match k with
  | CatB => Qle_bool 8 (Jet_genpt tree jetInd) && isB tree jetInd
  | CatC => Qle_bool 8 (Jet_genpt tree jetInd) && isC tree jetInd
  | CatLight => Qle_bool 8 (Jet_genpt tree jetInd) && isLight tree jetInd
  | CatPU => negb (Qle_bool 8 (Jet_genpt tree jetInd))
  end.

Definition totalOf (c : Counters) (k : Category) : nat :=
  match k with
  | CatB => nTotTracksB c
  | CatC => nTotTracksC c
  | CatLight => nTotTracksLight c
  | CatPU => nTotTracksPU c
  end.

Definition selectedOf (c : Counters) (k : Category) (i : nat) : nat :=
  nth i match k with
        | CatB => nSelTracksB c
        | CatC => nSelTracksC c
        | CatLight => nSelTracksLight c
        | CatPU => nSelTracksPU c
        end 0.

(** The number of tracks of a jet. *)
Definition nTracks (jet : Event * nat) : nat :=
  length (xrange (Jet_nFirstTrack (fst jet) (snd jet)) (Jet_nLastTrack (fst jet) (snd jet))).

(** Either a total ([None]) or the selected counter of a threshold. *)
Definition counterAt (c : Counters) (x : Category * option nat) : nat :=
  match snd x with
  | None => totalOf c (fst x)
  | Some i => selectedOf c (fst x) i
  end.

(** Every write TCHE[i] or TCHP[i] of the pass stays within the vector: no
    jet has, for two thresholds j < i, no selected track under j and two
    selected tracks or more under i (the vectors grow by one element per
    threshold with a selected track, and are indexed by the threshold
    number). *)
Definition writesStayInRange (TTreeFormula : string -> Event -> nat -> Q)
           (EvaluateMVA : string -> string -> list Q -> Q) (float32 : Q -> Q)
           (trackCut : option string) (trackMVA : option MVA)
           (jets : list (Event * nat)) : Prop :=
  forall jet i j,
    In jet jets -> j < i -> i < nCutsOf trackMVA ->
    selected TTreeFormula EvaluateMVA float32 (cutSelOf trackCut) (mvaSelOf trackMVA)
             (fst jet) (snd jet) j = [] ->
    length (selected TTreeFormula EvaluateMVA float32 (cutSelOf trackCut)
                     (mvaSelOf trackMVA) (fst jet) (snd jet) i) <= 1.

(** The pass over the example entry, without cut and without classifier. *)
Definition exLoop : (exn + LoopState) * World :=
  eventLoop exFormula exMVA (fun x => x) None None 1 [event4] world0.

Definition loopStateOf (r : (exn + LoopState) * World) : LoopState :=
  match fst r with
  | inr s => s
  | inl _ => (mkCounters [] 0 [] 0 [] 0 [] 0, mkOut [] [] [] [], [])
  end.

(** The warning of drawEffVsCutCurve. *)
Definition effWarning : line :=
  [Str "Warning in createEffVsCutCurve: total number specified to be *smaller* than the histograms's integral. Something might be wrong."].


(** A histogram of three bins whose entries all lie in the first bin. *)
Definition histFront : TH1 := mkTH1 3 (fun i => Qnat i) (fun i => if i =? 1 then 5%Q else 0%Q).

From Stdlib Require Import Qround.

(** * createDiscrHist *)

(** ** ROOT objects: TH1D and the output file *)

(** A TH1D with fixed bins.  [fArray b] is the content of bin [b]: bin 0 is
    the underflow, bin [fNbins + 1] the overflow.  Every fill has weight 1,
    so the contents are counts. *)
Record TH1D : Type := mkTH1D {
  fName : string;
  fTitle : string;
  fNbins : nat;
  fXmin : Q;
  fXmax : Q;
  fArray : nat -> nat
}.

(** TH1D(name, title, nbins, xlow, xup): a bin count <= 0 is replaced by 1. *)
Definition newTH1D (name title : string) (nbins : Z) (xlow xup : Q) : TH1D :=
  mkTH1D name title (if (nbins <=? 0)%Z then 1 else Z.to_nat nbins) xlow xup
         (fun _ => 0).

(** TAxis::FindBin for fixed bins: underflow below fXmin, overflow at or
    above fXmax, else [1 + int(fNbins * (x - fXmin) / (fXmax - fXmin))].
    The axis computes the product and the quotient in binary64, with
    rounding; [binQuotient fNbins x fXmin fXmax] stands for the integer that
    [int(...)] gives, and nothing is assumed of it: for a value just below
    fXmax the rounded quotient can reach fNbins, which is the overflow bin
    (see [Binary64.FindBin]). *)
Definition FindBin (binQuotient : nat -> Q -> Q -> Q -> Z) (h : TH1D) (x : Q) : nat :=
  if Qlt_bool x (fXmin h) then 0
  else if negb (Qlt_bool x (fXmax h)) then S (fNbins h)
  else 1 + Z.to_nat (binQuotient (fNbins h) x (fXmin h) (fXmax h)).

(** The quotient without rounding. *)
Definition exactQuotient (nbins : nat) (x xmin xmax : Q) : Z :=
  Qfloor (Qnat nbins * (x - xmin) / (xmax - xmin)).

(** TH1::Fill(x) *)
Definition Fill (binQuotient : nat -> Q -> Q -> Q -> Z) (h : TH1D) (x : Q) : TH1D :=
  let bin := FindBin binQuotient h x in
  mkTH1D (fName h) (fTitle h) (fNbins h) (fXmin h) (fXmax h)
         (fun b => if b =? bin then fArray h b + 1 else fArray h b).

(** The histogram as drawEffVsCutCurve reads it.  GetBinContent takes
    every bin number above the overflow bin for the overflow bin. *)
Definition asTH1 (h : TH1D) : TH1 :=
  mkTH1 (fNbins h)
        (fun i => fXmin h + (Qnat i - 1) * ((fXmax h - fXmin h) / Qnat (fNbins h)))%Q
        (fun i => Qnat (fArray h (Nat.min i (S (fNbins h))))).

Inductive TObject : Type :=
| Hist (h : TH1D)
| Graph (g : TGraph).

(** One object written to the output file: the directory that was current,
    the name given to Write, the object. *)
Record TKey : Type := mkKey {
  key_dir : string;
  key_name : string;
  key_obj : TObject
}.

(** ** The dictionaries of jetCutList and histList *)

Record JetCut : Type := mkJetCut {
  cut_name : string;
  cut_cuts : string
}.

(** [hist_range]: the two limits, numbers that binary64 holds exactly (the
    TH1D keeps them as doubles, line 256 compares with them as given).
    [hist_discreff]: the value under the key "discreff" when the key is
    there and the value is a boolean; only [Some true] asks for a curve. *)
Record HistDict : Type := mkHistDict {
  hist_name : string;
  hist_title : string;
  hist_bins : Z;
  hist_range : Q * Q;
  hist_var : string;
  hist_discreff : option bool
}.

(** A Python dict with string keys. *)
Definition dict (A : Type) : Type := string -> option A.
Definition dict_empty {A} : dict A := fun _ => None.
Definition dict_set {A} (d : dict A) (k : string) (v : A) : dict A :=
  fun k' => if String.eqb k' k then Some v else d k'.

Definition fupd {A} (f : nat -> A) (k : nat) (v : A) : nat -> A :=
  fun j => if j =? k then v else f j.

(** What the function stores in the dictionaries it is given, by the
    identity of the dictionary: cut["total"] and histDict["cutDict"].  A
    dictionary that comes twice in a list is one object. *)
Record Store : Type := mkStore {
  total : nat -> nat;
  cutDict : nat -> dict TH1D
}.

Definition KeyError (key : string) : exn := Exception [Str "KeyError: "; Str key].

(** A counter kept by the pass over the entries: the total of a cut, or
    the content of a bin of the histogram stored under a name. *)
Inductive Counter : Type :=
| TotalOf (cut : nat)
| BinOf (histDict : nat) (name : string) (bin : nat).

Definition counter (s : Store) (x : Counter) : nat :=
  match x with
  | TotalOf c => total s c
  | BinOf h n b =>
      match cutDict s h n with Some th => fArray th b | None => 0 end
  end.

(** The curve drawEffVsCutCurve returns when its divisor is not zero. *)
Definition effCurve (h : TH1) (total : N) : TGraph :=
  combine (map (GetBinLowEdge h) (1 :: xrange 2 (GetNbinsX h)))
          (map (fun x => (x / normalisation h total)%Q)
               (Integral h :: running h (Integral h) (xrange 2 (GetNbinsX h)))).

Section DiscrHist.

Variable Entry : Type.
(** TTreeFormula(name, cuts, tree).EvalInstance() at the current entry *)
Variable EvalInstance : string -> Entry -> Q.
(** tree.__getattr__(var) at the current entry, for a branch holding a number *)
Variable getattr : string -> Entry -> Q.
(** the integer part of the quotient that TAxis::FindBin computes *)
Variable binQuotient : nat -> Q -> Q -> Q -> Z.
Variable isfile : string -> bool.
(** the entries of the tree of a given name in a file *)
Variable entriesOf : string -> string -> list Entry.
(** the dictionaries of the two lists, by identity *)
Variable cutObj : nat -> JetCut.
Variable histObj : nat -> HistDict.

(** Lines 229-234 *)
Definition addFile (treeDirectory : string) (file : string) (tree : list Entry)
  : M (list Entry) :=
  (if negb (isfile file) then
     print [Str "Error: file "; Str file; Str " does not exist."] ;;
     raise (SystemExit 1)
   else ret tt) ;;
  ret (tree ++ entriesOf treeDirectory file).

(** Lines 246-247: the dict comprehension, a later cut of the same name
    replacing the histogram of an earlier one. *)
Definition newCutDict (jetCutList : list nat) (histDict : nat) : dict TH1D :=
  fold_left
    (fun d cut =>
       dict_set d (cut_name (cutObj cut))
                (newTH1D (cut_name (cutObj cut) ++ "_" ++ hist_name (histObj histDict))
                         (hist_title (histObj histDict))
                         (hist_bins (histObj histDict))
                         (fst (hist_range (histObj histDict)))
                         (snd (hist_range (histObj histDict)))))
    jetCutList dict_empty.

(** Lines 239-247 *)
Definition initStore (histList jetCutList : list nat) : Store :=
  mkStore (fold_left (fun t cut => fupd t cut 0) jetCutList (fun _ => 0))
          (fold_left (fun d histDict => fupd d histDict (newCutDict jetCutList histDict))
                     histList (fun _ => dict_empty)).

(** histDict["cutDict"][cut["name"]] *)
Definition lookupHist (s : Store) (cut histDict : nat) : M TH1D :=
  match cutDict s histDict (cut_name (cutObj cut)) with
  | Some h => ret h
  | None => raise (KeyError (cut_name (cutObj cut)))
  end.

(** Lines 255-259 *)
Definition fillHist (tree : Entry) (cut : nat) (histDict : nat) (s : Store) : M Store :=
  let value := getattr (hist_var (histObj histDict)) tree in
  if Qle_bool (fst (hist_range (histObj histDict))) value &&
     Qlt_bool value (snd (hist_range (histObj histDict)))
  then
    h <- lookupHist s cut histDict ;;
    ret (mkStore (total s)
                 (fupd (cutDict s) histDict
                       (dict_set (cutDict s histDict) (cut_name (cutObj cut))
                                 (Fill binQuotient h value))))
  else ret s.

(** Lines 252-259 *)
Definition fillCut (histList : list nat) (tree : Entry) (cut : nat) (s : Store)
  : M Store :=
  if truthy (EvalInstance (cut_cuts (cutObj cut)) tree) then
    let s := mkStore (fupd (total s) cut (total s cut + 1)) (cutDict s) in
    for_ histList (fillHist tree cut) s
  else ret s.

(** Lines 250-259 *)
Definition fillLoop (histList jetCutList : list nat) (tree : list Entry) (s : Store)
  : M Store :=
  for_ tree (fun e s => for_ jetCutList (fillCut histList e) s) s.

(** Lines 261-262 *)
Definition totalLine (s : Store) (cut : nat) : line :=
  [Str "Total number of entries for category "; Str (cut_name (cutObj cut));
   Str ": "; Int (Z.of_nat (total s cut)); Str "."].

Definition printTotals (jetCutList : list nat) (s : Store) : M unit :=
  for_ jetCutList (fun cut _ => print (totalLine s cut)) tt.

(** Lines 265-268 *)
Definition writeHist (s : Store) (cut : nat) (histDict : nat) (keys : list TKey)
  : M (list TKey) :=
  h <- lookupHist s cut histDict ;;
  ret (keys ++ [mkKey (cut_name (cutObj cut)) (hist_name (histObj histDict)) (Hist h)]).

Definition writeHists (histList jetCutList : list nat) (s : Store) (keys : list TKey)
  : M (list TKey) :=
  for_ jetCutList (fun cut keys => for_ histList (writeHist s cut) keys) keys.

(** Lines 274-278 *)
Definition writeGraph (s : Store) (cut : nat) (histDict : nat) (keys : list TKey)
  : M (list TKey) :=
  match hist_discreff (histObj histDict) with
  | Some true =>
      h <- lookupHist s cut histDict ;;
      myGraph <- drawEffVsCutCurve (asTH1 h) (N.of_nat (total s cut)) ;;
      ret (keys ++ [mkKey (cut_name (cutObj cut))
                          (hist_name (histObj histDict) ++ "_graph") (Graph myGraph)])
  | _ => ret keys
  end.

Definition writeGraphs (histList jetCutList : list nat) (s : Store) (keys : list TKey)
  : M (list TKey) :=
  for_ jetCutList (fun cut keys => for_ histList (writeGraph s cut) keys) keys.

(** The value returned stands for the objects of the output file, in the
    order they were written, when [outFile.Close()] is reached. *)
Definition createDiscrHist (inputFileList : list string)
           (treeDirectory outputFileName : string)
           (histList jetCutList : list nat) : M (list TKey) :=
  tree <- for_ inputFileList (addFile treeDirectory) [] ;;
  s <- fillLoop histList jetCutList tree (initStore histList jetCutList) ;;
  printTotals jetCutList s ;;
  keys <- writeHists histList jetCutList s [] ;;
  keys <- writeGraphs histList jetCutList s keys ;;
  ret keys.

(** *** Reference definitions for createDiscrHist *)

(** The chain: the entries of the files, in order. *)
Definition chain (treeDirectory : string) (inputFileList : list string) : list Entry :=
  flat_map (entriesOf treeDirectory) inputFileList.

(** The entry passes the selection of the cut. *)
Definition passes (cut : nat) (e : Entry) : bool :=
  truthy (EvalInstance (cut_cuts (cutObj cut)) e).

(** The value of the entry lies in the range of the histogram. *)
Definition inRange (histDict : nat) (e : Entry) : bool :=
  Qle_bool (fst (hist_range (histObj histDict))) (getattr (hist_var (histObj histDict)) e) &&
  Qlt_bool (getattr (hist_var (histObj histDict)) e) (snd (hist_range (histObj histDict))).

(** The histogram made for a cut and a histogram dictionary, still empty. *)
Definition emptyHist (cut histDict : nat) : TH1D :=
  newTH1D (cut_name (cutObj cut) ++ "_" ++ hist_name (histObj histDict))
          (hist_title (histObj histDict)) (hist_bins (histObj histDict))
          (fst (hist_range (histObj histDict))) (snd (hist_range (histObj histDict))).

(** The bin FindBin gives for the value of the entry. *)
Definition binOf (histDict : nat) (e : Entry) : nat :=
  FindBin binQuotient (emptyHist 0 histDict) (getattr (hist_var (histObj histDict)) e).

(** FindBin puts the value of the entry in one of the regular bins above
    bin [k]: k+1, ..., fNbins. *)
Definition aboveBin (histDict k : nat) (e : Entry) : bool :=
  (k <? binOf histDict e) && (binOf histDict e <=? fNbins (emptyHist 0 histDict)).

(** The entries counted in bin [b] of the histogram of a cut. *)
Definition binEntries (tree : list Entry) (cut histDict b : nat) : list Entry :=
  filter (fun e => passes cut e && inRange histDict e && (binOf histDict e =? b)) tree.

Definition wantsGraph (histDict : nat) : bool :=
  match hist_discreff (histObj histDict) with Some true => true | _ => false end.

(** The number of occurrences of a dictionary in a list. *)
Definition occurrences (l : list nat) (a : nat) : nat := count_occ Nat.eq_dec l a.

(** The store keeps, for every histogram dictionary and every cut of the
    lists, a histogram with the name, title and axis it was made with. *)
Definition wfStore (histList jetCutList : list nat) (s : Store) : Prop :=
  (forall h n th, cutDict s h n = Some th ->
     fName th = (n ++ "_" ++ hist_name (histObj h))%string /\
     fTitle th = hist_title (histObj h) /\
     fNbins th = fNbins (emptyHist 0 h) /\
     fXmin th = fst (hist_range (histObj h)) /\
     fXmax th = snd (hist_range (histObj h)))
  /\ (forall h c, In h histList -> In c jetCutList ->
                  cutDict s h (cut_name (cutObj c)) <> None).

(** What one pass through lines 255-259 adds to a counter. *)
Definition addHist (e : Entry) (cut histDict : nat) (x : Counter) : nat :=
  match x with
  | TotalOf _ => 0
  | BinOf h n b =>
      if (h =? histDict) && String.eqb n (cut_name (cutObj cut)) &&
         inRange histDict e && (binOf histDict e =? b)
      then 1 else 0
  end.

Definition addCut (histList : list nat) (e : Entry) (cut : nat) (x : Counter) : nat :=
  if passes cut e then
    match x with TotalOf a => if a =? cut then 1 else 0 | BinOf _ _ _ => 0 end +
    list_sum (map (fun h => addHist e cut h x) histList)
  else 0.

Definition addEntry (histList jetCutList : list nat) (e : Entry) (x : Counter) : nat :=
  list_sum (map (fun c => addCut histList e c x) jetCutList).

(** The store after the pass over the entries of [tree]. *)
Definition filledStore (histList jetCutList : list nat) (tree : list Entry)
           (s : Store) : Prop :=
  wfStore histList jetCutList s /\
  forall x, counter s x =
            list_sum (map (fun e => addEntry histList jetCutList e x) tree).

(** The histogram of a cut and a histogram dictionary in the store. *)
Definition histOf (s : Store) (cut histDict : nat) : TH1D :=
  match cutDict s histDict (cut_name (cutObj cut)) with
  | Some h => h
  | None => emptyHist cut histDict
  end.

Definition histKey (s : Store) (cut histDict : nat) : TKey :=
  mkKey (cut_name (cutObj cut)) (hist_name (histObj histDict)) (Hist (histOf s cut histDict)).

Definition graphKey (s : Store) (cut histDict : nat) : TKey :=
  mkKey (cut_name (cutObj cut)) (hist_name (histObj histDict) ++ "_graph")
        (Graph (effCurve (asTH1 (histOf s cut histDict)) (N.of_nat (total s cut)))).

(** The objects of the output file: the histograms, then the curves. *)
Definition histKeys (histList jetCutList : list nat) (s : Store) : list TKey :=
  flat_map (fun c => map (histKey s c) histList) jetCutList.

Definition graphKeys (histList jetCutList : list nat) (s : Store) : list TKey :=
  flat_map (fun c => map (graphKey s c) (filter wantsGraph histList)) jetCutList.

(** A curve is asked for a category without entries. *)
Definition emptyCategoryWithGraph (histList jetCutList : list nat) (tree : list Entry)
  : bool :=
  existsb wantsGraph histList &&
  existsb (fun c => forallb (fun e => negb (passes c e)) tree) jetCutList.

End DiscrHist.

(** An example: entries are numbers, two categories, one histogram. *)
Definition exCutObj (cut : nat) : JetCut :=
  match cut with
  | 0 => mkJetCut "all" "1"
  | 1 => mkJetCut "none" "0"
  | _ => mkJetCut "high" "x>5"
  end.

Definition exHistObj (histDict : nat) : HistDict :=
  mkHistDict "x" "x" 4 (0, 8)%Q "x" (match histDict with 0 => Some true | _ => None end).

Definition exEval (cuts : string) (e : Q) : Q :=
  if String.eqb cuts "1" then 1%Q
  else if String.eqb cuts "0" then 0%Q
  else if Qlt_bool 5 e then 1%Q else 0%Q.

Definition exEntriesOf (treeDirectory file : string) : list Q :=
  if String.eqb file "in.root" then [1; 3; 7; 9]%Q else [].

Definition exIsfile (file : string) : bool := String.eqb file "in.root".

Definition exDiscrHist (histList jetCutList : list nat) : (exn + list TKey) * World :=
  createDiscrHist exEval (fun _ e => e) exactQuotient exIsfile exEntriesOf
                  exCutObj exHistObj
                  ["in.root"]%string "jets"%string "out.root"%string histList jetCutList world0.

Definition keysOf (r : (exn + list TKey) * World) : list TKey :=
  match fst r with
  | inr keys => keys
  | inl _ => []
  end.

(** * createROCfromEffVsCutCurves *)

(** TFile::Get gives a null TObject for a name the file does not hold;
    the method GetN is then looked up on a plain TObject, which has none
    (lines 337 and 339). *)
Definition AttributeError : exn :=
  Exception [Str "AttributeError: 'TObject' object has no attribute 'GetN'"].

Section ROCFile.

(** inputFile.Get(path): the TGraph the input file holds under a path *)
Variable Get : string -> option TGraph.
(** The order in which a dict yields its keys, given the order in which
    they were inserted. *)
Variable items : list string -> list string.

(** Lines 324-325 *)
Definition rocBody (sigCat bkg discri : string) (keys : list TKey) : M (list TKey) :=
  match Get (sigCat ++ "/" ++ discri ++ "_graph"),
        Get (bkg ++ "/" ++ discri ++ "_graph") with
  | Some sigGraph, Some bkgGraph =>
      myROC <- drawROCfromEffVsCutCurves sigGraph bkgGraph ;;
      ret (keys ++ [mkKey (sigCat ++ "_vs_" ++ bkg) discri (Graph myROC)])
  | _, _ => raise AttributeError
  end.

(** The value returned stands for the objects of the output file, in the
    order they were written, when [outputFile.Close()] is reached. *)
Definition createROCfromEffVsCutCurves (inFile outFile sigCat : string)
           (bkgCats discriminants : list string) : M (list TKey) :=
  for_ (items bkgCats)
       (fun bkg keys => for_ discriminants (rocBody sigCat bkg) keys) [].

(** *** Reference definitions *)

(** Both curves of a pair are in the file, with the same number of points. *)
Definition rocOK (sigCat bkg discri : string) : bool :=
  match Get (sigCat ++ "/" ++ discri ++ "_graph"),
        Get (bkg ++ "/" ++ discri ++ "_graph") with
  | Some sigGraph, Some bkgGraph => GetN sigGraph =? GetN bkgGraph
  | _, _ => false
  end.

Definition effOf (cat discri : string) : list Q :=
  match Get (cat ++ "/" ++ discri ++ "_graph") with
  | Some g => map snd g
  | None => []
  end.

Definition rocKey (sigCat bkg discri : string) : TKey :=
  mkKey (sigCat ++ "_vs_" ++ bkg) discri
        (Graph (combine (effOf sigCat discri) (effOf bkg discri))).

(** The pairs of a background category and a discriminant, in the order in
    which the two loops come to them. *)
Definition rocPairs (bkgCats discriminants : list string) : list (string * string) :=
  flat_map (fun bkg => map (pair bkg) discriminants) (items bkgCats).

(** The first pair for which a curve is missing or the point counts differ. *)
Definition firstBadPair (sigCat : string) (bkgCats discriminants : list string)
  : option (string * string) :=
  find (fun p => negb (rocOK sigCat (fst p) (snd p))) (rocPairs bkgCats discriminants).

(** How the function ends at such a pair: AttributeError when a curve is
    missing, else the three lines and exit status 1. *)
Definition rocFailure (sigCat bkg discri : string) (w : World)
  : (exn + list TKey) * World :=
  match Get (sigCat ++ "/" ++ discri ++ "_graph"),
        Get (bkg ++ "/" ++ discri ++ "_graph") with
  | Some sigGraph, Some bkgGraph =>
      (inl (SystemExit 1),
       mkWorld (slots w) (calls w)
               (stdout w ++
                [[Str "Background and signal curves must have the same number of entries!"];
                 [Str "Entries signal:     "; Int (Z.of_nat (GetN sigGraph))];
                 [Str "Entries background: "; Int (Z.of_nat (GetN bkgGraph))]]))
  | _, _ => (inl AttributeError, w)
  end.

End ROCFile.

(** An input file with the curves of two categories. *)
Definition exGet (path : string) : option TGraph :=
  if String.eqb path "b/x_graph" then Some example_sig
  else if String.eqb path "light/x_graph" then Some example_bkg
  else if String.eqb path "c/x_graph" then Some [(0, 1)]%Q
  else None.

Definition exItems (l : list string) : list string := nodup string_dec l.

(** * The calls of the pass of createJetTreeTC *)

(** The tracks of a jet, in the order of the loop. *)
Definition tracksOf (jet : Event * nat) : list nat :=
  xrange (Jet_nFirstTrack (fst jet) (snd jet)) (Jet_nLastTrack (fst jet) (snd jet)).

(** The pass over the example entry with a cut and a classifier. *)
Definition exLoopSel : (exn + LoopState) * World :=
  eventLoop exFormula exMVA (fun x => x)
            (cutSelOf (Some "Track_IPsig>2"%string)) (mvaSelOf (Some exMVAdict))
            (nCutsOf (Some exMVAdict)) [event4] world0.

(** * The report of createJetTreeTC *)

(** The lines printed for threshold [i] when no total is zero (lines 207-215). *)
Definition reportLines (trackMVA : option MVA) (c : Counters) (i : nat) : list line :=
  [match trackMVA with
   | Some m => [Str "MVA cut value "; Flt (nth i (mva_cuts m) 0%Q); Str ":"]
   | None => [Str "Non-MVA cuts:"]
   end;
   [Str "B track efficiency:  "; Int (Z.of_nat (nth i (nSelTracksB c) 0)); Str "/";
    Int (Z.of_nat (nTotTracksB c)); Str " = ";
    Flt (Qnat (100 * nth i (nSelTracksB c) 0) / Qnat (nTotTracksB c)); Str "%."];
   [Str "C track efficiency:  "; Int (Z.of_nat (nth i (nSelTracksC c) 0)); Str "/";
    Int (Z.of_nat (nTotTracksC c)); Str " = ";
    Flt (Qnat (100 * nth i (nSelTracksC c) 0) / Qnat (nTotTracksC c)); Str "%."];
   [Str "Light track efficiency:  "; Int (Z.of_nat (nth i (nSelTracksLight c) 0)); Str "/";
    Int (Z.of_nat (nTotTracksB c)); Str " = ";
    Flt (Qnat (100 * nth i (nSelTracksLight c) 0) / Qnat (nTotTracksLight c)); Str "%."];
   [Str "PU track efficiency: "; Int (Z.of_nat (nth i (nSelTracksPU c) 0)); Str "/";
    Int (Z.of_nat (nTotTracksPU c)); Str " = ";
    Flt (Qnat (100 * nth i (nSelTracksPU c) 0) / Qnat (nTotTracksPU c)); Str "%.";
    Str ""]].

(** The position, in the order of the report (B, C, light, PU), of the
    first category that ended the pass without a track. *)
Definition firstZeroCategory (c : Counters) : nat :=
  if nTotTracksB c =? 0 then 0
  else if nTotTracksC c =? 0 then 1
  else if nTotTracksLight c =? 0 then 2
  else 3.

(** Counters of a pass with two thresholds in which the B and the light
    totals differ. *)
Definition exCounters : Counters := mkCounters [3; 1] 4 [2; 0] 10 [1; 1] 2 [0; 0] 5.


(** * Proofs *)

Unset Implicit Arguments.

(** ** The monad and its loops *)

Lemma bind_ok A B (m : M A) (k : A -> M B) w a w' :
  m w = (inr a, w') -> bind m k w = k a w'.
Proof. intros H. unfold bind. rewrite H. reflexivity. Qed.

Lemma bind_raises A B (m : M A) (k : A -> M B) w e w' :
  m w = (inl e, w') -> bind m k w = (inl e, w').
Proof. intros H. unfold bind. rewrite H. reflexivity. Qed.

Lemma bind_inv A B (m : M A) (k : A -> M B) w b w' :
  bind m k w = (inr b, w') ->
  exists a w1, m w = (inr a, w1) /\ k a w1 = (inr b, w').
Proof.
  unfold bind. destruct (m w) as [[e | a] w1]; intros H.
  - discriminate.
  - exists a, w1. split; [reflexivity | exact H].
Qed.

Lemma for_app A S (l1 l2 : list A) (body : A -> S -> M S) s w :
  for_ (l1 ++ l2) body s w =
  match for_ l1 body s w with
  | (inr s', w') => for_ l2 body s' w'
  | (inl e, w') => (inl e, w')
  end.
Proof.
  revert s w. induction l1 as [| a l1 IH]; intros s w; simpl.
  - reflexivity.
  - unfold bind. destruct (body a s w) as [[e | s1] w1].
    + reflexivity.
    + apply IH.
Qed.

(** ** Lists *)

Lemma firstn_snoc_nth A (d : A) (l : list A) k :
  k < length l -> firstn (S k) l = firstn k l ++ [nth k l d].
Proof.
  revert k. induction l as [| a l IH]; intros k Hk; simpl in Hk.
  - lia.
  - destruct k as [| k].
    + reflexivity.
    + change (firstn (S (S k)) (a :: l)) with (a :: firstn (S k) l).
      rewrite (IH k) by lia. reflexivity.
Qed.

(** ** drawROCfromEffVsCutCurves *)

Lemma rocLoop_prefix (sigGraph bkgGraph : TGraph) k :
  k <= length sigGraph -> k <= length bkgGraph ->
  fold_left (rocLoopBody sigGraph bkgGraph) (range k) ([], []) =
  (map snd (firstn k sigGraph), map snd (firstn k bkgGraph)).
Proof.
  unfold range. induction k as [| k IH]; intros Hs Hb.
  - reflexivity.
  - rewrite seq_S, fold_left_app, IH by lia.
    rewrite (firstn_snoc_nth _ (0%Q, 0%Q) sigGraph) by lia.
    rewrite (firstn_snoc_nth _ (0%Q, 0%Q) bkgGraph) by lia.
    cbn [fold_left Nat.add]. unfold rocLoopBody, GetPoint.
    destruct (nth k sigGraph (0%Q, 0%Q)) as [sx sy].
    destruct (nth k bkgGraph (0%Q, 0%Q)) as [bx by_].
    rewrite !map_app. reflexivity.
Qed.

Lemma drawROC_equal_counts (sigGraph bkgGraph : TGraph) w :
  GetN sigGraph = GetN bkgGraph ->
  drawROCfromEffVsCutCurves sigGraph bkgGraph w =
  (inr (combine (map snd sigGraph) (map snd bkgGraph)), w).
Proof.
  unfold GetN. intros HN. unfold drawROCfromEffVsCutCurves, GetN.
  rewrite <- HN, Nat.eqb_refl. simpl.
  unfold bind, ret. simpl.
  rewrite rocLoop_prefix by lia.
  rewrite firstn_all. rewrite HN at 2. rewrite firstn_all.
  unfold newTGraph. rewrite firstn_all2; [reflexivity |].
  rewrite length_combine, !length_map. lia.
Qed.

Lemma drawROC_unequal_counts (sigGraph bkgGraph : TGraph) w :
  GetN sigGraph <> GetN bkgGraph ->
  drawROCfromEffVsCutCurves sigGraph bkgGraph w =
  (inl (SystemExit 1),
   mkWorld (slots w) (calls w)
     (stdout w ++
      [[Str "Background and signal curves must have the same number of entries!"];
       [Str "Entries signal:     "; Int (Z.of_nat (GetN sigGraph))];
       [Str "Entries background: "; Int (Z.of_nat (GetN bkgGraph))]])).
Proof.
  intros HN. unfold drawROCfromEffVsCutCurves.
  apply Nat.eqb_neq in HN. rewrite HN. simpl.
  unfold bind, print, raise. simpl.
  rewrite <- !app_assoc. reflexivity.
Qed.

Lemma nth_combine_map_snd (g1 g2 : TGraph) i :
  i < length g1 -> i < length g2 ->
  nth i (combine (map snd g1) (map snd g2)) (0%Q, 0%Q) =
  (snd (nth i g1 (0%Q, 0%Q)), snd (nth i g2 (0%Q, 0%Q))).
Proof.
  revert g2 i. induction g1 as [| p g1 IH]; intros g2 i H1 H2; simpl in H1.
  - lia.
  - destruct g2 as [| q g2]; simpl in H2; [lia |].
    destruct i as [| i]; simpl.
    + reflexivity.
    + apply IH; lia.
Qed.

(** ** drawEffVsCutCurve *)

Lemma effLoop_fold (h : TH1) bins d e x :
  fold_left (effLoopBody h) bins (d, e, x) =
  (d ++ map (GetBinLowEdge h) bins, e ++ running h x bins, residual h x bins).
Proof.
  revert d e x. induction bins as [| i bins IH]; intros d e x; simpl.
  - rewrite !app_nil_r. reflexivity.
  - rewrite IH. rewrite <- !app_assoc. reflexivity.
Qed.

Lemma running_length (h : TH1) bins x : length (running h x bins) = length bins.
Proof.
  revert x. induction bins as [| i bins IH]; intros x; simpl; [| rewrite IH]; reflexivity.
Qed.

Lemma running_nth (h : TH1) bins x k :
  k < length bins ->
  nth k (running h x bins) 0%Q =
  (nth k (x :: running h x bins) 0%Q - GetBinContent h (nth k bins 0%nat - 1))%Q.
Proof.
  revert x k. induction bins as [| i bins IH]; intros x k Hk; simpl in Hk.
  - lia.
  - destruct k as [| k].
    + reflexivity.
    + cbn [running]. cbn [nth]. rewrite IH by lia. reflexivity.
Qed.

Lemma normalise_ok (d : Q) (effV acc : list Q) w :
  Qeq_bool d 0 = false ->
  for_ effV (fun x acc => y <- pydiv x d ;; ret (acc ++ [y])) acc w =
  (inr (acc ++ map (fun x => (x / d)%Q) effV), w).
Proof.
  intros Hd. revert acc. induction effV as [| x effV IH]; intros acc; simpl.
  - rewrite app_nil_r. reflexivity.
  - rewrite (bind_ok _ _ _ _ w (acc ++ [(x / d)%Q]) w).
    + rewrite IH, <- app_assoc. reflexivity.
    + unfold bind, pydiv. rewrite Hd. reflexivity.
Qed.

Lemma normalise_zero (d : Q) (x : Q) (effV acc : list Q) w :
  Qeq_bool d 0 = true ->
  for_ (x :: effV) (fun x acc => y <- pydiv x d ;; ret (acc ++ [y])) acc w =
  (inl ZeroDivisionError, w).
Proof.
  intros Hd. simpl. unfold bind, pydiv. rewrite Hd. reflexivity.
Qed.

(** What the function returns, in closed form. *)
Lemma drawEff_result (h : TH1) (total : N) w :
  fst (drawEffVsCutCurve h total w) =
  if Qeq_bool (normalisation h total) 0 then inl ZeroDivisionError
  else inr (combine
              (map (GetBinLowEdge h) (1 :: xrange 2 (GetNbinsX h)))
              (map (fun x => (x / normalisation h total)%Q)
                   (Integral h :: running h (Integral h) (xrange 2 (GetNbinsX h))))).
Proof.
  unfold drawEffVsCutCurve, normalisation.
  rewrite effLoop_fold. cbn [app].
  set (bins := xrange 2 (GetNbinsX h)).
  set (d0 := residual h (Integral h) bins).
  assert (Hlen : length (GetBinLowEdge h 1 :: map (GetBinLowEdge h) bins) =
                 length (combine (map (GetBinLowEdge h) (1 :: bins))
                                 (map (fun x => (x / d0)%Q)
                                      (Integral h :: running h (Integral h) bins)))
                 /\ forall d, length (GetBinLowEdge h 1 :: map (GetBinLowEdge h) bins) =
                 length (combine (map (GetBinLowEdge h) (1 :: bins))
                                 (map (fun x => (x / d)%Q)
                                      (Integral h :: running h (Integral h) bins)))).
  { split; intros; rewrite length_combine; cbn [map length];
      rewrite !length_map, running_length; lia. }
  destruct Hlen as [_ Hlen].
  destruct (N.eqb total 0) eqn:Ht; cbn [negb].
  - unfold bind at 1. unfold ret at 1. cbn beta iota.
    destruct (Qeq_bool d0 0) eqn:Hd.
    + erewrite bind_raises by (apply normalise_zero; exact Hd). reflexivity.
    + erewrite bind_ok by (apply normalise_ok; exact Hd). cbn [app fst ret].
      unfold ret. cbn [fst]. unfold newTGraph. f_equal.
      rewrite (Hlen d0). apply firstn_all.
  - set (t := inject_Z (Z.of_N total)).
    assert (Hw : exists w1,
      (((if Qlt_bool t d0 then
          print [Str "Warning in createEffVsCutCurve: total number specified to be *smaller* than the histograms's integral. Something might be wrong."]
         else ret tt);; ret t) w) = (inr t, w1)).
    { destruct (Qlt_bool t d0); eexists; reflexivity. }
    destruct Hw as [w1 Hw].
    rewrite (bind_ok _ _ _ _ _ _ _ Hw).
    destruct (Qeq_bool t 0) eqn:Hd.
    + erewrite bind_raises by (apply normalise_zero; exact Hd). reflexivity.
    + erewrite bind_ok by (apply normalise_ok; exact Hd). cbn [app fst ret].
      unfold ret. cbn [fst]. unfold newTGraph. f_equal.
      rewrite (Hlen t). apply firstn_all.
Qed.

Lemma Qsum_app (l1 l2 : list Q) : (Qsum (l1 ++ l2) == Qsum l1 + Qsum l2)%Q.
Proof.
  induction l1 as [| x l1 IH]; simpl.
  - lra.
  - rewrite IH. lra.
Qed.

Lemma Qsum_nonneg (l : list Q) : Forall (fun x => (0 <= x)%Q) l -> (0 <= Qsum l)%Q.
Proof.
  induction 1 as [| x l Hx _ IH]; simpl.
  - lra.
  - lra.
Qed.

Lemma residual_sum (h : TH1) bins x :
  (residual h x bins == x - Qsum (map (fun i => GetBinContent h (i - 1)) bins))%Q.
Proof.
  unfold residual. revert x. induction bins as [| i bins IH]; intros x; simpl.
  - lra.
  - rewrite IH. lra.
Qed.

Lemma xrange2_contents (h : TH1) n :
  map (fun i => GetBinContent h (i - 1)) (seq 2 n) = map (GetBinContent h) (seq 1 n).
Proof.
  rewrite <- (seq_shift n 1), map_map. apply map_ext.
  intros j. simpl. rewrite Nat.sub_0_r. reflexivity.
Qed.

Lemma contents_nonneg (h : TH1) a n :
  (forall i, 1 <= i <= GetNbinsX h -> (0 <= GetBinContent h i)%Q) ->
  1 <= a -> a + n <= S (GetNbinsX h) ->
  Forall (fun x => (0 <= x)%Q) (map (GetBinContent h) (seq a n)).
Proof.
  intros Hc Ha Hn. apply Forall_forall. intros x Hx.
  apply in_map_iff in Hx. destruct Hx as [i [<- Hi]].
  apply in_seq in Hi. apply Hc. lia.
Qed.

Lemma normalisation_nonneg (h : TH1) (total : N) :
  (forall i, 1 <= i <= GetNbinsX h -> (0 <= GetBinContent h i)%Q) ->
  (0 <= normalisation h total)%Q.
Proof.
  intros Hc. unfold normalisation. destruct (N.eqb total 0).
  - rewrite residual_sum. unfold xrange. rewrite xrange2_contents.
    unfold Integral.
    set (B := GetNbinsX h).
    replace (seq 1 B) with (seq 1 (B - 2) ++ seq (1 + (B - 2)) (B - (B - 2))).
    2:{ rewrite <- seq_app. f_equal. lia. }
    rewrite map_app, Qsum_app.
    assert (H2 : (0 <= Qsum (map (GetBinContent h) (seq (1 + (B - 2)) (B - (B - 2)))))%Q).
    { apply Qsum_nonneg, contents_nonneg; [exact Hc | lia | fold B; lia]. }
    lra.
  - change 0%Q with (inject_Z 0). rewrite <- Zle_Qle. lia.
Qed.

Lemma snd_point_combine (xs es : list Q) (d : Q) j :
  length xs = length es -> j < length es ->
  snd (GetPoint (combine xs (map (fun x => (x / d)%Q) es)) j) = (nth j es 0%Q / d)%Q.
Proof.
  unfold GetPoint. revert es j. induction xs as [| x xs IH]; intros es j Hl Hj.
  - destruct es; simpl in *; [lia | discriminate].
  - destruct es as [| e es]; simpl in *; [lia |].
    destruct j as [| j]; [reflexivity |].
    apply IH; lia.
Qed.

Lemma map_fst_combine_same (xs ys : list Q) :
  length xs = length ys -> map fst (combine xs ys) = xs.
Proof.
  revert ys. induction xs as [| x xs IH]; intros ys Hl; [reflexivity |].
  destruct ys as [| y ys]; simpl in *; [discriminate |].
  rewrite IH by lia. reflexivity.
Qed.

Lemma drawEff_inr (h : TH1) (total : N) w g w' :
  drawEffVsCutCurve h total w = (inr g, w') ->
  Qeq_bool (normalisation h total) 0 = false /\
  g = combine
        (map (GetBinLowEdge h) (1 :: xrange 2 (GetNbinsX h)))
        (map (fun x => (x / normalisation h total)%Q)
             (Integral h :: running h (Integral h) (xrange 2 (GetNbinsX h)))).
Proof.
  intros H. pose proof (drawEff_result h total w) as R.
  rewrite H in R. cbn [fst] in R.
  destruct (Qeq_bool (normalisation h total) 0).
  - discriminate.
  - split; [reflexivity | congruence].
Qed.

(** The function returns a curve unless the divisor is zero. *)
Lemma drawEff_returns (h : TH1) (total : N) w :
  ~ (normalisation h total == 0)%Q ->
  exists g, fst (drawEffVsCutCurve h total w) = inr g.
Proof.
  intros Hd. rewrite drawEff_result.
  destruct (Qeq_bool (normalisation h total) 0) eqn:E.
  - apply Qeq_bool_iff in E. contradiction.
  - eexists. reflexivity.
Qed.

(** When a non-zero total is supplied, it is the divisor. *)
Lemma normalisation_total (h : TH1) (total : N) :
  total <> 0%N -> normalisation h total = inject_Z (Z.of_N total).
Proof.
  intros Ht. unfold normalisation.
  destruct (N.eqb_spec total 0); [contradiction | reflexivity].
Qed.

(** ** Claims about the curves *)

(** C2 (as stated).  For the example curves the builder does not return
    [(0.8,0.9), (0.3,0.5), (0.05,0.1)]: the x-coordinates it returns are the
    signal efficiencies. *)
Lemma C2_example_not_background_first :
  ~ exists roc,
      fst (drawROCfromEffVsCutCurves example_sig example_bkg world0) = inr roc /\
      same_curve roc [(8 # 10, 9 # 10); (3 # 10, 5 # 10); (5 # 100, 1 # 10)]%Q.
Proof.
  intros [roc [Hroc Hsame]].
  rewrite drawROC_equal_counts in Hroc by reflexivity.
  cbn in Hroc. injection Hroc as <-.
  inversion Hsame as [| p q l l' [Hx _] _]; subst.
  cbn in Hx. unfold Qeq in Hx. cbn in Hx. discriminate.
Qed.

(** C2 (amended).  For two curves with the same number N of points the ROC
    builder returns an N-point curve whose i-th point has the signal curve's
    i-th efficiency as x-coordinate and the background curve's i-th
    efficiency as y-coordinate; for the example curves the result is
    [(0.9,0.8), (0.5,0.3), (0.1,0.05)]. *)
Theorem C2_roc_points_signal_first (sigGraph bkgGraph : TGraph) (w : World) :
  (GetN sigGraph = GetN bkgGraph ->
   exists roc,
     drawROCfromEffVsCutCurves sigGraph bkgGraph w = (inr roc, w) /\
     GetN roc = GetN sigGraph /\
     forall i, i < GetN sigGraph ->
       GetPoint roc i = (snd (GetPoint sigGraph i), snd (GetPoint bkgGraph i)))
  /\ fst (drawROCfromEffVsCutCurves example_sig example_bkg w) =
     inr [(9 # 10, 8 # 10); (5 # 10, 3 # 10); (1 # 10, 5 # 100)]%Q.
Proof.
  split.
  - intros HN. eexists. split; [apply drawROC_equal_counts; exact HN |].
    unfold GetN in *. split.
    + rewrite length_combine, !length_map. lia.
    + intros i Hi. unfold GetPoint. apply nth_combine_map_snd; lia.
  - rewrite drawROC_equal_counts by reflexivity. reflexivity.
Qed.

Lemma C2_roc_points_witness :
  exists roc,
    drawROCfromEffVsCutCurves example_sig example_bkg world0 = (inr roc, world0) /\
    GetN roc = GetN example_sig /\
    forall i, i < GetN example_sig ->
      GetPoint roc i = (snd (GetPoint example_sig i), snd (GetPoint example_bkg i)).
Proof.
  apply (proj1 (C2_roc_points_signal_first example_sig example_bkg world0)).
  reflexivity.
Defined.

(** C9.  When the two curves differ in their number of points the ROC
    builder prints the mismatch with both counts and exits (status 1)
    without returning a curve; when the counts are equal it returns a
    curve. *)
Theorem C9_count_mismatch_aborts (sigGraph bkgGraph : TGraph) (w : World) :
  (GetN sigGraph <> GetN bkgGraph ->
   fst (drawROCfromEffVsCutCurves sigGraph bkgGraph w) = inl (SystemExit 1) /\
   stdout (snd (drawROCfromEffVsCutCurves sigGraph bkgGraph w)) =
   stdout w ++
     [[Str "Background and signal curves must have the same number of entries!"];
      [Str "Entries signal:     "; Int (Z.of_nat (GetN sigGraph))];
      [Str "Entries background: "; Int (Z.of_nat (GetN bkgGraph))]])
  /\ (GetN sigGraph = GetN bkgGraph ->
      exists roc, fst (drawROCfromEffVsCutCurves sigGraph bkgGraph w) = inr roc).
Proof.
  split.
  - intros HN. rewrite drawROC_unequal_counts by exact HN. split; reflexivity.
  - intros HN. rewrite drawROC_equal_counts by exact HN. eexists. reflexivity.
Qed.

Lemma C9_count_mismatch_witness :
  fst (drawROCfromEffVsCutCurves example_sig (example_bkg ++ [(3, 0)]%Q) world0) =
    inl (SystemExit 1) /\
  stdout (snd (drawROCfromEffVsCutCurves example_sig (example_bkg ++ [(3, 0)]%Q) world0)) =
    [[Str "Background and signal curves must have the same number of entries!"];
     [Str "Entries signal:     "; Int 3];
     [Str "Entries background: "; Int 4]].
Proof.
  apply (proj1 (C9_count_mismatch_aborts example_sig (example_bkg ++ [(3, 0)]%Q) world0)).
  cbn. lia.
Defined.

(** C3.  Three bins holding one entry each, no total supplied: the values
    are divided by what is left of [integral] after the loop (2), not by the
    full integral (3), and the first efficiency is 3/2. *)
Theorem C3_first_efficiency_is_not_one :
  (Integral hist3 == 3)%Q /\
  (normalisation hist3 0 == 2)%Q /\
  exists g,
    fst (drawEffVsCutCurve hist3 0 world0) = inr g /\
    (snd (GetPoint g 0) == 3 # 2)%Q /\
    ~ (snd (GetPoint g 0) == 1)%Q.
Proof.
  split; [reflexivity |]. split; [reflexivity |].
  eexists. split; [reflexivity |]. split.
  - reflexivity.
  - cbn. unfold Qeq. cbn. discriminate.
Qed.

(** C7 (as stated).  A histogram of one bin gives a curve of one point, not
    of zero points. *)
Lemma C7_single_bin_has_one_point :
  exists g,
    fst (drawEffVsCutCurve hist1 0 world0) = inr g /\
    GetN g = 1 /\ GetN g <> GetNbinsX hist1 - 1.
Proof.
  eexists. split; [reflexivity |]. split; [reflexivity |]. cbn. lia.
Qed.

(** C7 (amended).  Whenever drawEffVsCutCurve returns a curve for a
    histogram of B bins: if B >= 2 the curve has B - 1 points and its cut
    values are the lower edges of bins 1 to B - 1, the final bin being
    omitted; if B <= 1 the curve has the single point of bin 1. *)
Theorem C7_curve_point_count (h : TH1) (total : N) (w w' : World) (g : TGraph) :
  drawEffVsCutCurve h total w = (inr g, w') ->
  (2 <= GetNbinsX h ->
   GetN g = GetNbinsX h - 1 /\
   map fst g = map (GetBinLowEdge h) (seq 1 (GetNbinsX h - 1)))
  /\ (GetNbinsX h <= 1 ->
      GetN g = 1 /\ map fst g = [GetBinLowEdge h 1]).
Proof.
  intros H. apply drawEff_inr in H. destruct H as [_ ->].
  set (B := GetNbinsX h).
  assert (Hfst : map fst
            (combine (map (GetBinLowEdge h) (1 :: xrange 2 B))
               (map (fun x => (x / normalisation h total)%Q)
                  (Integral h :: running h (Integral h) (xrange 2 B)))) =
          map (GetBinLowEdge h) (1 :: xrange 2 B)).
  { apply map_fst_combine_same. cbn [map length].
    rewrite !length_map, running_length. reflexivity. }
  assert (Hlen : GetN
            (combine (map (GetBinLowEdge h) (1 :: xrange 2 B))
               (map (fun x => (x / normalisation h total)%Q)
                  (Integral h :: running h (Integral h) (xrange 2 B)))) =
          S (B - 2)).
  { unfold GetN. rewrite <- (length_map fst), Hfst. cbn [map length].
    rewrite length_map. unfold xrange. rewrite length_seq. reflexivity. }
  rewrite Hlen, Hfst. split; intros HB.
  - split; [lia |].
    unfold xrange. replace (B - 1) with (S (B - 2)) by lia. reflexivity.
  - split; [lia |].
    unfold xrange. replace (B - 2) with 0 by lia. reflexivity.
Qed.

Lemma C7_curve_point_count_witness :
  GetN [(1, 3 # 2); (2, 2 # 2)]%Q = GetNbinsX hist3 - 1 /\
  map fst [(1, 3 # 2); (2, 2 # 2)]%Q =
  map (GetBinLowEdge hist3) (seq 1 (GetNbinsX hist3 - 1)).
Proof.
  apply (proj1 (C7_curve_point_count hist3 0 world0 world0
                  [(1, 3 # 2); (2, 2 # 2)]%Q eq_refl)).
  cbn. lia.
Defined.


(** On a histogram of counts the binary64 run and the run in rationals give
    the same curve: three bins of one entry each give 3/2 and 2/2. *)
Lemma Binary64_curve_of_counts_example :
  Binary64.drawEffVsCutCurve Binary64.histCounts 0 world0 =
    (inr Binary64.curveCounts, world0) /\
  drawEffVsCutCurve hist3 0 world0 = (inr [(1, 3 # 2); (2, 2 # 2)]%Q, world0).
Proof.
  split; vm_compute; reflexivity.
Qed.

Lemma countHistogram_nonneg (h : TH1) :
  countHistogram h ->
  forall i, 1 <= i <= GetNbinsX h -> (0 <= GetBinContent h i)%Q.
Proof.
  intros [Hc _] i Hi. destruct (Hc i Hi) as [n Hn]. rewrite Hn.
  unfold Qnat. change 0%Q with (inject_Z 0). rewrite <- Zle_Qle. lia.
Qed.



(** ** The track selectors *)

Lemma Qgt_bool_iff (x y : Q) : Qgt_bool x y = true <-> (y < x)%Q.
Proof.
  unfold Qgt_bool. rewrite negb_true_iff. split; intros H.
  - apply Qnot_le_lt. intros Hle. apply Qle_bool_iff in Hle. congruence.
  - apply not_true_is_false. intros Hle. apply Qle_bool_iff in Hle.
    apply (Qlt_not_le _ _ H). exact Hle.
Qed.

Lemma world_eta (w : World) : mkWorld (slots w) (calls w) (stdout w) = w.
Proof. destruct w. reflexivity. Qed.

Lemma any_map (A : Type) (f : A -> bool) (l : list A) : any (map f l) = existsb f l.
Proof.
  unfold any. induction l as [| a l IH]; simpl; [| rewrite IH]; reflexivity.
Qed.

Lemma existsb_const (A : Type) (b : bool) (l : list A) :
  existsb (fun _ => b) l = negb (length l =? 0) && b.
Proof.
  induction l as [| a l IH]; simpl.
  - reflexivity.
  - rewrite IH. destruct b, (length l =? 0); reflexivity.
Qed.

Lemma map_nth_range (A B : Type) (g : A -> B) (d : A) (l : list A) :
  map g l = map (fun i => g (nth i l d)) (range (length l)).
Proof.
  unfold range. induction l as [| a l IH]; simpl.
  - reflexivity.
  - rewrite <- seq_shift, map_map. f_equal. exact IH.
Qed.

Lemma combine_map_same (A B C : Type) (f : A -> B) (g : A -> C) (l : list A) :
  combine (map f l) (map g l) = map (fun a => (f a, g a)) l.
Proof.
  induction l as [| a l IH]; simpl; [| rewrite IH]; reflexivity.
Qed.

Lemma count_app (p : call -> bool) (l1 l2 : list call) :
  count p (l1 ++ l2) = count p l1 + count p l2.
Proof. unfold count. rewrite filter_app, length_app. reflexivity. Qed.

Lemma count_syncCalls (p : call -> bool) vars track :
  (forall var, p (VarGetNdata var) = false) ->
  (forall var t, p (VarEvalInstance var t) = false) ->
  count p (syncCalls vars track) = 0.
Proof.
  intros H1 H2. unfold count, syncCalls.
  induction vars as [| var vars IH]; simpl.
  - reflexivity.
  - rewrite H1, H2. exact IH.
Qed.

Section Selectors.
Variable TTreeFormula : string -> Event -> nat -> Q.
Variable EvaluateMVA : string -> string -> list Q -> Q.
Variable float32 : Q -> Q.

Lemma cut_evaluate_run (self : trackCutSelector) tree trackN w :
  trackCutSelector_evaluate TTreeFormula self tree trackN w =
  (inr (TTreeFormula (cutsel_cuts self) tree trackN),
   mkWorld (slots w) (calls w ++ [CutGetNdata; CutEvalInstance trackN]) (stdout w)).
Proof.
  unfold trackCutSelector_evaluate, bind, trace, ret. simpl.
  rewrite <- app_assoc. reflexivity.
Qed.

Lemma sync_vars_run tree trackN vars w :
  sync_vars TTreeFormula float32 tree trackN vars w =
  (inr (map (fun var => float32 (TTreeFormula var tree trackN)) vars),
   mkWorld (slots w) (calls w ++ syncCalls vars trackN) (stdout w)).
Proof.
  revert w. induction vars as [| var vars IH]; intros w.
  - simpl. unfold ret. rewrite app_nil_r, world_eta. reflexivity.
  - cbn [sync_vars]. unfold bind at 1. unfold trace at 1. cbn iota beta.
    unfold bind at 1. unfold trace at 1. cbn iota beta.
    unfold bind at 1. rewrite IH. cbn [slots calls stdout]. unfold ret.
    cbn [map syncCalls flat_map app]. rewrite <- !app_assoc. reflexivity.
Qed.

Lemma mva_evaluate_run (self : trackMVASelector) tree trackN w :
  trackMVASelector_evaluate TTreeFormula EvaluateMVA float32 self tree trackN w =
  (inr (map (fun cut => Qgt_bool (scoreOf TTreeFormula EvaluateMVA float32 self tree trackN) cut)
            (sel_cuts self)),
   mkWorld (map (fun var => float32 (TTreeFormula var tree trackN)) (sel_trackVars self))
           (calls w ++ syncCalls (sel_trackVars self) trackN
                    ++ [ReaderEvaluateMVA (sel_name self)])
           (stdout w)).
Proof.
  unfold trackMVASelector_evaluate, trackMVASelector_getValue, trackMVASelector_sync.
  unfold bind at 1. unfold bind at 1. unfold bind at 1.
  rewrite sync_vars_run. unfold setSlots at 1. cbn [slots calls stdout].
  unfold bind at 1. unfold trace at 1. cbn [slots calls stdout].
  unfold bind, getSlots, ret. cbn [slots calls stdout].
  rewrite <- app_assoc. reflexivity.
Qed.

Section Decision.
Variable myTrackCutSel : option trackCutSelector.
Variable myTrackMVASel : option trackMVASelector.
Variable nCuts : nat.
Hypothesis cuts_length :
  forall sel, myTrackMVASel = Some sel -> length (sel_cuts sel) = nCuts.

Let acc := accepted TTreeFormula EvaluateMVA float32 myTrackCutSel myTrackMVASel.
Let passed := cutPassed TTreeFormula myTrackCutSel.

Lemma keepTrackOf_run tree track w :
  exists w',
    keepTrackOf TTreeFormula EvaluateMVA float32 myTrackCutSel myTrackMVASel nCuts
                tree track w =
    (inr (if existsb (acc tree track) (range nCuts)
          then Some (map (acc tree track) (range nCuts)) else None), w')
    /\ calls w' =
       calls w ++ cutCalls myTrackCutSel track
               ++ mvaCalls TTreeFormula myTrackCutSel myTrackMVASel nCuts tree track
    /\ stdout w' = stdout w.
Proof.
  unfold keepTrackOf.
  set (cp := passed tree track).
  assert (Hcut : exists w1,
    (match myTrackCutSel with
     | Some sel =>
         cutResult <- trackCutSelector_evaluate TTreeFormula sel tree track ;;
         ret (map (fun x : bool => x && truthy cutResult)
                  (map (fun _ => true) (range nCuts)))
     | None => ret (map (fun _ => true) (range nCuts))
     end) w = (inr (map (fun _ => cp) (range nCuts)), w1)
    /\ calls w1 = calls w ++ cutCalls myTrackCutSel track
    /\ stdout w1 = stdout w).
  { unfold cp, passed, cutPassed, cutCalls. destruct myTrackCutSel as [sel |].
    - eexists. unfold bind. rewrite cut_evaluate_run. unfold ret.
      rewrite map_map. cbn [andb]. split; [reflexivity |]. split; reflexivity.
    - exists w. unfold ret. rewrite app_nil_r. repeat split. }
  destruct Hcut as [w1 [Hcut [Hc1 Ho1]]].
  rewrite (bind_ok _ _ _ _ _ _ _ Hcut).
  rewrite any_map, existsb_const. unfold range at 1. rewrite length_seq.
  assert (Hacc_false : cp = false \/ nCuts = 0 ->
                       existsb (acc tree track) (range nCuts) = false).
  { intros [Hcp | Hn].
    - unfold acc, accepted. fold passed. fold cp. rewrite Hcp.
      cbn [andb]. rewrite existsb_const. apply andb_false_r.
    - rewrite Hn. reflexivity. }
  assert (Hmva_none : cp = false \/ nCuts = 0 ->
                      mvaCalls TTreeFormula myTrackCutSel myTrackMVASel nCuts tree track = []).
  { intros H. unfold mvaCalls. fold passed. fold cp. destruct myTrackMVASel; [| reflexivity].
    destruct H as [-> | ->]; [rewrite andb_false_r |]; reflexivity. }
  destruct (Nat.eqb_spec nCuts 0) as [Hn | Hn]; cbn [negb andb].
  { exists w1. unfold ret. rewrite Hacc_false, Hmva_none by (right; exact Hn).
    rewrite app_nil_r. repeat split; assumption. }
  destruct cp eqn:Hcp; cbn [negb].
  2:{ exists w1. unfold ret. rewrite Hacc_false, Hmva_none by (left; reflexivity).
      rewrite app_nil_r. repeat split; assumption. }
  assert (Hmva : exists w2,
    (match myTrackMVASel with
     | Some sel =>
         ys <- trackMVASelector_evaluate TTreeFormula EvaluateMVA float32 sel tree track ;;
         ret (map (fun xy : bool * bool => fst xy && snd xy)
                  (combine (map (fun _ => true) (range nCuts)) ys))
     | None => ret (map (fun _ => true) (range nCuts))
     end) w1 = (inr (map (acc tree track) (range nCuts)), w2)
    /\ calls w2 = calls w1
                  ++ mvaCalls TTreeFormula myTrackCutSel myTrackMVASel nCuts tree track
    /\ stdout w2 = stdout w1).
  { unfold acc, accepted, mvaCalls. fold passed. fold cp. rewrite Hcp.
    destruct myTrackMVASel as [sel |] eqn:Hsel.
    - eexists. unfold bind. rewrite mva_evaluate_run. unfold ret.
      rewrite (map_nth_range _ _ _ 0%Q (sel_cuts sel)).
      rewrite (cuts_length sel eq_refl).
      rewrite combine_map_same, map_map. cbn [fst snd andb].
      destruct (Nat.ltb_spec 0 nCuts); [| lia]. cbn [andb calls stdout].
      split; [reflexivity |]. split; reflexivity.
    - exists w1. unfold ret. cbn [andb]. rewrite app_nil_r. repeat split. }
  destruct Hmva as [w2 [Hmva [Hc2 Ho2]]].
  rewrite (bind_ok _ _ _ _ _ _ _ Hmva).
  rewrite any_map. exists w2.
  destruct (existsb (acc tree track) (range nCuts)); cbn [negb]; unfold ret;
    (split; [reflexivity |]); rewrite Hc2, Hc1, Ho2, Ho1, <- app_assoc; split; reflexivity.
Qed.

End Decision.
End Selectors.

(** ** Loops with an invariant *)

Section ForLoop.
Variables A S G : Type.
Variable f : A -> S -> M S.
Variable Inv : S -> Prop.
Variable g : S -> G.
Variable step : A -> G -> G.
Variable ok : A -> bool.
Variable dom : A -> Prop.
Variable E : exn.

Hypothesis body_ok : forall a s w, dom a -> Inv s -> ok a = true ->
  exists s' w', f a s w = (inr s', w') /\ Inv s' /\ g s' = step a (g s).
Hypothesis body_fail : forall a s w, dom a -> Inv s -> ok a = false ->
  exists w', f a s w = (inl E, w').

Lemma for_ok (l : list A) :
  Forall dom l -> forall s w, Inv s -> forallb ok l = true ->
  exists s' w', for_ l f s w = (inr s', w') /\ Inv s' /\
                g s' = fold_left (fun x a => step a x) l (g s).
Proof.
  induction 1 as [| a l Ha _ IH]; intros s w Hs Hok.
  - exists s, w. repeat split. exact Hs.
  - cbn [forallb] in Hok. apply andb_prop in Hok. destruct Hok as [Hoka Hokl].
    destruct (body_ok a s w Ha Hs Hoka) as [s1 [w1 [Hf [Hs1 Hg1]]]].
    destruct (IH s1 w1 Hs1 Hokl) as [s2 [w2 [Hl [Hs2 Hg2]]]].
    exists s2, w2. cbn [for_ fold_left].
    rewrite (bind_ok _ _ _ _ _ _ _ Hf), <- Hg1.
    repeat split; assumption.
Qed.

Lemma for_fail (l : list A) :
  Forall dom l -> forall s w, Inv s -> forallb ok l = false ->
  exists w', for_ l f s w = (inl E, w').
Proof.
  induction 1 as [| a l Ha _ IH]; intros s w Hs Hok.
  - discriminate.
  - cbn [forallb] in Hok. cbn [for_].
    destruct (ok a) eqn:Hoka.
    + destruct (body_ok a s w Ha Hs Hoka) as [s1 [w1 [Hf [Hs1 _]]]].
      rewrite (bind_ok _ _ _ _ _ _ _ Hf). apply IH; assumption.
    + destruct (body_fail a s w Ha Hs Hoka) as [w1 Hf].
      exists w1. apply bind_raises. exact Hf.
Qed.

End ForLoop.

(** ** Python lists updated by index *)

Lemma update_length (A : Type) (f : A -> A) (l : list A) i :
  length (update l i f) = length l.
Proof.
  revert i. induction l as [| a l IH]; intros [| i]; simpl; try reflexivity.
  rewrite IH. reflexivity.
Qed.

Lemma update_middle (A : Type) (f : A -> A) (pre post : list A) (a : A) :
  update (pre ++ a :: post) (length pre) f = pre ++ f a :: post.
Proof.
  induction pre as [| b pre IH]; simpl; [| rewrite IH]; reflexivity.
Qed.

Lemma nth_middle_default (A : Type) (d : A) (pre post : list A) (a : A) :
  nth (length pre) (pre ++ a :: post) d = a.
Proof. induction pre as [| b pre IH]; simpl; [reflexivity | exact IH]. Qed.

Lemma nth_error_middle (A : Type) (pre post : list A) (a : A) :
  nth_error (pre ++ a :: post) (length pre) = Some a.
Proof. induction pre as [| b pre IH]; simpl; [reflexivity | exact IH]. Qed.

Lemma setitem_run (A : Type) (f : A -> A) (l : list A) i w :
  i < length l -> setitem l i f w = (inr (update l i f), w).
Proof.
  intros Hi. unfold setitem. destruct (Nat.ltb_spec i (length l)); [reflexivity | lia].
Qed.

Lemma getitem_run (A : Type) (d : A) (l : list A) i w :
  i < length l -> getitem l i w = (inr (nth i l d), w).
Proof.
  intros Hi. unfold getitem.
  rewrite (nth_error_nth' l d Hi). reflexivity.
Qed.

(** ** The counters *)

Lemma countTotal_wf n tree jetInd c :
  wfCounters n c -> wfCounters n (countTotal tree jetInd c).
Proof.
  unfold wfCounters, countTotal. intros H.
  destruct (Qle_bool 8 (Jet_genpt tree jetInd)), (isB tree jetInd),
    (isC tree jetInd), (isLight tree jetInd); exact H.
Qed.

Lemma countSelected_run n tree jetInd i c w :
  wfCounters n c -> i < n ->
  exists c', countSelected tree jetInd i c w = (inr c', w) /\ wfCounters n c' /\
    nTotTracksB c' = nTotTracksB c /\ nTotTracksC c' = nTotTracksC c /\
    nTotTracksLight c' = nTotTracksLight c /\ nTotTracksPU c' = nTotTracksPU c.
Proof.
  unfold wfCounters, countSelected. intros [HB [HL [HC HP]]] Hi.
  destruct c as [sB tB sL tL sC tC sP tP].
  cbn [nSelTracksB nSelTracksC nSelTracksLight nSelTracksPU
       nTotTracksB nTotTracksC nTotTracksLight nTotTracksPU] in *.
  destruct (Qle_bool 8 (Jet_genpt tree jetInd)).
  - destruct (isB tree jetInd), (isC tree jetInd), (isLight tree jetInd);
      unfold bind, ret;
      repeat (cbn beta iota delta [nSelTracksB nSelTracksC nSelTracksLight nSelTracksPU
                nTotTracksB nTotTracksC nTotTracksLight nTotTracksPU];
              rewrite setitem_run by (rewrite ?update_length; lia));
      cbn beta iota delta [nSelTracksB nSelTracksC nSelTracksLight nSelTracksPU
                nTotTracksB nTotTracksC nTotTracksLight nTotTracksPU];
      eexists; (split; [reflexivity |]);
      cbn [nSelTracksB nSelTracksC nSelTracksLight nSelTracksPU
           nTotTracksB nTotTracksC nTotTracksLight nTotTracksPU];
      rewrite ?update_length; repeat split; assumption.
  - unfold bind, ret. rewrite setitem_run by lia.
    eexists; (split; [reflexivity |]).
    cbn [nSelTracksB nSelTracksC nSelTracksLight nSelTracksPU
         nTotTracksB nTotTracksC nTotTracksLight nTotTracksPU].
    rewrite ?update_length; repeat split; assumption.
Qed.

(** ** The loop over the thresholds for one selected track *)

Lemma selectBody_run n tree jetInd track keep i c sel w :
  wfCounters n c -> length sel = n -> length keep = n -> i < n ->
  exists c',
    selectBody tree jetInd track keep i (c, sel) w =
    (inr (c', if nth i keep false
              then update sel i (fun l => l ++ [(track, Track_IPsig tree track)])
              else sel), w)
    /\ wfCounters n c'
    /\ nTotTracksB c' = nTotTracksB c /\ nTotTracksC c' = nTotTracksC c
    /\ nTotTracksLight c' = nTotTracksLight c /\ nTotTracksPU c' = nTotTracksPU c.
Proof.
  intros Hc Hsel Hkeep Hi. unfold selectBody.
  unfold bind at 1. rewrite (getitem_run _ false) by lia.
  destruct (nth i keep false).
  - destruct (countSelected_run n tree jetInd i c w Hc Hi) as [c' [Hrun Hc']].
    exists c'. rewrite (bind_ok _ _ _ _ _ _ _ Hrun).
    unfold bind. rewrite setitem_run by lia. unfold ret.
    split; [reflexivity | exact Hc'].
  - exists c. unfold ret. repeat split; try reflexivity; apply Hc.
Qed.

Lemma appendSel_length keep x sel :
  length keep = length sel -> length (appendSel keep x sel) = length sel.
Proof.
  intros H. unfold appendSel. rewrite length_map, length_combine. lia.
Qed.

Lemma select_fold x (post : list (list (nat * Q))) :
  forall pre kpre kpost,
    length kpre = length pre -> length kpost = length post ->
    fold_left (fun sel i => if nth i (kpre ++ kpost) false
                            then update sel i (fun l => l ++ [x]) else sel)
              (seq (length pre) (length post)) (pre ++ post) =
    pre ++ appendSel kpost x post.
Proof.
  induction post as [| l post IH]; intros pre kpre kpost Hpre Hpost.
  - destruct kpost; [reflexivity | discriminate].
  - destruct kpost as [| k kpost]; [discriminate |].
    cbn [length seq fold_left].
    replace (nth (length pre) (kpre ++ k :: kpost) false) with k
      by (rewrite <- Hpre; symmetry; apply nth_middle_default).
    replace (if k then update (pre ++ l :: post) (length pre) (fun l0 => l0 ++ [x])
             else pre ++ l :: post)
      with ((pre ++ [if k then l ++ [x] else l]) ++ post).
    2:{ rewrite <- app_assoc. destruct k; [rewrite update_middle |]; reflexivity. }
    replace (kpre ++ k :: kpost) with ((kpre ++ [k]) ++ kpost)
      by (rewrite <- app_assoc; reflexivity).
    replace (S (length pre)) with (length (pre ++ [if k then l ++ [x] else l]))
      by (rewrite length_app; simpl; lia).
    rewrite IH.
    + rewrite <- app_assoc. reflexivity.
    + rewrite !length_app. simpl. lia.
    + simpl in Hpost. lia.
Qed.

Lemma selectLoop_run n tree jetInd track keep c sel w :
  wfCounters n c -> length sel = n -> length keep = n ->
  exists c',
    for_ (range n) (selectBody tree jetInd track keep) (c, sel) w =
    (inr (c', appendSel keep (track, Track_IPsig tree track) sel), w)
    /\ wfCounters n c'
    /\ nTotTracksB c' = nTotTracksB c /\ nTotTracksC c' = nTotTracksC c
    /\ nTotTracksLight c' = nTotTracksLight c /\ nTotTracksPU c' = nTotTracksPU c.
Proof.
  intros Hc Hsel Hkeep.
  set (x := (track, Track_IPsig tree track)).
  assert (Hgen : forall m a c0 sel0,
    a + m = n -> wfCounters n c0 -> length sel0 = n ->
    exists c',
      for_ (seq a m) (selectBody tree jetInd track keep) (c0, sel0) w =
      (inr (c', fold_left (fun sel i => if nth i keep false
                                        then update sel i (fun l => l ++ [x]) else sel)
                          (seq a m) sel0), w)
      /\ wfCounters n c'
      /\ nTotTracksB c' = nTotTracksB c0 /\ nTotTracksC c' = nTotTracksC c0
      /\ nTotTracksLight c' = nTotTracksLight c0 /\ nTotTracksPU c' = nTotTracksPU c0).
  { induction m as [| m IH]; intros a c0 sel0 Ha Hc0 Hs0.
    - exists c0. repeat split; try reflexivity; apply Hc0.
    - cbn [seq for_ fold_left].
      destruct (selectBody_run n tree jetInd track keep a c0 sel0 w Hc0 Hs0 Hkeep)
        as [c1 [Hrun [Hc1 [T1 [T2 [T3 T4]]]]]]; [lia |].
      rewrite (bind_ok _ _ _ _ _ _ _ Hrun). fold x.
      destruct (IH (S a) c1 (if nth a keep false
                             then update sel0 a (fun l => l ++ [x]) else sel0))
        as [c2 [Hrun2 [Hc2 [U1 [U2 [U3 U4]]]]]].
      + lia.
      + exact Hc1.
      + destruct (nth a keep false); [rewrite update_length |]; exact Hs0.
      + exists c2. split; [exact Hrun2 |]. split; [exact Hc2 |].
        repeat split; congruence. }
  destruct (Hgen n 0 c sel (eq_refl _) Hc Hsel) as [c' [Hrun Hrest]].
  exists c'. split; [| exact Hrest].
  unfold range. rewrite Hrun. do 3 f_equal.
  pose proof (select_fold x sel [] [] keep eq_refl) as F.
  cbn [length app] in F. rewrite <- Hsel. apply F. lia.
Qed.

(** ** The loop over the tracks of a jet *)

Lemma appendSel_none (f : nat -> bool) x (l : list nat) :
  forall sel, existsb f l = false -> length sel = length l ->
              appendSel (map f l) x sel = sel.
Proof.
  unfold appendSel. induction l as [| i l IH]; intros sel Hf Hl.
  - destruct sel; [reflexivity | discriminate].
  - destruct sel as [| s sel]; [discriminate |].
    cbn [existsb] in Hf. apply orb_false_elim in Hf. destruct Hf as [Hi Hf].
    cbn [map combine fst snd]. rewrite Hi, IH; [reflexivity | exact Hf |].
    simpl in Hl. lia.
Qed.

Lemma appendSel_map (acc1 : nat -> bool) x (f0 : nat -> list (nat * Q)) (l : list nat) :
  appendSel (map acc1 l) x (map f0 l) =
  map (fun i => if acc1 i then f0 i ++ [x] else f0 i) l.
Proof.
  unfold appendSel. rewrite combine_map_same, map_map. reflexivity.
Qed.

Lemma tracks_fold (acc2 : nat -> nat -> bool) (ip : nat -> Q) (l : list nat)
      (tracks : list nat) :
  forall f0 : nat -> list (nat * Q),
    fold_left (fun sel t => appendSel (map (acc2 t) l) (t, ip t) sel) tracks (map f0 l) =
    map (fun i => f0 i ++ map (fun t => (t, ip t)) (filter (fun t => acc2 t i) tracks)) l.
Proof.
  induction tracks as [| t tracks IH]; intros f0.
  - cbn [fold_left filter map]. apply map_ext. intros i. rewrite app_nil_r. reflexivity.
  - cbn [fold_left]. rewrite appendSel_map, IH. apply map_ext. intros i.
    cbn [filter]. destruct (acc2 t i).
    + rewrite <- app_assoc. reflexivity.
    + reflexivity.
Qed.

Section TrackLoop.
Variable TTreeFormula : string -> Event -> nat -> Q.
Variable EvaluateMVA : string -> string -> list Q -> Q.
Variable float32 : Q -> Q.
Variable myTrackCutSel : option trackCutSelector.
Variable myTrackMVASel : option trackMVASelector.
Variable nCuts : nat.
Hypothesis cuts_length :
  forall sel, myTrackMVASel = Some sel -> length (sel_cuts sel) = nCuts.

Let acc := accepted TTreeFormula EvaluateMVA float32 myTrackCutSel myTrackMVASel.

Lemma trackBody_run tree jetInd track c sel w :
  wfCounters nCuts c -> length sel = nCuts ->
  exists c' w',
    trackBody TTreeFormula EvaluateMVA float32 myTrackCutSel myTrackMVASel nCuts
              tree jetInd track (c, sel) w =
    (inr (c', appendSel (map (acc tree track) (range nCuts))
                        (track, Track_IPsig tree track) sel), w')
    /\ wfCounters nCuts c'.
Proof.
  intros Hc Hsel. unfold trackBody.
  destruct (keepTrackOf_run TTreeFormula EvaluateMVA float32 myTrackCutSel
              myTrackMVASel nCuts cuts_length tree track w) as [w1 [Hk _]].
  rewrite (bind_ok _ _ _ _ _ _ _ Hk). fold acc.
  assert (Hr : length (range nCuts) = nCuts) by apply length_seq.
  destruct (existsb (acc tree track) (range nCuts)) eqn:Hex.
  - destruct (selectLoop_run nCuts tree jetInd track (map (acc tree track) (range nCuts))
                (countTotal tree jetInd c) sel w1) as [c' [Hrun [Hc' _]]].
    + apply countTotal_wf. exact Hc.
    + exact Hsel.
    + rewrite length_map. exact Hr.
    + exists c', w1. split; assumption.
  - exists (countTotal tree jetInd c), w1. unfold ret. split.
    + rewrite appendSel_none; [reflexivity | exact Hex | congruence].
    + apply countTotal_wf. exact Hc.
Qed.

Lemma trackLoop_run tree jetInd c w :
  wfCounters nCuts c ->
  exists c' w',
    for_ (xrange (Jet_nFirstTrack tree jetInd) (Jet_nLastTrack tree jetInd))
         (trackBody TTreeFormula EvaluateMVA float32 myTrackCutSel myTrackMVASel nCuts
                    tree jetInd)
         (c, map (fun _ => []) (range nCuts)) w =
    (inr (c', selTracksOf TTreeFormula EvaluateMVA float32 myTrackCutSel myTrackMVASel
                          nCuts tree jetInd), w')
    /\ wfCounters nCuts c'.
Proof.
  intros Hc.
  set (tracks := xrange (Jet_nFirstTrack tree jetInd) (Jet_nLastTrack tree jetInd)).
  destruct (for_ok nat (Counters * SelTracks) SelTracks
              (trackBody TTreeFormula EvaluateMVA float32 myTrackCutSel myTrackMVASel
                         nCuts tree jetInd)
              (fun s => wfCounters nCuts (fst s) /\ length (snd s) = nCuts)
              snd
              (fun t sel => appendSel (map (acc tree t) (range nCuts))
                                      (t, Track_IPsig tree t) sel)
              (fun _ => true) (fun _ => True)) with
    (l := tracks) (s := (c, map (fun _ : nat => @nil (nat * Q)) (range nCuts))) (w := w)
    as [[c' sel'] [w' [Hrun [[Hc' _] Hg]]]].
  - intros t [c0 sel0] w0 _ [Hc0 Hs0] _. cbn [fst snd] in *.
    destruct (trackBody_run tree jetInd t c0 sel0 w0 Hc0 Hs0) as [c1 [w1 [Hrun Hc1]]].
    eexists. exists w1. split; [exact Hrun |]. cbn [fst snd]. split; [| reflexivity].
    split; [exact Hc1 |]. rewrite appendSel_length; [exact Hs0 |].
    rewrite length_map. unfold range. rewrite length_seq. congruence.
  - apply Forall_forall. intros; exact I.
  - cbn [fst snd]. split; [exact Hc |]. rewrite length_map. apply length_seq.
  - clear. induction tracks; [reflexivity | assumption].
  - exists c', w'. split; [| exact Hc']. rewrite Hrun. do 3 f_equal.
    cbn [snd] in Hg. rewrite Hg.
    rewrite (tracks_fold (acc tree) (Track_IPsig tree)).
    unfold selTracksOf, selected. apply map_ext. intros i. reflexivity.
Qed.

End TrackLoop.

(** ** The loop over the thresholds of a jet *)

Lemma filter_all (A : Type) (f : A -> bool) (l : list A) :
  forallb f l = true -> filter f l = l.
Proof.
  induction l as [| a l IH]; intros H; [reflexivity |].
  cbn [forallb] in H. apply andb_prop in H. destruct H as [Ha Hl].
  cbn [filter]. rewrite Ha, IH by exact Hl. reflexivity.
Qed.

Lemma filter_shorter (A : Type) (f : A -> bool) (l : list A) :
  forallb f l = false -> length (filter f l) < length l.
Proof.
  induction l as [| a l IH]; intros H; [discriminate |].
  cbn [forallb] in H. cbn [filter]. destruct (f a); cbn [length].
  - apply IH in H. lia.
  - pose proof (filter_length_le f l). lia.
Qed.

Lemma forallb_snoc (A : Type) (f : A -> bool) (l : list A) (a : A) :
  forallb f (l ++ [a]) = forallb f l && f a.
Proof. rewrite forallb_app. cbn [forallb]. rewrite andb_true_r. reflexivity. Qed.

Lemma filter_snoc (A : Type) (f : A -> bool) (l : list A) (a : A) :
  filter f (l ++ [a]) = filter f l ++ (if f a then [a] else []).
Proof. rewrite filter_app. reflexivity. Qed.

Lemma vector_set_last (v : list Q) (s x : Q) w :
  vector_set (v ++ [s]) (length v) x w = (inr (v ++ [x]), w).
Proof.
  unfold vector_set. rewrite length_app. cbn [length].
  destruct (Nat.ltb_spec (length v) (length v + 1)); [| lia].
  rewrite update_middle. reflexivity.
Qed.

Lemma vector_set_beyond (v : list Q) (i : nat) (x : Q) w :
  length v <= i -> vector_set v i x w = (inl VectorOutOfRange, w).
Proof.
  intros H. unfold vector_set. destruct (Nat.ltb_spec i (length v)); [lia | reflexivity].
Qed.

Lemma emitBody_run (pre post : SelTracks) (l : list (nat * Q)) out b w :
  length (Jet_nseltracks out) = length (filter nonEmpty pre) ->
  length (Jet_Ip out) = length (filter nonEmpty pre) ->
  length (TCHE out) = length (filter nonEmpty pre) ->
  length (TCHP out) = length (filter nonEmpty pre) ->
  emitBody (pre ++ l :: post) (length pre) (out, b) w =
  if nonEmpty l then
    if (length l <=? 1) || forallb nonEmpty pre then
      (inr (mkOut (Jet_nseltracks out ++ [Qnat (length l)])
                  (Jet_Ip out ++ [significance l 0])
                  (TCHE out ++ [if 1 <? length l then significance l 1 else sentinel])
                  (TCHP out ++ [if 2 <? length l then significance l 2 else sentinel]),
            true), w)
    else (inl VectorOutOfRange, w)
  else (inr (out, b), w).
Proof.
  destruct out as [ns ip te tp]. cbn [Jet_nseltracks Jet_Ip TCHE TCHP].
  intros Hns Hip Hte Htp.
  unfold emitBody. unfold bind at 1. unfold getitem at 1.
  rewrite nth_error_middle. unfold ret at 1. cbn iota beta.
  destruct l as [| x0 [| x1 [| x2 l3]]].
  - reflexivity.
  - reflexivity.
  - cbn [nonEmpty length Nat.eqb negb Nat.ltb Nat.leb orb].
    unfold getitem. cbn [nth_error]. unfold bind, ret.
    cbn [Jet_nseltracks Jet_Ip TCHE TCHP]. unfold push_back.
    destruct (forallb nonEmpty pre) eqn:Hall.
    + replace (length pre) with (length te)
        by (rewrite Hte, (filter_all _ _ _ Hall); reflexivity).
      rewrite vector_set_last. reflexivity.
    + apply filter_shorter in Hall.
      rewrite vector_set_beyond by (rewrite length_app; cbn [length]; lia).
      reflexivity.
  - cbn [nonEmpty length Nat.eqb negb Nat.ltb Nat.leb orb].
    unfold getitem. cbn [nth_error]. unfold bind, ret.
    cbn [Jet_nseltracks Jet_Ip TCHE TCHP]. unfold push_back.
    destruct (forallb nonEmpty pre) eqn:Hall.
    + replace (length pre) with (length te)
        by (rewrite Hte, (filter_all _ _ _ Hall); reflexivity).
      rewrite vector_set_last. cbn [TCHP].
      replace (length te) with (length tp) by congruence.
      rewrite vector_set_last. reflexivity.
    + apply filter_shorter in Hall.
      rewrite vector_set_beyond by (rewrite length_app; cbn [length]; lia).
      reflexivity.
Qed.

Lemma emitLoop_run (post : SelTracks) :
  forall (pre : SelTracks) out b w,
    length (Jet_nseltracks out) = length (filter nonEmpty pre) ->
    length (Jet_Ip out) = length (filter nonEmpty pre) ->
    length (TCHE out) = length (filter nonEmpty pre) ->
    length (TCHP out) = length (filter nonEmpty pre) ->
    for_ (seq (length pre) (length post)) (emitBody (pre ++ post)) (out, b) w =
    if writesInRange (forallb nonEmpty pre) post then
      (inr (mkOut (Jet_nseltracks out ++ Jet_nseltracks (emitted post))
                  (Jet_Ip out ++ Jet_Ip (emitted post))
                  (TCHE out ++ TCHE (emitted post))
                  (TCHP out ++ TCHP (emitted post)),
            b || existsb nonEmpty post), w)
    else (inl VectorOutOfRange, w).
Proof.
  induction post as [| l post IH]; intros pre out b w Hns Hip Hte Htp.
  - cbn. unfold ret. rewrite !app_nil_r, orb_false_r. destruct out; reflexivity.
  - cbn [length seq for_ writesInRange].
    unfold bind at 1. rewrite emitBody_run by assumption.
    replace (pre ++ l :: post) with ((pre ++ [l]) ++ post)
      by (rewrite <- app_assoc; reflexivity).
    replace (S (length pre)) with (length (pre ++ [l]))
      by (rewrite length_app; cbn [length]; lia).
    unfold emitted. cbn [filter existsb].
    destruct (nonEmpty l) eqn:Hne.
    + destruct ((length l <=? 1) || forallb nonEmpty pre) eqn:Hcond; cbn [andb].
      * rewrite IH.
        -- rewrite forallb_snoc, Hne, andb_true_r.
           destruct (writesInRange (forallb nonEmpty pre) post); [| reflexivity].
           unfold emitted. cbn [Jet_nseltracks Jet_Ip TCHE TCHP map orb].
           rewrite <- !app_assoc, orb_true_r. reflexivity.
        -- cbn [Jet_nseltracks]. rewrite filter_snoc, Hne, !length_app. cbn [length]. lia.
        -- cbn [Jet_Ip]. rewrite filter_snoc, Hne, !length_app. cbn [length]. lia.
        -- cbn [TCHE]. rewrite filter_snoc, Hne, !length_app. cbn [length]. lia.
        -- cbn [TCHP]. rewrite filter_snoc, Hne, !length_app. cbn [length]. lia.
      * reflexivity.
    + rewrite IH.
      * rewrite forallb_snoc, Hne, andb_false_r. cbn [orb]. reflexivity.
      * rewrite filter_snoc, Hne, app_nil_r. exact Hns.
      * rewrite filter_snoc, Hne, app_nil_r. exact Hip.
      * rewrite filter_snoc, Hne, app_nil_r. exact Hte.
      * rewrite filter_snoc, Hne, app_nil_r. exact Htp.
Qed.

(** From cleared vectors: the whole list of thresholds. *)
Lemma emitLoop_cleared (sel : SelTracks) b w :
  for_ (range (length sel)) (emitBody sel) (mkOut [] [] [] [], b) w =
  if writesInRange true sel then (inr (emitted sel, b || existsb nonEmpty sel), w)
  else (inl VectorOutOfRange, w).
Proof.
  pose proof (emitLoop_run sel [] (mkOut [] [] [] []) b w
                eq_refl eq_refl eq_refl eq_refl) as H.
  cbn [app length forallb Jet_nseltracks Jet_Ip TCHE TCHP] in H.
  unfold range. rewrite H. destruct (emitted sel). reflexivity.
Qed.

(** ** The loops over the jets and over the entries *)

Lemma flat_map_filter (A B : Type) (p : A -> bool) (f : A -> B) (l : list A) :
  flat_map (fun a => if p a then [f a] else []) l = map f (filter p l).
Proof.
  induction l as [| a l IH]; [reflexivity |].
  cbn [flat_map filter]. rewrite IH. destruct (p a); reflexivity.
Qed.

Lemma fold_left_flat_map (A B : Type) (f : A -> list B) (l : list A) (acc0 : list B) :
  fold_left (fun T a => T ++ f a) l acc0 = acc0 ++ flat_map f l.
Proof.
  revert acc0. induction l as [| a l IH]; intros acc0; cbn [fold_left flat_map].
  - rewrite app_nil_r. reflexivity.
  - rewrite IH, <- app_assoc. reflexivity.
Qed.

Lemma forallb_map_comp (A B : Type) (f : B -> bool) (h : A -> B) (l : list A) :
  forallb f (map h l) = forallb (fun a => f (h a)) l.
Proof.
  induction l as [| a l IH]; [reflexivity |]. cbn [map forallb]. rewrite IH. reflexivity.
Qed.

Lemma flat_map_map_comp (A B C : Type) (f : B -> list C) (h : A -> B) (l : list A) :
  flat_map f (map h l) = flat_map (fun a => f (h a)) l.
Proof.
  induction l as [| a l IH]; [reflexivity |]. cbn [map flat_map]. rewrite IH. reflexivity.
Qed.

Section JetLoop.
Variable TTreeFormula : string -> Event -> nat -> Q.
Variable EvaluateMVA : string -> string -> list Q -> Q.
Variable float32 : Q -> Q.
Variable myTrackCutSel : option trackCutSelector.
Variable myTrackMVASel : option trackMVASelector.
Variable nCuts : nat.
Hypothesis cuts_length :
  forall sel, myTrackMVASel = Some sel -> length (sel_cuts sel) = nCuts.

Let selOf := selTracksOf TTreeFormula EvaluateMVA float32 myTrackCutSel myTrackMVASel nCuts.
Let selectedJ := jetSelected TTreeFormula EvaluateMVA float32 myTrackCutSel myTrackMVASel nCuts.
Let inRange := jetWritesInRange TTreeFormula EvaluateMVA float32 myTrackCutSel myTrackMVASel nCuts.
Let row := rowOf TTreeFormula EvaluateMVA float32 myTrackCutSel myTrackMVASel nCuts.
Let jbody := jetBody TTreeFormula EvaluateMVA float32 myTrackCutSel myTrackMVASel nCuts.
Let ebody := eventBody TTreeFormula EvaluateMVA float32 myTrackCutSel myTrackMVASel nCuts.

Lemma selOf_length tree jetInd : length (selOf tree jetInd) = nCuts.
Proof. unfold selOf, selTracksOf, range. rewrite length_map. apply length_seq. Qed.

Lemma jetBody_run tree jetInd c T w :
  wfCounters nCuts c ->
  exists c' w',
    wfCounters nCuts c' /\
    jbody tree jetInd (c, mkOut [] [] [] [], T) w =
    if inRange (tree, jetInd) then
      (inr (c', mkOut [] [] [] [],
            T ++ (if selectedJ (tree, jetInd) then [row (tree, jetInd)] else [])), w')
    else (inl VectorOutOfRange, w').
Proof.
  intros Hc. unfold jbody, jetBody.
  destruct (trackLoop_run TTreeFormula EvaluateMVA float32 myTrackCutSel myTrackMVASel
              nCuts cuts_length tree jetInd c w Hc) as [c' [w' [Hrun Hc']]].
  exists c', w'. split; [exact Hc' |].
  rewrite (bind_ok _ _ _ _ _ _ _ Hrun). cbn beta iota. fold selOf.
  unfold bind at 1.
  rewrite <- (selOf_length tree jetInd) at 1.
  rewrite emitLoop_cleared. cbn [orb].
  unfold inRange, jetWritesInRange, selectedJ, jetSelected, row, rowOf. cbn [fst snd].
  fold selOf.
  destruct (writesInRange true (selOf tree jetInd)); [| reflexivity].
  unfold ret, clear. destruct (existsb nonEmpty (selOf tree jetInd));
    [reflexivity | rewrite app_nil_r; reflexivity].
Qed.

Lemma eventBody_run entry tree c T w :
  wfCounters nCuts c ->
  exists c' w',
    wfCounters nCuts c' /\
    ebody (entry, tree) (c, mkOut [] [] [] [], T) w =
    if forallb inRange (map (pair tree) (range (nJet tree))) then
      (inr (c', mkOut [] [] [] [],
            T ++ map row (filter selectedJ (map (pair tree) (range (nJet tree))))), w')
    else (inl VectorOutOfRange, w').
Proof.
  intros Hc. unfold ebody, eventBody.
  assert (Hp : exists w0,
    (if (entry + 1) mod 1000 =? 0
     then print [Str "Event "; Int (Z.of_nat (entry + 1)); Str "."]
     else ret tt) w = (inr tt, w0)).
  { destruct ((entry + 1) mod 1000 =? 0); eexists; reflexivity. }
  destruct Hp as [w0 Hp]. rewrite (bind_ok _ _ _ _ _ _ _ Hp).
  fold jbody.
  set (Inv := fun s : LoopState =>
                wfCounters nCuts (fst (fst s)) /\ snd (fst s) = mkOut [] [] [] []).
  set (step := fun (j : nat) (T0 : list Row) =>
                 T0 ++ (if selectedJ (tree, j) then [row (tree, j)] else [])).
  assert (Hbody_ok : forall (j : nat) (s : LoopState) (w1 : World),
             True -> Inv s -> inRange (tree, j) = true ->
             exists s' w', jbody tree j s w1 = (inr s', w') /\ Inv s' /\
                           snd s' = step j (snd s)).
  { intros j [[c0 out0] T0] w1 _ [Hc0 Hout0] Hok. cbn [fst snd] in *. subst out0.
    destruct (jetBody_run tree j c0 T0 w1 Hc0) as [c1 [w2 [Hc1 Hrun]]].
    rewrite Hok in Hrun. eexists. exists w2. split; [exact Hrun |].
    cbn [fst snd]. split; [split; [exact Hc1 | reflexivity] | reflexivity]. }
  assert (Hbody_fail : forall (j : nat) (s : LoopState) (w1 : World),
             True -> Inv s -> inRange (tree, j) = false ->
             exists w', jbody tree j s w1 = (inl VectorOutOfRange, w')).
  { intros j [[c0 out0] T0] w1 _ [Hc0 Hout0] Hok. cbn [fst snd] in *. subst out0.
    destruct (jetBody_run tree j c0 T0 w1 Hc0) as [c1 [w2 [Hc1 Hrun]]].
    rewrite Hok in Hrun. exists w2. exact Hrun. }
  assert (Hdom : Forall (fun _ : nat => True) (range (nJet tree)))
    by (apply Forall_forall; intros; exact I).
  assert (Hinv : Inv (c, mkOut [] [] [] [], T)) by (split; [exact Hc | reflexivity]).
  rewrite forallb_map_comp.
  destruct (forallb (fun j => inRange (tree, j)) (range (nJet tree))) eqn:Hall.
  - destruct (for_ok nat LoopState (list Row) (jbody tree) Inv snd step
                (fun j => inRange (tree, j)) (fun _ => True) Hbody_ok
                (range (nJet tree)) Hdom (c, mkOut [] [] [] [], T) w0 Hinv Hall)
      as [[[c' out'] T'] [w' [Hrun [[Hc' Hout'] Hg]]]].
    cbn [fst snd] in *. subst out'.
    exists c', w'. split; [exact Hc' |]. rewrite Hrun. do 3 f_equal.
    rewrite Hg. unfold step. rewrite fold_left_flat_map. f_equal.
    rewrite <- flat_map_filter, flat_map_map_comp. reflexivity.
  - destruct (for_fail nat LoopState (list Row) (jbody tree) Inv snd step
                (fun j => inRange (tree, j)) (fun _ => True) VectorOutOfRange
                Hbody_ok Hbody_fail
                (range (nJet tree)) Hdom (c, mkOut [] [] [] [], T) w0 Hinv Hall)
      as [w' Hrun].
    exists c, w'. split; [exact Hc | exact Hrun].
Qed.

End JetLoop.

Lemma flat_map_combine_seq (A B : Type) (F : A -> list B) (l : list A) :
  forall a, flat_map (fun p : nat * A => F (snd p)) (combine (seq a (length l)) l) =
            flat_map F l.
Proof.
  induction l as [| x l IH]; intros a; [reflexivity |].
  cbn [length seq combine flat_map snd]. rewrite IH. reflexivity.
Qed.

Lemma forallb_combine_seq (A : Type) (F : A -> bool) (l : list A) :
  forall a, forallb (fun p : nat * A => F (snd p)) (combine (seq a (length l)) l) =
            forallb F l.
Proof.
  induction l as [| x l IH]; intros a; [reflexivity |].
  cbn [length seq combine forallb snd]. rewrite IH. reflexivity.
Qed.

Lemma forallb_flat_map_comp (A B : Type) (p : B -> bool) (G : A -> list B) (l : list A) :
  forallb p (flat_map G l) = forallb (fun a => forallb p (G a)) l.
Proof.
  induction l as [| a l IH]; [reflexivity |].
  cbn [flat_map forallb]. rewrite forallb_app, IH. reflexivity.
Qed.

Lemma map_filter_flat_map (A B C : Type) (f : B -> C) (p : B -> bool)
      (G : A -> list B) (l : list A) :
  map f (filter p (flat_map G l)) = flat_map (fun a => map f (filter p (G a))) l.
Proof.
  induction l as [| a l IH]; [reflexivity |].
  cbn [flat_map]. rewrite filter_app, map_app, IH. reflexivity.
Qed.

Section EventLoop.
Variable TTreeFormula : string -> Event -> nat -> Q.
Variable EvaluateMVA : string -> string -> list Q -> Q.
Variable float32 : Q -> Q.
Variable myTrackCutSel : option trackCutSelector.
Variable myTrackMVASel : option trackMVASelector.
Variable nCuts : nat.
Hypothesis cuts_length :
  forall sel, myTrackMVASel = Some sel -> length (sel_cuts sel) = nCuts.

Let selectedJ := jetSelected TTreeFormula EvaluateMVA float32 myTrackCutSel myTrackMVASel nCuts.
Let inRange := jetWritesInRange TTreeFormula EvaluateMVA float32 myTrackCutSel myTrackMVASel nCuts.
Let row := rowOf TTreeFormula EvaluateMVA float32 myTrackCutSel myTrackMVASel nCuts.
Let ebody := eventBody TTreeFormula EvaluateMVA float32 myTrackCutSel myTrackMVASel nCuts.

(** The pass over the entries: it stops on the first jet with a write out
    of range, and otherwise ends with the rows of the selected jets. *)
Lemma eventLoop_run (tree : list Event) w :
  exists c' w',
    wfCounters nCuts c' /\
    eventLoop TTreeFormula EvaluateMVA float32 myTrackCutSel myTrackMVASel nCuts tree w =
    if forallb inRange (jetsOf tree) then
      (inr (c', mkOut [] [] [] [], map row (filter selectedJ (jetsOf tree))), w')
    else (inl VectorOutOfRange, w').
Proof.
  unfold eventLoop. unfold bind at 1. unfold print at 1. cbn iota beta.
  set (w0 := mkWorld _ _ _). clearbody w0.
  set (c0 := mkCounters (repeat 0 nCuts) 0 (repeat 0 nCuts) 0
                        (repeat 0 nCuts) 0 (repeat 0 nCuts) 0).
  assert (Hc0 : wfCounters nCuts c0).
  { unfold wfCounters, c0. cbn [nSelTracksB nSelTracksC nSelTracksLight nSelTracksPU].
    rewrite repeat_length. repeat split. }
  fold ebody.
  set (Inv := fun s : LoopState =>
                wfCounters nCuts (fst (fst s)) /\ snd (fst s) = mkOut [] [] [] []).
  set (G := fun ev : Event => map (pair ev) (range (nJet ev))).
  set (step := fun (p : nat * Event) (T0 : list Row) =>
                 T0 ++ map row (filter selectedJ (G (snd p)))).
  set (ok := fun p : nat * Event => forallb inRange (G (snd p))).
  assert (Hbody_ok : forall (p : nat * Event) (s : LoopState) (w1 : World),
             True -> Inv s -> ok p = true ->
             exists s' w', ebody p s w1 = (inr s', w') /\ Inv s' /\
                           snd s' = step p (snd s)).
  { intros [entry ev] [[c1 out1] T1] w1 _ [Hc1 Hout1] Hok. cbn [fst snd] in *. subst out1.
    destruct (eventBody_run TTreeFormula EvaluateMVA float32 myTrackCutSel myTrackMVASel
                nCuts cuts_length entry ev c1 T1 w1 Hc1) as [c2 [w2 [Hc2 Hrun]]].
    unfold ok, G in Hok. cbn [snd] in Hok. fold inRange in Hrun. rewrite Hok in Hrun.
    eexists. exists w2. split; [exact Hrun |].
    cbn [fst snd]. split; [split; [exact Hc2 | reflexivity] | reflexivity]. }
  assert (Hbody_fail : forall (p : nat * Event) (s : LoopState) (w1 : World),
             True -> Inv s -> ok p = false ->
             exists w', ebody p s w1 = (inl VectorOutOfRange, w')).
  { intros [entry ev] [[c1 out1] T1] w1 _ [Hc1 Hout1] Hok. cbn [fst snd] in *. subst out1.
    destruct (eventBody_run TTreeFormula EvaluateMVA float32 myTrackCutSel myTrackMVASel
                nCuts cuts_length entry ev c1 T1 w1 Hc1) as [c2 [w2 [Hc2 Hrun]]].
    unfold ok, G in Hok. cbn [snd] in Hok. fold inRange in Hrun. rewrite Hok in Hrun.
    exists w2. exact Hrun. }
  set (l := combine (range (length tree)) tree).
  assert (Hdom : Forall (fun _ : nat * Event => True) l)
    by (apply Forall_forall; intros; exact I).
  assert (Hinv : Inv (c0, mkOut [] [] [] [], [])) by (split; [exact Hc0 | reflexivity]).
  assert (Hok : forallb ok l = forallb inRange (jetsOf tree)).
  { unfold l, ok, range, jetsOf.
    rewrite (forallb_combine_seq _ (fun ev => forallb inRange (G ev))).
    rewrite forallb_flat_map_comp. reflexivity. }
  rewrite <- Hok.
  destruct (forallb ok l) eqn:Hall.
  - destruct (for_ok (nat * Event) LoopState (list Row) ebody Inv snd step ok
                (fun _ => True) Hbody_ok l Hdom (c0, mkOut [] [] [] [], []) w0 Hinv Hall)
      as [[[c' out'] T'] [w' [Hrun [[Hc' Hout'] Hg]]]].
    cbn [fst snd] in *. subst out'.
    exists c', w'. split; [exact Hc' |]. rewrite Hrun. do 3 f_equal.
    rewrite Hg. unfold step. rewrite fold_left_flat_map. cbn [app].
    unfold l, range, jetsOf.
    rewrite (flat_map_combine_seq _ _ (fun ev => map row (filter selectedJ (G ev)))).
    rewrite map_filter_flat_map. reflexivity.
  - destruct (for_fail (nat * Event) LoopState (list Row) ebody Inv snd step ok
                (fun _ => True) VectorOutOfRange Hbody_ok Hbody_fail
                l Hdom (c0, mkOut [] [] [] [], []) w0 Hinv Hall) as [w' Hrun].
    exists c0, w'. split; [exact Hc0 | exact Hrun].
Qed.

End EventLoop.

(** ** Set-up and report *)

Lemma cuts_length_of (trackMVA : option MVA) :
  forall sel, mvaSelOf trackMVA = Some sel -> length (sel_cuts sel) = nCutsOf trackMVA.
Proof.
  intros sel H. destruct trackMVA as [m |]; [| discriminate].
  injection H as <-. reflexivity.
Qed.

Lemma setup_run (isfile : string -> bool) trackCut trackMVA w :
  exists w',
    setup isfile trackCut trackMVA w =
    (match trackMVA with
     | Some m =>
         if isfile (mva_path m)
         then inr (cutSelOf trackCut, mvaSelOf trackMVA, nCutsOf trackMVA)
         else inl (Exception [Str "Error: file "; Str (mva_path m);
                              Str " does not exist."])
     | None => inr (cutSelOf trackCut, mvaSelOf trackMVA, nCutsOf trackMVA)
     end, w').
Proof.
  unfold setup. unfold bind at 1. unfold print at 1. cbn iota beta.
  set (w0 := mkWorld _ _ _). clearbody w0.
  assert (Hcut : exists w1,
    (match trackCut with
     | Some cut => print [Str "Will use base rectangular cuts: "; Str cut] ;;
                   ret (Some (mkCutSel cut))
     | None => ret None
     end) w0 = (inr (cutSelOf trackCut), w1)).
  { destruct trackCut; eexists; reflexivity. }
  destruct Hcut as [w1 Hcut]. rewrite (bind_ok _ _ _ _ _ _ _ Hcut).
  destruct trackMVA as [m |].
  - cbn [mvaSelOf nCutsOf]. destruct (isfile (mva_path m)); cbn [negb].
    + eexists. reflexivity.
    + eexists. reflexivity.
  - eexists. reflexivity.
Qed.

Lemma pydiv_nat (a : Q) (t : nat) w :
  pydiv a (Qnat t) w =
  if t =? 0 then (inl ZeroDivisionError, w) else (inr (a / Qnat t)%Q, w).
Proof.
  unfold pydiv. destruct t as [| t]; [reflexivity |].
  assert (H : Qeq_bool (Qnat (S t)) 0 = false).
  { apply not_true_is_false. intros H. apply Qeq_bool_eq in H.
    unfold Qnat, Qeq in H. cbn [Qnum Qden inject_Z] in H. lia. }
  rewrite H. reflexivity.
Qed.

Lemma reportBody_run (trackMVA : option MVA) n c i w :
  wfCounters n c -> nCutsOf trackMVA = n \/ trackMVA = None -> i < n ->
  exists w',
    reportBody trackMVA c i tt w =
    (if someTotalZero c then inl ZeroDivisionError else inr tt, w').
Proof.
  intros [HB [HL [HC HP]]] Hn Hi. unfold reportBody, someTotalZero.
  assert (Hhead : exists w0,
    (match trackMVA with
     | Some m => cut <- getitem (mva_cuts m) i ;;
                 print [Str "MVA cut value "; Flt cut; Str ":"]
     | None => print [Str "Non-MVA cuts:"]
     end) w = (inr tt, w0)).
  { destruct trackMVA as [m |].
    - destruct Hn as [Hn | Hn]; [| discriminate]. cbn [nCutsOf] in Hn.
      unfold bind. rewrite (getitem_run _ 0%Q) by lia. eexists. reflexivity.
    - eexists. reflexivity. }
  destruct Hhead as [w0 Hhead]. rewrite (bind_ok _ _ _ _ _ _ _ Hhead).
  unfold bind at 1. rewrite (getitem_run _ 0) by lia.
  unfold bind at 1. rewrite pydiv_nat.
  destruct (nTotTracksB c =? 0); [eexists; reflexivity |].
  unfold bind at 1. unfold print at 1. cbn iota beta.
  unfold bind at 1. rewrite (getitem_run _ 0) by lia.
  unfold bind at 1. rewrite pydiv_nat.
  destruct (nTotTracksC c =? 0); [eexists; reflexivity |].
  unfold bind at 1. unfold print at 1. cbn iota beta.
  unfold bind at 1. rewrite (getitem_run _ 0) by lia.
  unfold bind at 1. rewrite pydiv_nat.
  destruct (nTotTracksLight c =? 0); [eexists; reflexivity |].
  unfold bind at 1. unfold print at 1. cbn iota beta.
  unfold bind at 1. rewrite (getitem_run _ 0) by lia.
  unfold bind at 1. rewrite pydiv_nat.
  destruct (nTotTracksPU c =? 0); eexists; reflexivity.
Qed.

Lemma report_run (trackMVA : option MVA) n c w :
  wfCounters n c -> nCutsOf trackMVA = n \/ trackMVA = None ->
  exists w',
    report trackMVA n c w =
    (if (0 <? n) && someTotalZero c then inl ZeroDivisionError else inr tt, w').
Proof.
  intros Hc Hn. unfold report.
  set (ok := fun _ : nat => negb (someTotalZero c)).
  assert (Hbody_ok : forall (i : nat) (s : unit) (w1 : World),
             i < n -> True -> ok i = true ->
             exists s' w', reportBody trackMVA c i s w1 = (inr s', w') /\ True /\
                           tt = (fun _ _ => tt) i tt).
  { intros i [] w1 Hi _ Hok. unfold ok in Hok. apply negb_true_iff in Hok.
    destruct (reportBody_run trackMVA n c i w1 Hc Hn Hi) as [w2 Hrun].
    rewrite Hok in Hrun. exists tt, w2. repeat split. exact Hrun. }
  assert (Hbody_fail : forall (i : nat) (s : unit) (w1 : World),
             i < n -> True -> ok i = false ->
             exists w', reportBody trackMVA c i s w1 = (inl ZeroDivisionError, w')).
  { intros i [] w1 Hi _ Hok. unfold ok in Hok. apply negb_false_iff in Hok.
    destruct (reportBody_run trackMVA n c i w1 Hc Hn Hi) as [w2 Hrun].
    rewrite Hok in Hrun. exists w2. exact Hrun. }
  assert (Hdom : Forall (fun i => i < n) (range n)).
  { apply Forall_forall. intros i Hi. apply in_seq in Hi. lia. }
  destruct n as [| n'].
  - exists w. reflexivity.
  - cbn [Nat.ltb Nat.leb andb].
    destruct (someTotalZero c) eqn:Hz.
    + destruct (for_fail nat unit unit (reportBody trackMVA c) (fun _ => True)
                  (fun _ => tt) (fun _ _ => tt) ok (fun i => i < S n') ZeroDivisionError
                  Hbody_ok Hbody_fail (range (S n')) Hdom tt w I) as [w' Hrun].
      * unfold ok. rewrite ?Hz. reflexivity.
      * exists w'. exact Hrun.
    + destruct (for_ok nat unit unit (reportBody trackMVA c) (fun _ => True)
                  (fun _ => tt) (fun _ _ => tt) ok (fun i => i < S n')
                  Hbody_ok (range (S n')) Hdom tt w I) as [[] [w' [Hrun _]]].
      * unfold ok. rewrite ?Hz. clear. induction (range (S n')); [reflexivity | assumption].
      * exists w'. exact Hrun.
Qed.

(** ** createJetTreeTC as a whole *)

Lemma someTotalZero_true (c : Counters) :
  someTotalZero c = true <->
  nTotTracksB c = 0 \/ nTotTracksC c = 0 \/ nTotTracksLight c = 0 \/ nTotTracksPU c = 0.
Proof.
  unfold someTotalZero. rewrite !orb_true_iff, !Nat.eqb_eq. tauto.
Qed.

Lemma someTotalZero_false (c : Counters) :
  someTotalZero c = false <->
  nTotTracksB c <> 0 /\ nTotTracksC c <> 0 /\ nTotTracksLight c <> 0 /\ nTotTracksPU c <> 0.
Proof.
  unfold someTotalZero. rewrite !orb_false_iff, !Nat.eqb_neq. tauto.
Qed.

Lemma Forall2_map_right (A B : Type) (P : A -> B -> Prop) (f : A -> B) (l : list A) :
  (forall a, In a l -> P a (f a)) -> Forall2 P l (map f l).
Proof.
  induction l as [| a l IH]; intros H; cbn [map]; constructor.
  - apply H. left. reflexivity.
  - apply IH. intros b Hb. apply H. right. exact Hb.
Qed.

Lemma existsb_filter_nonempty (A : Type) (p : A -> bool) (l : list A) :
  existsb p l = true -> 1 <= length (filter p l).
Proof.
  induction l as [| a l IH]; intros H; [discriminate |].
  cbn [existsb] in H. cbn [filter]. destruct (p a); cbn [length]; [lia |].
  apply IH. exact H.
Qed.

Lemma nonEmpty_length (l : list (nat * Q)) : nonEmpty l = true -> 1 <= length l.
Proof. unfold nonEmpty. destruct l; [discriminate | cbn [length]; lia]. Qed.

Lemma Qnat_ge_1 (n : nat) : 1 <= n -> (1 <= Qnat n)%Q.
Proof.
  intros H. unfold Qnat. change 1%Q with (inject_Z 1). rewrite <- Zle_Qle. lia.
Qed.

Lemma setup_inr (isfile : string -> bool) trackCut trackMVA w cs' ms' n' w1 :
  setup isfile trackCut trackMVA w = (inr (cs', ms', n'), w1) ->
  cs' = cutSelOf trackCut /\ ms' = mvaSelOf trackMVA /\ n' = nCutsOf trackMVA.
Proof.
  intros H. destruct (setup_run isfile trackCut trackMVA w) as [w1' R].
  rewrite H in R.
  destruct trackMVA as [m |].
  - destruct (isfile (mva_path m)); [| discriminate].
    injection R as -> -> -> _. repeat split.
  - injection R as -> -> -> _. repeat split.
Qed.

Section WholeRun.
Variable TTreeFormula : string -> Event -> nat -> Q.
Variable EvaluateMVA : string -> string -> list Q -> Q.
Variable isfile : string -> bool.
Variable float32 : Q -> Q.
Variable rootFiles : list (list Event).
Variable trackCut : option string.
Variable trackMVA : option MVA.

Let cs := cutSelOf trackCut.
Let ms := mvaSelOf trackMVA.
Let n := nCutsOf trackMVA.
Let selOf := selTracksOf TTreeFormula EvaluateMVA float32 cs ms n.
Let selectedJ := jetSelected TTreeFormula EvaluateMVA float32 cs ms n.
Let inRange := jetWritesInRange TTreeFormula EvaluateMVA float32 cs ms n.
Let row := rowOf TTreeFormula EvaluateMVA float32 cs ms n.
Let run := createJetTreeTC TTreeFormula EvaluateMVA isfile float32 rootFiles trackCut trackMVA.

Lemma eventLoop_inr w c out T w' :
  eventLoop TTreeFormula EvaluateMVA float32 cs ms n (concat rootFiles) w =
    (inr (c, out, T), w') ->
  wfCounters n c /\
  forallb inRange (jetsOf (concat rootFiles)) = true /\
  T = map row (filter selectedJ (jetsOf (concat rootFiles))).
Proof.
  intros H.
  destruct (eventLoop_run TTreeFormula EvaluateMVA float32 cs ms n
              (cuts_length_of trackMVA) (concat rootFiles) w) as [c' [w2 [Hc' R]]].
  rewrite H in R. fold inRange in R.
  destruct (forallb inRange (jetsOf (concat rootFiles))); [| discriminate].
  injection R as -> _ -> _. split; [exact Hc' | split; reflexivity].
Qed.

(** The tree that is written holds one row per selected jet, in the order
    of the loops, with the entries of that jet only. *)
Lemma createJetTreeTC_inr w rows w' :
  run w = (inr rows, w') ->
  forallb inRange (jetsOf (concat rootFiles)) = true /\
  rows = map row (filter selectedJ (jetsOf (concat rootFiles))).
Proof.
  unfold run, createJetTreeTC. intros H.
  apply bind_inv in H. destruct H as [[[cs' ms'] n'] [w1 [Hsetup H]]].
  destruct (setup_inr isfile trackCut trackMVA _ _ _ _ _ Hsetup) as [-> [-> ->]].
  cbn beta iota in H.
  apply bind_inv in H. destruct H as [[[c out] T] [w2 [Hloop H]]].
  cbn beta iota in H.
  apply bind_inv in H. destruct H as [[] [w3 [_ H]]].
  apply bind_inv in H. destruct H as [[] [w4 [_ H]]].
  unfold ret in H. injection H as <- _.
  destruct (eventLoop_inr _ _ _ _ _ Hloop) as [_ [Hr HT]].
  split; assumption.
Qed.

(** After the pass: the report decides. *)
Lemma createJetTreeTC_after_pass w w1 c out T w2 :
  setup isfile trackCut trackMVA w = (inr (cs, ms, n), w1) ->
  eventLoop TTreeFormula EvaluateMVA float32 cs ms n (concat rootFiles) w1 =
    (inr (c, out, T), w2) ->
  fst (run w) =
  if (0 <? n) && someTotalZero c then inl ZeroDivisionError else inr T.
Proof.
  intros Hsetup Hloop. unfold run, createJetTreeTC.
  rewrite (bind_ok _ _ _ _ _ _ _ Hsetup). cbn beta iota.
  rewrite (bind_ok _ _ _ _ _ _ _ Hloop). cbn beta iota.
  unfold bind at 1. unfold print at 1. cbn beta iota.
  destruct (eventLoop_inr _ _ _ _ _ Hloop) as [Hc _].
  set (w3 := mkWorld _ _ _).
  destruct (report_run trackMVA n c w3 Hc (or_introl eq_refl)) as [w4 R].
  unfold bind. rewrite R.
  destruct ((0 <? n) && someTotalZero c); reflexivity.
Qed.

End WholeRun.

Lemma emitBody_push (sel : SelTracks) i out b w out' b' w' :
  i < length sel ->
  emitBody sel i (out, b) w = (inr (out', b'), w') ->
  if nonEmpty (nth i sel []) then
    Jet_nseltracks out' = Jet_nseltracks out ++ [Qnat (length (nth i sel []))] /\
    length (Jet_Ip out') = S (length (Jet_Ip out)) /\
    length (TCHE out') = S (length (TCHE out)) /\
    length (TCHP out') = S (length (TCHP out)) /\
    b' = true
  else out' = out /\ b' = b.
Proof.
  intros Hi. unfold emitBody. unfold bind at 1.
  rewrite (getitem_run _ [] sel i w Hi).
  destruct out as [ns ip te tp].
  destruct (nth i sel []) as [| x0 [| x1 [| x2 l3]]];
    cbn [nonEmpty length Nat.eqb negb Nat.ltb Nat.leb];
    unfold getitem; cbn [nth_error]; unfold vector_set, push_back, bind, ret;
    cbn [Jet_nseltracks Jet_Ip TCHE TCHP].
  - intros H. injection H as <- <- _. split; reflexivity.
  - intros H. injection H as <- <- _. cbn [Jet_nseltracks Jet_Ip TCHE TCHP].
    rewrite !length_app. cbn [length]. repeat split; lia.
  - destruct (i <? length (te ++ [sentinel])); [| discriminate].
    cbn beta iota.
    intros H. injection H as <- <- _. cbn [Jet_nseltracks Jet_Ip TCHE TCHP].
    rewrite update_length, !length_app. cbn [length]. repeat split; lia.
  - destruct (i <? length (te ++ [sentinel])); [| discriminate].
    cbn beta iota. cbn [TCHP Jet_nseltracks Jet_Ip TCHE].
    destruct (i <? length (tp ++ [sentinel])); [| discriminate].
    cbn beta iota. intros H. injection H as <- <- _. cbn [Jet_nseltracks Jet_Ip TCHE TCHP].
    rewrite !update_length, !length_app. cbn [length]. repeat split; lia.
Qed.

Lemma jetBody_clears TTreeFormula EvaluateMVA float32 cs ms n tree jetInd s w s' w' :
  jetBody TTreeFormula EvaluateMVA float32 cs ms n tree jetInd s w = (inr s', w') ->
  snd (fst s') = mkOut [] [] [] [].
Proof.
  destruct s as [[c out] T]. unfold jetBody. intros H.
  apply bind_inv in H. destruct H as [[c1 sel] [w1 [_ H]]]. cbn beta iota in H.
  apply bind_inv in H. destruct H as [[out1 sj] [w2 [_ H]]]. cbn beta iota in H.
  unfold ret in H. injection H as <- _. reflexivity.
Qed.

(** ** When no write goes out of range *)

Lemma writesInRange_all_empty (sel : SelTracks) (b : bool) :
  existsb nonEmpty sel = false -> writesInRange b sel = true.
Proof.
  revert b. induction sel as [| l sel IH]; intros b H; [reflexivity |].
  cbn [existsb] in H. apply orb_false_elim in H. destruct H as [Hl Hsel].
  cbn [writesInRange]. rewrite Hl. apply IH. exact Hsel.
Qed.

(** Non-empty lists come first: every write is in range. *)
Lemma writesInRange_prefix (sel : SelTracks) :
  (forall i j, j <= i -> i < length sel ->
               nonEmpty (nth i sel []) = true -> nonEmpty (nth j sel []) = true) ->
  writesInRange true sel = true.
Proof.
  induction sel as [| l sel IH]; intros H; [reflexivity |].
  cbn [writesInRange]. destruct (nonEmpty l) eqn:Hl.
  - rewrite orb_true_r. cbn [andb]. apply IH.
    intros i j Hji Hi Hne.
    apply (H (S i) (S j)); [lia | cbn [length]; lia | exact Hne].
  - apply writesInRange_all_empty.
    destruct (existsb nonEmpty sel) eqn:Hex; [| reflexivity].
    apply existsb_exists in Hex. destruct Hex as [x [Hx Hne]].
    apply (In_nth _ _ []) in Hx. destruct Hx as [i [Hi Hnth]].
    assert (Habs : nonEmpty (nth 0 (l :: sel) []) = true).
    { apply (H (S i) 0); [lia | cbn [length]; lia |]. cbn [nth]. rewrite Hnth. exact Hne. }
    cbn [nth] in Habs. congruence.
Qed.

Lemma nonEmpty_map_filter (A : Type) (f : A -> nat * Q) (p : A -> bool) (l : list A) :
  nonEmpty (map f (filter p l)) = existsb p l.
Proof.
  unfold nonEmpty. induction l as [| a l IH]; [reflexivity |].
  cbn [filter existsb]. destruct (p a); [reflexivity | exact IH].
Qed.

Section InRange.
Variable TTreeFormula : string -> Event -> nat -> Q.
Variable EvaluateMVA : string -> string -> list Q -> Q.
Variable float32 : Q -> Q.
Variable myTrackCutSel : option trackCutSelector.
Variable myTrackMVASel : option trackMVASelector.
Variable nCuts : nat.

(** The cut values, if any, are in increasing order. *)
Hypothesis cuts_ascending :
  forall sel, myTrackMVASel = Some sel ->
  forall i j, j <= i -> i < nCuts ->
              (nth j (sel_cuts sel) 0 <= nth i (sel_cuts sel) 0)%Q.

Lemma accepted_monotone tree track i j :
  j <= i -> i < nCuts ->
  accepted TTreeFormula EvaluateMVA float32 myTrackCutSel myTrackMVASel tree track i = true ->
  accepted TTreeFormula EvaluateMVA float32 myTrackCutSel myTrackMVASel tree track j = true.
Proof.
  intros Hji Hi. unfold accepted.
  destruct (cutPassed TTreeFormula myTrackCutSel tree track); [| discriminate].
  cbn [andb]. destruct myTrackMVASel as [sel |] eqn:Hsel; [| reflexivity].
  rewrite !Qgt_bool_iff. intros H.
  eapply Qle_lt_trans; [| exact H]. apply (cuts_ascending sel eq_refl); assumption.
Qed.

Lemma jetWritesInRange_ascending jet :
  jetWritesInRange TTreeFormula EvaluateMVA float32 myTrackCutSel myTrackMVASel nCuts jet
  = true.
Proof.
  unfold jetWritesInRange. apply writesInRange_prefix.
  unfold selTracksOf, range. rewrite length_map, length_seq.
  intros i j Hji Hi.
  rewrite !(nth_indep _ [] (selected TTreeFormula EvaluateMVA float32 myTrackCutSel
                                     myTrackMVASel (fst jet) (snd jet) 0))
    by (rewrite length_map, length_seq; lia).
  rewrite !map_nth, !seq_nth by lia. cbn [Nat.add].
  unfold selected. rewrite !nonEmpty_map_filter.
  intros H. apply existsb_exists in H. destruct H as [t [Ht Hacc]].
  apply existsb_exists. exists t. split; [exact Ht |].
  apply (accepted_monotone _ _ i j); assumption.
Qed.

Hypothesis cuts_length :
  forall sel, myTrackMVASel = Some sel -> length (sel_cuts sel) = nCuts.

(** With increasing cut values the pass over the entries always ends
    normally. *)
Lemma eventLoop_returns (tree : list Event) w :
  exists c w',
    wfCounters nCuts c /\
    eventLoop TTreeFormula EvaluateMVA float32 myTrackCutSel myTrackMVASel nCuts tree w =
    (inr (c, mkOut [] [] [] [],
          map (rowOf TTreeFormula EvaluateMVA float32 myTrackCutSel myTrackMVASel nCuts)
              (filter (jetSelected TTreeFormula EvaluateMVA float32 myTrackCutSel
                                   myTrackMVASel nCuts)
                      (jetsOf tree))), w').
Proof.
  destruct (eventLoop_run TTreeFormula EvaluateMVA float32 myTrackCutSel myTrackMVASel
              nCuts cuts_length tree w) as [c [w' [Hc R]]].
  exists c, w'. split; [exact Hc |]. rewrite R.
  replace (forallb _ (jetsOf tree)) with true; [reflexivity |].
  symmetry. apply forallb_forall. intros jet _. apply jetWritesInRange_ascending.
Qed.

End InRange.

(** When a non-zero total is supplied, every efficiency value is the
    running integral divided by that total. *)
Lemma drawEff_total_supplied (h : TH1) (total : N) w g w' :
  total <> 0%N ->
  drawEffVsCutCurve h total w = (inr g, w') ->
  map snd g =
  map (fun x => (x / inject_Z (Z.of_N total))%Q)
      (Integral h :: running h (Integral h) (xrange 2 (GetNbinsX h))).
Proof.
  intros Ht H. apply drawEff_inr in H. destruct H as [_ ->].
  rewrite (normalisation_total h total Ht).
  set (es := map _ (Integral h :: _)).
  set (xs := map _ (1 :: _)).
  assert (Hl : length xs = length es).
  { unfold xs, es. cbn [map length]. rewrite !length_map, running_length. reflexivity. }
  clearbody xs es. revert es Hl.
  induction xs as [| x xs IH]; intros [| e es] Hl; try discriminate; [reflexivity |].
  cbn [combine map snd]. rewrite IH; [reflexivity |]. simpl in Hl. lia.
Qed.

(** ** Claims about createJetTreeTC *)

Lemma existsb_false_In (A : Type) (f : A -> bool) (l : list A) (a : A) :
  existsb f l = false -> In a l -> f a = false.
Proof.
  intros H Ha. destruct (f a) eqn:E; [| reflexivity].
  assert (existsb f l = true) by (apply existsb_exists; exists a; split; assumption).
  congruence.
Qed.

Lemma nth_map_range (f : nat -> bool) n i :
  i < n -> nth i (map f (range n)) false = f i.
Proof.
  intros Hi. unfold range.
  rewrite (nth_indep _ false (f 0)) by (rewrite length_map, length_seq; exact Hi).
  rewrite map_nth, seq_nth by exact Hi. reflexivity.
Qed.

(** C6 (as stated).  With a cut predicate and a classifier configured, a
    track that the cut predicate rejects makes two calls to the cut formula
    and none to the classifier: its score is not computed. *)
Lemma C6_score_not_computed_when_cut_rejects :
  calls (snd (keepTrackOf exFormula exMVA (fun x => x) (Some exCutSel) (Some exMVASel)
                          2 event4 0 world0)) = [CutGetNdata; CutEvalInstance 0] /\
  count isMVAEval
        (calls (snd (keepTrackOf exFormula exMVA (fun x => x) (Some exCutSel)
                                 (Some exMVASel) 2 event4 0 world0))) <> 1.
Proof.
  split; [reflexivity |]. vm_compute. discriminate.
Qed.

(** C6 (amended).  For every track: a configured cut predicate is evaluated
    exactly once and its truth value is ANDed into every threshold's
    decision; a configured classifier has its score computed at most once,
    exactly once when there is a threshold and the cut predicate is absent
    or passed, and not at all when the cut predicate rejected the track;
    when it is computed, all input-variable formulas are evaluated for that
    track just before; the track is accepted under threshold i iff the cut
    predicate (if configured) passed and the score (if a classifier is
    configured) is strictly greater than cut value i. *)
Theorem C6_track_decision
        (TTreeFormula : string -> Event -> nat -> Q)
        (EvaluateMVA : string -> string -> list Q -> Q) (float32 : Q -> Q)
        (cutSel : option trackCutSelector) (mvaSel : option trackMVASelector)
        (nCuts : nat) (tree : Event) (track : nat) (w : World) :
  (forall sel, mvaSel = Some sel -> length (sel_cuts sel) = nCuts) ->
  exists keep w',
    keepTrackOf TTreeFormula EvaluateMVA float32 cutSel mvaSel nCuts tree track w =
      (inr keep, w') /\
    (exists new,
        calls w' = calls w ++ new /\
        count isCutEval new = match cutSel with Some _ => 1 | None => 0 end /\
        count isMVAEval new =
          match mvaSel with
          | Some _ => if (0 <? nCuts) && cutPassed TTreeFormula cutSel tree track
                      then 1 else 0
          | None => 0
          end /\
        forall sel, mvaSel = Some sel -> count isMVAEval new = 1 ->
          exists before,
            new = before ++ syncCalls (sel_trackVars sel) track
                         ++ [ReaderEvaluateMVA (sel_name sel)]) /\
    forall i, i < nCuts ->
      match keep with Some k => nth i k false | None => false end =
      cutPassed TTreeFormula cutSel tree track &&
      match mvaSel with
      | Some sel =>
          Qgt_bool (scoreOf TTreeFormula EvaluateMVA float32 sel tree track)
                   (nth i (sel_cuts sel) 0%Q)
      | None => true
      end.
Proof.
  intros Hlen.
  destruct (keepTrackOf_run TTreeFormula EvaluateMVA float32 cutSel mvaSel nCuts Hlen
              tree track w) as [w' [Hrun [Hcalls _]]].
  eexists. exists w'. split; [exact Hrun |]. split.
  - exists (cutCalls cutSel track ++ mvaCalls TTreeFormula cutSel mvaSel nCuts tree track).
    split; [exact Hcalls |].
    rewrite !count_app. unfold cutCalls, mvaCalls.
    destruct cutSel as [csel |], mvaSel as [msel |];
      try destruct ((0 <? nCuts) && cutPassed _ _ tree track) eqn:Hc;
      rewrite ?count_app, ?count_syncCalls by reflexivity;
      (split; [reflexivity |]); (split; [reflexivity |]);
      intros sel Hsel Hone; try discriminate;
      injection Hsel as <-; eexists; reflexivity.
  - intros i Hi.
    change (cutPassed TTreeFormula cutSel tree track &&
            match mvaSel with
            | Some sel =>
                Qgt_bool (scoreOf TTreeFormula EvaluateMVA float32 sel tree track)
                         (nth i (sel_cuts sel) 0%Q)
            | None => true
            end)
      with (accepted TTreeFormula EvaluateMVA float32 cutSel mvaSel tree track i).
    destruct (existsb (accepted TTreeFormula EvaluateMVA float32 cutSel mvaSel tree track)
                      (range nCuts)) eqn:Hex.
    + apply nth_map_range. exact Hi.
    + symmetry. apply (existsb_false_In _ _ _ _ Hex). apply in_seq. lia.
Qed.

Lemma C6_track_decision_witness :
  exists keep w',
    keepTrackOf exFormula exMVA (fun x => x) (Some exCutSel) (Some exMVASel) 2
                event4 1 world0 = (inr keep, w') /\
    (exists new,
        calls w' = calls world0 ++ new /\
        count isCutEval new = 1 /\
        count isMVAEval new =
          (if (0 <? 2) && cutPassed exFormula (Some exCutSel) event4 1 then 1 else 0) /\
        forall sel, Some exMVASel = Some sel -> count isMVAEval new = 1 ->
          exists before,
            new = before ++ syncCalls (sel_trackVars sel) 1
                         ++ [ReaderEvaluateMVA (sel_name sel)]) /\
    forall i, i < 2 ->
      match keep with Some k => nth i k false | None => false end =
      cutPassed exFormula (Some exCutSel) event4 1 &&
      Qgt_bool (scoreOf exFormula exMVA (fun x => x) exMVASel event4 1)
               (nth i (sel_cuts exMVASel) 0%Q).
Proof.
  apply (C6_track_decision exFormula exMVA (fun x => x) (Some exCutSel) (Some exMVASel)
                           2 event4 1 world0).
  intros sel H. injection H as <-. reflexivity.
Defined.

(** ** The report stops at the first category without a track *)

Lemma reportBody_stops (trackMVA : option MVA) (c : Counters) (i : nat) (w : World) :
  wfCounters (nCutsOf trackMVA) c -> i < nCutsOf trackMVA ->
  someTotalZero c = true ->
  reportBody trackMVA c i tt w =
  (inl ZeroDivisionError,
   mkWorld (slots w) (calls w)
           (stdout w ++ firstn (S (firstZeroCategory c)) (reportLines trackMVA c i))).
Proof.
  intros [HB [HL [HC HP]]] Hi Hz. unfold someTotalZero in Hz.
  unfold reportBody, reportLines, firstZeroCategory.
  assert (Hhead :
    (match trackMVA with
     | Some m => cut <- getitem (mva_cuts m) i ;;
                 print [Str "MVA cut value "; Flt cut; Str ":"]
     | None => print [Str "Non-MVA cuts:"]
     end) w =
    (inr tt, mkWorld (slots w) (calls w)
               (stdout w ++
                [match trackMVA with
                 | Some m => [Str "MVA cut value "; Flt (nth i (mva_cuts m) 0%Q); Str ":"]
                 | None => [Str "Non-MVA cuts:"]
                 end]))).
  { destruct trackMVA as [m |].
    - cbn [nCutsOf] in Hi. unfold bind. rewrite (getitem_run _ 0%Q) by lia. reflexivity.
    - reflexivity. }
  rewrite (bind_ok _ _ _ _ _ _ _ Hhead).
  unfold bind at 1. rewrite (getitem_run _ 0) by lia.
  unfold bind at 1. rewrite pydiv_nat.
  destruct (nTotTracksB c =? 0); [reflexivity |].
  unfold bind at 1. unfold print at 1. cbn iota beta.
  unfold bind at 1. rewrite (getitem_run _ 0) by lia.
  unfold bind at 1. rewrite pydiv_nat.
  destruct (nTotTracksC c =? 0);
    [cbn [firstn slots calls stdout]; rewrite <- !app_assoc; reflexivity |].
  unfold bind at 1. unfold print at 1. cbn iota beta.
  unfold bind at 1. rewrite (getitem_run _ 0) by lia.
  unfold bind at 1. rewrite pydiv_nat.
  destruct (nTotTracksLight c =? 0);
    [cbn [firstn slots calls stdout]; rewrite <- !app_assoc; reflexivity |].
  unfold bind at 1. unfold print at 1. cbn iota beta.
  unfold bind at 1. rewrite (getitem_run _ 0) by lia.
  unfold bind at 1. rewrite pydiv_nat.
  destruct (nTotTracksPU c =? 0); [| discriminate].
  cbn [firstn slots calls stdout]. rewrite <- !app_assoc. reflexivity.
Qed.

Lemma report_stops (trackMVA : option MVA) (c : Counters) (w : World) :
  wfCounters (nCutsOf trackMVA) c -> 1 <= nCutsOf trackMVA ->
  someTotalZero c = true ->
  report trackMVA (nCutsOf trackMVA) c w =
  (inl ZeroDivisionError,
   mkWorld (slots w) (calls w)
           (stdout w ++ firstn (S (firstZeroCategory c)) (reportLines trackMVA c 0))).
Proof.
  intros Hc Hn Hz. unfold report, range.
  destruct (nCutsOf trackMVA) as [| n'] eqn:En; [lia |].
  cbn [seq for_].
  apply bind_raises. rewrite <- En in Hc.
  apply reportBody_stops; [exact Hc | lia | exact Hz].
Qed.

(** C4 (as stated).  An input with a single light jet: the pass ends with
    no b-jet track, and createJetTreeTC ends in ZeroDivisionError instead of
    returning the tree. *)
Lemma C4_zero_total_raises_example :
  (exists c out T w,
      eventLoop exFormula exMVA (fun x => x) None None 1 [eventLight]
                (snd (setup (fun _ => true) None None world0)) = (inr (c, out, T), w) /\
      nTotTracksB c = 0) /\
  fst (createJetTreeTC exFormula exMVA (fun _ => true) (fun x => x) [[eventLight]]
                       None None world0) = inl ZeroDivisionError.
Proof.
  split.
  - vm_compute. do 4 eexists. split; reflexivity.
  - vm_compute. reflexivity.
Qed.

(** C4 (amended).  After a pass that ends normally: if there is at least
    one threshold and some flavor category has zero total tracks, the report
    raises ZeroDivisionError at the first such category (in the order B, C,
    light, PU) of the first threshold, having printed the header and the
    lines of the categories before it, and createJetTreeTC ends with that
    exception, before the tree is written; if every category has a track (or
    there is no threshold to report), the report completes and the tree is
    written. *)
Theorem C4_report_after_pass
        (TTreeFormula : string -> Event -> nat -> Q)
        (EvaluateMVA : string -> string -> list Q -> Q)
        (isfile : string -> bool) (float32 : Q -> Q)
        (rootFiles : list (list Event)) (trackCut : option string)
        (trackMVA : option MVA) (w w1 w2 : World)
        (cs : option trackCutSelector) (ms : option trackMVASelector) (n : nat)
        (c : Counters) (out : OutVariables) (T : list Row) :
  setup isfile trackCut trackMVA w = (inr (cs, ms, n), w1) ->
  eventLoop TTreeFormula EvaluateMVA float32 cs ms n (concat rootFiles) w1 =
    (inr (c, out, T), w2) ->
  (1 <= n ->
   nTotTracksB c = 0 \/ nTotTracksC c = 0 \/ nTotTracksLight c = 0 \/ nTotTracksPU c = 0 ->
   createJetTreeTC TTreeFormula EvaluateMVA isfile float32 rootFiles
                   trackCut trackMVA w =
   (inl ZeroDivisionError,
    mkWorld (slots w2) (calls w2)
            (stdout w2 ++ [Str ""] ::
             firstn (S (firstZeroCategory c)) (reportLines trackMVA c 0))))
  /\ (n = 0 \/
      (nTotTracksB c <> 0 /\ nTotTracksC c <> 0 /\
       nTotTracksLight c <> 0 /\ nTotTracksPU c <> 0) ->
      fst (createJetTreeTC TTreeFormula EvaluateMVA isfile float32 rootFiles
                           trackCut trackMVA w) = inr T).
Proof.
  intros Hsetup Hloop.
  destruct (setup_inr isfile trackCut trackMVA _ _ _ _ _ Hsetup) as [-> [-> ->]].
  split.
  - intros Hn Hz. apply someTotalZero_true in Hz.
    destruct (eventLoop_inr TTreeFormula EvaluateMVA float32 rootFiles trackCut trackMVA
                _ _ _ _ _ Hloop) as [Hc _].
    unfold createJetTreeTC.
    rewrite (bind_ok _ _ _ _ _ _ _ Hsetup). cbn beta iota.
    rewrite (bind_ok _ _ _ _ _ _ _ Hloop). cbn beta iota.
    unfold bind at 1. unfold print at 1. cbn beta iota.
    erewrite bind_raises by (apply report_stops; [exact Hc | exact Hn | exact Hz]).
    cbn [slots calls stdout]. rewrite <- app_assoc. reflexivity.
  - rewrite (createJetTreeTC_after_pass TTreeFormula EvaluateMVA isfile float32 rootFiles
               trackCut trackMVA w w1 c out T w2 Hsetup Hloop).
    intros [Hn | Hnz].
    + rewrite Hn. reflexivity.
    + apply someTotalZero_false in Hnz. rewrite Hnz, andb_false_r. reflexivity.
Qed.

Lemma C4_report_after_pass_witness :
  createJetTreeTC exFormula exMVA (fun _ => true) (fun x => x) [[eventLight]]
                  None None world0 =
  (inl ZeroDivisionError,
   mkWorld [] []
           [[Str ""]; [Str ""]; [Str "Will loop over "; Int 1; Str " events."];
            [Str ""]; [Str "Non-MVA cuts:"]]).
Proof.
  assert (H := fun w1 w2 cs ms n c out T Hs Hl =>
                 proj1 (C4_report_after_pass exFormula exMVA (fun _ => true) (fun x => x)
                          [[eventLight]] None None world0 w1 w2 cs ms n c out T Hs Hl)).
  eapply eq_trans.
  - eapply H.
    + vm_compute. reflexivity.
    + vm_compute. reflexivity.
    + lia.
    + left. vm_compute. reflexivity.
  - vm_compute. reflexivity.
Defined.

(** C1.  One b jet whose two tracks, of significance 1 and 5, are both
    accepted: the row holds the count 2, but Jet_Ip is 1 (the first accepted
    track) and TCHE is 5, where the sorted list gives 5 and 1.  The list
    returned by [sorted] is dropped. *)
Theorem C1_top_is_first_accepted :
  selected exFormula exMVA (fun x => x) None None event4 0 0 = [(0, 1%Q); (1, 5%Q)] /\
  (exists rows w',
      createJetTreeTC exFormula exMVA (fun _ => true) (fun x => x) [[event4]]
                      None None world0 = (inr rows, w') /\
      option_map vectors (hd_error rows) = Some (mkOut [2%Q] [1%Q] [5%Q] [sentinel])) /\
  spec_record [(0, 1%Q); (1, 5%Q)] = (2%Q, 5%Q, 1%Q, sentinel).
Proof.
  split; [vm_compute; reflexivity |]. split; [| vm_compute; reflexivity].
  vm_compute. do 2 eexists. split; reflexivity.
Qed.

(** C5.  In the loop over the thresholds, threshold i pushes one entry
    onto each of the four vectors when its selected-track list is non-empty
    and nothing otherwise; so in the tree that is written the rows are those
    of the jets with a non-empty list, each Jet_nseltracks vector holds the
    lengths of that jet's non-empty selected-track lists, every such count is
    at least 1, and a jet whose lists are all empty has no row. *)
Theorem C5_entry_iff_nonempty
        (TTreeFormula : string -> Event -> nat -> Q)
        (EvaluateMVA : string -> string -> list Q -> Q)
        (isfile : string -> bool) (float32 : Q -> Q)
        (rootFiles : list (list Event)) (trackCut : option string)
        (trackMVA : option MVA) :
  (forall (sel : SelTracks) i out b w out' b' w',
      i < length sel ->
      emitBody sel i (out, b) w = (inr (out', b'), w') ->
      if nonEmpty (nth i sel []) then
        Jet_nseltracks out' = Jet_nseltracks out ++ [Qnat (length (nth i sel []))] /\
        length (Jet_Ip out') = S (length (Jet_Ip out)) /\
        length (TCHE out') = S (length (TCHE out)) /\
        length (TCHP out') = S (length (TCHP out)) /\
        b' = true
      else out' = out /\ b' = b)
  /\
  (forall w rows w',
      createJetTreeTC TTreeFormula EvaluateMVA isfile float32 rootFiles
                      trackCut trackMVA w = (inr rows, w') ->
      Forall2
        (fun jet row =>
           Jet_nseltracks (vectors row) =
           map (fun l => Qnat (length l))
               (filter nonEmpty
                  (selTracksOf TTreeFormula EvaluateMVA float32 (cutSelOf trackCut)
                               (mvaSelOf trackMVA) (nCutsOf trackMVA)
                               (fst jet) (snd jet))) /\
           Forall (fun x => (1 <= x)%Q) (Jet_nseltracks (vectors row)))
        (filter (jetSelected TTreeFormula EvaluateMVA float32 (cutSelOf trackCut)
                             (mvaSelOf trackMVA) (nCutsOf trackMVA))
                (jetsOf (concat rootFiles)))
        rows).
Proof.
  split.
  - intros sel i out b w out' b' w' Hi H. exact (emitBody_push sel i out b w out' b' w' Hi H).
  - intros w rows w' H.
    apply createJetTreeTC_inr in H. destruct H as [_ ->].
    apply Forall2_map_right. intros jet _.
    unfold rowOf, emitted. cbn [vectors Jet_nseltracks]. split; [reflexivity |].
    apply Forall_forall. intros x Hx.
    apply in_map_iff in Hx. destruct Hx as [l [<- Hl]].
    apply filter_In in Hl. destruct Hl as [_ Hl].
    apply Qnat_ge_1, nonEmpty_length. exact Hl.
Qed.

Lemma C5_entry_iff_nonempty_witness :
  Forall2
    (fun jet row =>
       Jet_nseltracks (vectors row) =
       map (fun l => Qnat (length l))
           (filter nonEmpty
              (selTracksOf exFormula exMVA (fun x => x)
                           (cutSelOf (Some "Track_IPsig>2"%string))
                           (mvaSelOf (Some exMVAdict)) (nCutsOf (Some exMVAdict))
                           (fst jet) (snd jet))) /\
       Forall (fun x => (1 <= x)%Q) (Jet_nseltracks (vectors row)))
    (filter (jetSelected exFormula exMVA (fun x => x)
                         (cutSelOf (Some "Track_IPsig>2"%string))
                         (mvaSelOf (Some exMVAdict)) (nCutsOf (Some exMVAdict)))
            (jetsOf (concat [[event4]])))
    (rowsOf exRun).
Proof.
  apply (proj2 (C5_entry_iff_nonempty exFormula exMVA (fun _ => true) (fun x => x)
                  [[event4]] (Some "Track_IPsig>2"%string) (Some exMVAdict))
               world0 (rowsOf exRun) (snd exRun)).
  vm_compute. reflexivity.
Defined.

(** C10.  In every row written by createJetTreeTC the vectors
    Jet_nseltracks, Jet_Ip, TCHE and TCHP have the same length, the number
    of thresholds whose selected-track list is non-empty for the jet of that
    row, which lies between 1 and nCuts; and the loop over the jets leaves
    the vectors cleared after every jet. *)
Theorem C10_vectors_aligned
        (TTreeFormula : string -> Event -> nat -> Q)
        (EvaluateMVA : string -> string -> list Q -> Q)
        (isfile : string -> bool) (float32 : Q -> Q)
        (rootFiles : list (list Event)) (trackCut : option string)
        (trackMVA : option MVA) (w w' : World) (rows : list Row) :
  createJetTreeTC TTreeFormula EvaluateMVA isfile float32 rootFiles
                  trackCut trackMVA w = (inr rows, w') ->
  Forall2
    (fun jet row =>
       length (Jet_nseltracks (vectors row)) =
         length (filter nonEmpty
                   (selTracksOf TTreeFormula EvaluateMVA float32 (cutSelOf trackCut)
                                (mvaSelOf trackMVA) (nCutsOf trackMVA)
                                (fst jet) (snd jet))) /\
       length (Jet_Ip (vectors row)) = length (Jet_nseltracks (vectors row)) /\
       length (TCHE (vectors row)) = length (Jet_nseltracks (vectors row)) /\
       length (TCHP (vectors row)) = length (Jet_nseltracks (vectors row)) /\
       1 <= length (Jet_nseltracks (vectors row)) <= nCutsOf trackMVA)
    (filter (jetSelected TTreeFormula EvaluateMVA float32 (cutSelOf trackCut)
                         (mvaSelOf trackMVA) (nCutsOf trackMVA))
            (jetsOf (concat rootFiles)))
    rows
  /\
  (forall tree jetInd s w0 s' w0',
      jetBody TTreeFormula EvaluateMVA float32 (cutSelOf trackCut) (mvaSelOf trackMVA)
              (nCutsOf trackMVA) tree jetInd s w0 = (inr s', w0') ->
      snd (fst s') = mkOut [] [] [] []).
Proof.
  intros H. split.
  - apply createJetTreeTC_inr in H. destruct H as [_ ->].
    apply Forall2_map_right. intros jet Hjet.
    apply filter_In in Hjet. destruct Hjet as [_ Hsel].
    unfold jetSelected in Hsel.
    unfold rowOf, emitted. cbn [vectors Jet_nseltracks Jet_Ip TCHE TCHP].
    rewrite !length_map.
    repeat split.
    + apply existsb_filter_nonempty. exact Hsel.
    + eapply Nat.le_trans; [apply filter_length_le |].
      unfold selTracksOf, range. rewrite length_map, length_seq. apply Nat.le_refl.
  - intros tree jetInd s w0 s' w0' Hj. eapply jetBody_clears. exact Hj.
Qed.

Lemma C10_vectors_aligned_witness :
  Forall2
    (fun jet row =>
       length (Jet_nseltracks (vectors row)) =
         length (filter nonEmpty
                   (selTracksOf exFormula exMVA (fun x => x)
                                (cutSelOf (Some "Track_IPsig>2"%string))
                                (mvaSelOf (Some exMVAdict)) (nCutsOf (Some exMVAdict))
                                (fst jet) (snd jet))) /\
       length (Jet_Ip (vectors row)) = length (Jet_nseltracks (vectors row)) /\
       length (TCHE (vectors row)) = length (Jet_nseltracks (vectors row)) /\
       length (TCHP (vectors row)) = length (Jet_nseltracks (vectors row)) /\
       1 <= length (Jet_nseltracks (vectors row)) <= nCutsOf (Some exMVAdict))
    (filter (jetSelected exFormula exMVA (fun x => x)
                         (cutSelOf (Some "Track_IPsig>2"%string))
                         (mvaSelOf (Some exMVAdict)) (nCutsOf (Some exMVAdict)))
            (jetsOf (concat [[event4]])))
    (rowsOf exRun).
Proof.
  refine (proj1 (C10_vectors_aligned exFormula exMVA (fun _ => true) (fun x => x)
                   [[event4]] (Some "Track_IPsig>2"%string) (Some exMVAdict)
                   world0 (snd exRun) (rowsOf exRun) _)).
  vm_compute. reflexivity.
Defined.

(** * Further properties *)

(** ** createJetTreeTC: the set-up *)

(** X1.  When a classifier is configured and its weights file does not
    exist, createJetTreeTC raises the exception "Error: file ... does not
    exist." before any entry is read: no formula and no classifier call is
    made and the classifier's slots are untouched. *)
Theorem X1_missing_weights_file
        (TTreeFormula : string -> Event -> nat -> Q)
        (EvaluateMVA : string -> string -> list Q -> Q)
        (isfile : string -> bool) (float32 : Q -> Q)
        (rootFiles : list (list Event)) (trackCut : option string)
        (m : MVA) (w : World) :
  isfile (mva_path m) = false ->
  exists w',
    createJetTreeTC TTreeFormula EvaluateMVA isfile float32 rootFiles trackCut (Some m) w =
      (inl (Exception [Str "Error: file "; Str (mva_path m); Str " does not exist."]), w')
    /\ calls w' = calls w /\ slots w' = slots w.
Proof.
  intros Hfile. unfold createJetTreeTC, setup.
  destruct trackCut as [cut |]; unfold bind, print, ret, raise; cbn [slots calls stdout];
    rewrite Hfile; cbn [negb]; eexists; repeat split.
Qed.

Lemma X1_missing_weights_file_witness :
  exists w',
    createJetTreeTC exFormula exMVA (fun _ => false) (fun x => x) [[event4]]
                    (Some "Track_IPsig>2"%string) (Some exMVAdict) world0 =
      (inl (Exception [Str "Error: file "; Str (mva_path exMVAdict);
                       Str " does not exist."]), w')
    /\ calls w' = calls world0 /\ slots w' = slots world0.
Proof.
  apply (X1_missing_weights_file exFormula exMVA (fun _ => false) (fun x => x) [[event4]]
           (Some "Track_IPsig>2"%string) exMVAdict world0).
  reflexivity.
Defined.

(** ** createJetTreeTC: writes out of the vectors' range *)

Lemma writesInRange_false_all (sel : SelTracks) :
  writesInRange false sel = false <->
  exists i, i < length sel /\ 2 <= length (nth i sel []).
Proof.
  induction sel as [| l sel IH].
  - cbn. split; [discriminate | intros [i [Hi _]]; lia].
  - cbn [writesInRange]. destruct (nonEmpty l) eqn:Hl.
    + rewrite orb_false_r, andb_false_iff, IH, Nat.leb_gt. split.
      * intros [H | [i [Hi H]]].
        -- exists 0. cbn [length nth]. split; lia.
        -- exists (S i). cbn [length nth]. split; [lia | exact H].
      * intros [[| i] [Hi H]]; cbn [length nth] in *.
        -- left. lia.
        -- right. exists i. split; [lia | exact H].
    + rewrite IH. split.
      * intros [i [Hi H]]. exists (S i). cbn [length nth]. split; [lia | exact H].
      * intros [[| i] [Hi H]]; cbn [length nth] in *.
        -- unfold nonEmpty in Hl. destruct l; [cbn in H; lia | discriminate].
        -- exists i. split; [lia | exact H].
Qed.

(** A write goes out of range exactly when a list of two tracks or more
    comes after an empty list. *)
Lemma writesInRange_true_false (sel : SelTracks) :
  writesInRange true sel = false <->
  exists i j, j < i /\ i < length sel /\
              nth j sel [] = [] /\ 2 <= length (nth i sel []).
Proof.
  induction sel as [| l sel IH].
  - cbn. split; [discriminate | intros [i [j [_ [Hi _]]]]; lia].
  - cbn [writesInRange]. destruct (nonEmpty l) eqn:Hl.
    + rewrite orb_true_r. cbn [andb]. rewrite IH. split.
      * intros [i [j [Hji [Hi [Hj H]]]]]. exists (S i), (S j). cbn [length nth].
        repeat split; try lia; assumption.
      * intros [[| i] [[| j] [Hji [Hi [Hj H]]]]]; cbn [length nth] in *; try lia.
        -- subst l. discriminate.
        -- exists i, j. repeat split; try lia; assumption.
    + rewrite writesInRange_false_all. split.
      * intros [i [Hi H]]. exists (S i), 0. cbn [length nth].
        split; [lia |]. split; [lia |]. split; [| exact H].
        unfold nonEmpty in Hl. destruct l; [reflexivity | discriminate].
      * intros [[| i] [j [Hji [Hi [Hj H]]]]]; cbn [length nth] in *; [lia |].
        exists i. split; [lia | exact H].
Qed.

Lemma forallb_false_exists (A : Type) (f : A -> bool) (l : list A) :
  forallb f l = false <-> exists a, In a l /\ f a = false.
Proof.
  induction l as [| a l IH]; cbn [forallb].
  - split; [discriminate | intros [a [[] _]]].
  - rewrite andb_false_iff, IH. split.
    + intros [H | [b [Hb H]]]; [exists a | exists b]; split; auto; [left | right]; auto.
    + intros [b [[<- | Hb] H]]; [left; exact H | right; exists b; split; assumption].
Qed.

Section Outcome.
Variable TTreeFormula : string -> Event -> nat -> Q.
Variable EvaluateMVA : string -> string -> list Q -> Q.
Variable isfile : string -> bool.
Variable float32 : Q -> Q.
Variable rootFiles : list (list Event).
Variable trackCut : option string.
Variable trackMVA : option MVA.
Hypothesis file_exists : forall m, trackMVA = Some m -> isfile (mva_path m) = true.

(** The three ways createJetTreeTC can end when the weights file is
    there. *)
Lemma createJetTreeTC_outcome w :
  exists c,
    wfCounters (nCutsOf trackMVA) c /\
    fst (createJetTreeTC TTreeFormula EvaluateMVA isfile float32 rootFiles
                         trackCut trackMVA w) =
    if forallb (jetWritesInRange TTreeFormula EvaluateMVA float32 (cutSelOf trackCut)
                                 (mvaSelOf trackMVA) (nCutsOf trackMVA))
               (jetsOf (concat rootFiles))
    then if (0 <? nCutsOf trackMVA) && someTotalZero c
         then inl ZeroDivisionError
         else inr (map (rowOf TTreeFormula EvaluateMVA float32 (cutSelOf trackCut)
                              (mvaSelOf trackMVA) (nCutsOf trackMVA))
                       (filter (jetSelected TTreeFormula EvaluateMVA float32
                                            (cutSelOf trackCut) (mvaSelOf trackMVA)
                                            (nCutsOf trackMVA))
                               (jetsOf (concat rootFiles))))
    else inl VectorOutOfRange.
Proof.
  destruct (setup_run isfile trackCut trackMVA w) as [w1 Hsetup].
  assert (Hs : setup isfile trackCut trackMVA w =
               (inr (cutSelOf trackCut, mvaSelOf trackMVA, nCutsOf trackMVA), w1)).
  { rewrite Hsetup. destruct trackMVA as [m |]; [| reflexivity].
    rewrite (file_exists m eq_refl). reflexivity. }
  destruct (eventLoop_run TTreeFormula EvaluateMVA float32 (cutSelOf trackCut)
              (mvaSelOf trackMVA) (nCutsOf trackMVA) (cuts_length_of trackMVA)
              (concat rootFiles) w1) as [c [w2 [Hc Hloop]]].
  exists c. split; [exact Hc |].
  destruct (forallb _ (jetsOf (concat rootFiles))).
  - apply (createJetTreeTC_after_pass TTreeFormula EvaluateMVA isfile float32 rootFiles
             trackCut trackMVA w w1 c _ _ w2 Hs Hloop).
  - unfold createJetTreeTC. rewrite (bind_ok _ _ _ _ _ _ _ Hs). cbn beta iota.
    rewrite (bind_raises _ _ _ _ _ _ _ Hloop). reflexivity.
Qed.

End Outcome.

Lemma nth_selTracksOf TTreeFormula EvaluateMVA float32 cs ms n tree jetInd i :
  i < n ->
  nth i (selTracksOf TTreeFormula EvaluateMVA float32 cs ms n tree jetInd) [] =
  selected TTreeFormula EvaluateMVA float32 cs ms tree jetInd i.
Proof.
  intros Hi. unfold selTracksOf, range.
  rewrite (nth_indep _ [] (selected TTreeFormula EvaluateMVA float32 cs ms tree jetInd 0))
    by (rewrite length_map, length_seq; exact Hi).
  rewrite map_nth, seq_nth by exact Hi. reflexivity.
Qed.

(** The check of the model on the writes TCHE[i] and TCHP[i], in terms of
    the selected tracks: no jet has, for two thresholds j < i, an empty
    list under j and two tracks or more under i. *)
Lemma writesStayInRange_iff
      (TTreeFormula : string -> Event -> nat -> Q)
      (EvaluateMVA : string -> string -> list Q -> Q) (float32 : Q -> Q)
      (trackCut : option string) (trackMVA : option MVA) (jets : list (Event * nat)) :
  writesStayInRange TTreeFormula EvaluateMVA float32 trackCut trackMVA jets <->
  forallb (jetWritesInRange TTreeFormula EvaluateMVA float32 (cutSelOf trackCut)
                            (mvaSelOf trackMVA) (nCutsOf trackMVA)) jets = true.
Proof.
  set (inRange := jetWritesInRange TTreeFormula EvaluateMVA float32 (cutSelOf trackCut)
                                   (mvaSelOf trackMVA) (nCutsOf trackMVA)).
  assert (Hlen : forall jet,
             length (selTracksOf TTreeFormula EvaluateMVA float32 (cutSelOf trackCut)
                                 (mvaSelOf trackMVA) (nCutsOf trackMVA)
                                 (fst jet) (snd jet)) = nCutsOf trackMVA).
  { intros jet. unfold selTracksOf, range. rewrite length_map. apply length_seq. }
  unfold writesStayInRange. split.
  - intros H. destruct (forallb inRange jets) eqn:Hall; [reflexivity |].
    apply forallb_false_exists in Hall. destruct Hall as [jet [Hjet Hr]].
    unfold inRange, jetWritesInRange in Hr.
    apply writesInRange_true_false in Hr. destruct Hr as [i [j [Hji [Hi [Hj H2]]]]].
    rewrite Hlen in Hi.
    rewrite nth_selTracksOf in Hj by lia. rewrite nth_selTracksOf in H2 by lia.
    specialize (H jet i j Hjet Hji Hi Hj). lia.
  - intros Hall jet i j Hjet Hji Hi Hj.
    rewrite forallb_forall in Hall. specialize (Hall jet Hjet).
    destruct (Nat.le_gt_cases
                (length (selected TTreeFormula EvaluateMVA float32 (cutSelOf trackCut)
                                  (mvaSelOf trackMVA) (fst jet) (snd jet) i)) 1)
      as [Hle | Hgt]; [exact Hle | exfalso].
    assert (Hf : inRange jet = false).
    { unfold inRange, jetWritesInRange. apply writesInRange_true_false.
      exists i, j. rewrite Hlen, !nth_selTracksOf by lia.
      repeat split; try assumption; lia. }
    rewrite Hf in Hall. discriminate.
Qed.

(** X3.  On a chain of at most one file, without a classifier or with cut
    values in increasing order (and the weights file in place),
    createJetTreeTC never writes out of a vector's range: it either returns
    the tree, one row per jet with a selected track, or stops in the report
    with ZeroDivisionError.  (On a chain of several files the formulas
    would have to follow the change of file; only the last one registered
    with SetNotify does.) *)
Theorem X3_increasing_cuts_no_out_of_range
        (TTreeFormula : string -> Event -> nat -> Q)
        (EvaluateMVA : string -> string -> list Q -> Q)
        (isfile : string -> bool) (float32 : Q -> Q)
        (rootFiles : list (list Event)) (trackCut : option string)
        (trackMVA : option MVA) (w : World) :
  length rootFiles <= 1 ->
  (forall m, trackMVA = Some m -> isfile (mva_path m) = true) ->
  (forall m, trackMVA = Some m ->
             forall i j, j <= i -> i < length (mva_cuts m) ->
                         (nth j (mva_cuts m) 0 <= nth i (mva_cuts m) 0)%Q) ->
  fst (createJetTreeTC TTreeFormula EvaluateMVA isfile float32 rootFiles
                       trackCut trackMVA w) =
    inr (map (rowOf TTreeFormula EvaluateMVA float32 (cutSelOf trackCut)
                    (mvaSelOf trackMVA) (nCutsOf trackMVA))
             (filter (jetSelected TTreeFormula EvaluateMVA float32 (cutSelOf trackCut)
                                  (mvaSelOf trackMVA) (nCutsOf trackMVA))
                     (jetsOf (concat rootFiles))))
  \/ fst (createJetTreeTC TTreeFormula EvaluateMVA isfile float32 rootFiles
                          trackCut trackMVA w) = inl ZeroDivisionError.
Proof.
  intros _ Hfile Hasc.
  destruct (createJetTreeTC_outcome TTreeFormula EvaluateMVA isfile float32 rootFiles
              trackCut trackMVA Hfile w) as [c [_ ->]].
  replace (forallb _ (jetsOf (concat rootFiles))) with true.
  - destruct ((0 <? nCutsOf trackMVA) && someTotalZero c); [right | left]; reflexivity.
  - symmetry. apply forallb_forall. intros jet _.
    apply jetWritesInRange_ascending.
    intros sel Hsel i j Hji Hi. destruct trackMVA as [m |]; [| discriminate].
    injection Hsel as <-. cbn [sel_cuts]. apply (Hasc m eq_refl); assumption.
Qed.

Lemma X3_increasing_cuts_witness :
  fst exRun = inr (map (rowOf exFormula exMVA (fun x => x)
                              (cutSelOf (Some "Track_IPsig>2"%string))
                              (mvaSelOf (Some exMVAdict)) (nCutsOf (Some exMVAdict)))
                       (filter (jetSelected exFormula exMVA (fun x => x)
                                            (cutSelOf (Some "Track_IPsig>2"%string))
                                            (mvaSelOf (Some exMVAdict))
                                            (nCutsOf (Some exMVAdict)))
                               (jetsOf (concat [[event4]]))))
  \/ fst exRun = inl ZeroDivisionError.
Proof.
  apply (X3_increasing_cuts_no_out_of_range exFormula exMVA (fun _ => true) (fun x => x)
           [[event4]] (Some "Track_IPsig>2"%string) (Some exMVAdict) world0).
  - cbn. lia.
  - intros m _. reflexivity.
  - intros m Hm. injection Hm as <-. cbn [mva_cuts exMVAdict length].
    intros [| [| i]] [| [| j]] Hji Hi; cbn [nth]; try lia;
      unfold Qle; cbn; lia.
Defined.

(** ** createJetTreeTC: the counters *)

Lemma list_sum_cons (a : nat) (l : list nat) : list_sum (a :: l) = a + list_sum l.
Proof. reflexivity. Qed.

(** A loop whose body adds a known amount to each counter. *)
Section ForSum.
Variables A S X : Type.
Variable f : A -> S -> M S.
Variable Inv : S -> Prop.
Variable mu : S -> X -> nat.
Variable d : A -> X -> nat.
Variable dom : A -> Prop.

Hypothesis body_adds : forall a s w s' w',
  dom a -> Inv s -> f a s w = (inr s', w') ->
  Inv s' /\ forall x, mu s' x = mu s x + d a x.

Lemma for_adds (l : list A) :
  Forall dom l -> forall s w s' w',
  Inv s -> for_ l f s w = (inr s', w') ->
  Inv s' /\ forall x, mu s' x = mu s x + list_sum (map (fun a => d a x) l).
Proof.
  induction 1 as [| a l Ha _ IH]; intros s w s' w' Hs Hrun.
  - cbn in Hrun. unfold ret in Hrun. injection Hrun as <- _.
    split; [exact Hs |]. intros x. cbn. lia.
  - cbn [for_] in Hrun. apply bind_inv in Hrun.
    destruct Hrun as [s1 [w1 [Hf Hrest]]].
    destruct (body_adds a s w s1 w1 Ha Hs Hf) as [Hs1 Hmu1].
    destruct (IH s1 w1 s' w' Hs1 Hrest) as [Hs' Hmu'].
    split; [exact Hs' |]. intros x. rewrite Hmu', Hmu1. cbn [map]. rewrite list_sum_cons. lia.
Qed.

End ForSum.

Lemma nth_update (A : Type) (f : A -> A) (d : A) (l : list A) i j :
  i < length l ->
  nth j (update l i f) d = if j =? i then f (nth i l d) else nth j l d.
Proof.
  revert i j. induction l as [| a l IH]; intros i j Hi; cbn [length] in Hi; [lia |].
  destruct i as [| i], j as [| j]; cbn [update nth Nat.eqb]; try reflexivity.
  apply IH. lia.
Qed.

Lemma list_sum_indicator (p : nat -> bool) (j n : nat) :
  list_sum (map (fun i => if p i && (j =? i) then 1 else 0) (seq 0 n)) =
  if (j <? n) && p j then 1 else 0.
Proof.
  induction n as [| n IH].
  - reflexivity.
  - rewrite seq_S, map_app, list_sum_app, IH. cbn [map Nat.add]. rewrite list_sum_cons.
    cbn [list_sum fold_right].
    destruct (Nat.eqb_spec j n) as [-> | Hne].
    + rewrite Nat.ltb_irrefl. destruct (Nat.ltb_spec n (S n)); [| lia].
      cbn [andb]. rewrite andb_true_r. destruct (p n); reflexivity.
    + rewrite andb_false_r.
      destruct (Nat.ltb_spec j n), (Nat.ltb_spec j (S n)); try lia;
        cbn [andb]; destruct (p j); reflexivity.
Qed.

Lemma list_sum_filter_length (A : Type) (p : A -> bool) (b : bool) (l : list A) :
  list_sum (map (fun a => if b && p a then 1 else 0) l) =
  if b then length (filter p l) else 0.
Proof.
  induction l as [| a l IH]; cbn [map filter].
  - destruct b; reflexivity.
  - rewrite list_sum_cons, IH. destruct b, (p a); cbn; lia.
Qed.

Lemma list_sum_flat_map (A B : Type) (G : A -> list B) (h : B -> nat) (l : list A) :
  list_sum (map h (flat_map G l)) = list_sum (map (fun a => list_sum (map h (G a))) l).
Proof.
  induction l as [| a l IH]; [reflexivity |].
  cbn [flat_map map]. rewrite map_app, list_sum_app, list_sum_cons, IH. reflexivity.
Qed.

Lemma list_sum_le (A : Type) (h1 h2 : A -> nat) (l : list A) :
  (forall a, In a l -> h1 a <= h2 a) ->
  list_sum (map h1 l) <= list_sum (map h2 l).
Proof.
  induction l as [| a l IH]; intros H; [apply Nat.le_refl |].
  cbn [map]. rewrite !list_sum_cons. pose proof (H a (or_introl eq_refl)).
  assert (list_sum (map h1 l) <= list_sum (map h2 l))
    by (apply IH; intros b Hb; apply H; right; exact Hb).
  lia.
Qed.

(** Lines 160-168 add one to the selected counter of threshold [i] in the
    category of the jet. *)
Lemma countSelected_adds n tree jetInd i c w c' w' :
  wfCounters n c -> i < n ->
  countSelected tree jetInd i c w = (inr c', w') ->
  wfCounters n c' /\
  forall x, counterAt c' x =
            counterAt c x +
            match snd x with
            | Some j => if inCategory tree jetInd (fst x) && (j =? i) then 1 else 0
            | None => 0
            end.
Proof.
  unfold wfCounters, countSelected, counterAt, selectedOf, totalOf, inCategory.
  intros [HB [HL [HC HP]]] Hi.
  destruct c as [sB tB sL tL sC tC sP tP].
  cbn [nSelTracksB nSelTracksC nSelTracksLight nSelTracksPU
       nTotTracksB nTotTracksC nTotTracksLight nTotTracksPU] in *.
  destruct (Qle_bool 8 (Jet_genpt tree jetInd));
    [destruct (isB tree jetInd), (isC tree jetInd), (isLight tree jetInd) |];
    unfold bind, ret;
    repeat (cbn beta iota delta [nSelTracksB nSelTracksC nSelTracksLight nSelTracksPU
              nTotTracksB nTotTracksC nTotTracksLight nTotTracksPU];
            rewrite setitem_run by (rewrite ?update_length; lia));
    cbn beta iota delta [nSelTracksB nSelTracksC nSelTracksLight nSelTracksPU
              nTotTracksB nTotTracksC nTotTracksLight nTotTracksPU];
    intros H; injection H as <- _;
    cbn [nSelTracksB nSelTracksC nSelTracksLight nSelTracksPU
         nTotTracksB nTotTracksC nTotTracksLight nTotTracksPU];
    rewrite ?update_length;
    (split; [repeat split; assumption |]);
    intros [[| | |] [j |]]; cbn [fst snd andb negb];
    rewrite ?(nth_update _ _ 0) by lia;
    try (destruct (Nat.eqb_spec j i); subst); lia.
Qed.

Lemma list_sum_zero (A : Type) (l : list A) : list_sum (map (fun _ => 0) l) = 0.
Proof. induction l as [| a l IH]; [reflexivity |]. cbn [map]. rewrite list_sum_cons, IH. reflexivity. Qed.

Lemma list_sum_const (A : Type) (b : bool) (l : list A) :
  list_sum (map (fun _ => if b then 1 else 0) l) = if b then length l else 0.
Proof.
  induction l as [| a l IH]; cbn [map length].
  - destruct b; reflexivity.
  - rewrite list_sum_cons, IH. destruct b; lia.
Qed.

Lemma list_sum_plus (A : Type) (h1 h2 : A -> nat) (l : list A) :
  list_sum (map (fun a => h1 a + h2 a) l) = list_sum (map h1 l) + list_sum (map h2 l).
Proof.
  induction l as [| a l IH]; [reflexivity |].
  cbn [map]. rewrite !list_sum_cons, IH. lia.
Qed.

Lemma list_sum_combine_seq (A : Type) (F : A -> nat) (l : list A) :
  forall a, list_sum (map (fun p : nat * A => F (snd p)) (combine (seq a (length l)) l)) =
            list_sum (map F l).
Proof.
  induction l as [| x l IH]; intros a; [reflexivity |].
  cbn [length seq combine map snd]. rewrite !list_sum_cons, IH. reflexivity.
Qed.

(** Lines 137-145 add one to the total of the category of the jet. *)
Lemma countTotal_adds tree jetInd c x :
  counterAt (countTotal tree jetInd c) x =
  counterAt c x +
  match snd x with
  | None => if inCategory tree jetInd (fst x) then 1 else 0
  | Some _ => 0
  end.
Proof.
  unfold countTotal, counterAt, selectedOf, totalOf, inCategory.
  destruct c as [sB tB sL tL sC tC sP tP].
  destruct x as [[| | |] [j |]]; cbn [fst snd];
    destruct (Qle_bool 8 (Jet_genpt tree jetInd)),
      (isB tree jetInd), (isC tree jetInd), (isLight tree jetInd);
    cbn; lia.
Qed.

Lemma selectBody_adds n tree jetInd track keep i c sel w s' w' :
  wfCounters n c -> length sel = n -> length keep = n -> i < n ->
  selectBody tree jetInd track keep i (c, sel) w = (inr s', w') ->
  (wfCounters n (fst s') /\ length (snd s') = n) /\
  forall x, counterAt (fst s') x =
            counterAt c x +
            match snd x with
            | Some j => if (nth i keep false && inCategory tree jetInd (fst x)) && (j =? i)
                        then 1 else 0
            | None => 0
            end.
Proof.
  intros Hc Hsel Hkeep Hi. unfold selectBody.
  unfold bind at 1. rewrite (getitem_run _ false) by lia.
  destruct (nth i keep false); cbn [andb].
  - intros H. apply bind_inv in H. destruct H as [c1 [w1 [Hcs H]]].
    destruct (countSelected_adds n tree jetInd i c w c1 w1 Hc Hi Hcs) as [Hc1 Hadd].
    unfold bind in H. rewrite setitem_run in H by lia. unfold ret in H.
    injection H as <- _. cbn [fst snd]. rewrite update_length.
    split; [split; assumption | exact Hadd].
  - unfold ret. intros H. injection H as <- _. cbn [fst snd].
    split; [split; assumption |]. intros [k [j |]]; cbn [snd]; lia.
Qed.

Lemma selectLoop_adds n tree jetInd track keep c sel w s' w' :
  wfCounters n c -> length sel = n -> length keep = n ->
  for_ (range n) (selectBody tree jetInd track keep) (c, sel) w = (inr s', w') ->
  (wfCounters n (fst s') /\ length (snd s') = n) /\
  forall x, counterAt (fst s') x =
            counterAt c x +
            match snd x with
            | Some j => if (j <? n) && (nth j keep false && inCategory tree jetInd (fst x))
                        then 1 else 0
            | None => 0
            end.
Proof.
  intros Hc Hsel Hkeep Hrun.
  destruct (for_adds nat (Counters * SelTracks) (Category * option nat)
              (selectBody tree jetInd track keep)
              (fun s => wfCounters n (fst s) /\ length (snd s) = n)
              (fun s x => counterAt (fst s) x)
              (fun i x => match snd x with
                          | Some j => if (nth i keep false
                                          && inCategory tree jetInd (fst x)) && (j =? i)
                                      then 1 else 0
                          | None => 0
                          end)
              (fun i => i < n)) with
    (l := range n) (s := (c, sel)) (w := w) (s' := s') (w' := w') as [Hinv Hadd].
  - intros i [c0 sel0] w0 s1 w1 Hi [Hc0 Hs0] H. cbn [fst snd] in *.
    exact (selectBody_adds n tree jetInd track keep i c0 sel0 w0 s1 w1 Hc0 Hs0 Hkeep Hi H).
  - apply Forall_forall. intros i Hi. apply in_seq in Hi. lia.
  - split; assumption.
  - exact Hrun.
  - split; [exact Hinv |]. intros [k [j |]]; rewrite Hadd; cbn [fst snd]; f_equal.
    + apply (list_sum_indicator (fun i => nth i keep false && inCategory tree jetInd k)).
    + apply list_sum_zero.
Qed.

Section CounterLoops.
Variable TTreeFormula : string -> Event -> nat -> Q.
Variable EvaluateMVA : string -> string -> list Q -> Q.
Variable float32 : Q -> Q.
Variable myTrackCutSel : option trackCutSelector.
Variable myTrackMVASel : option trackMVASelector.
Variable nCuts : nat.
Hypothesis cuts_length :
  forall sel, myTrackMVASel = Some sel -> length (sel_cuts sel) = nCuts.

Let acc := accepted TTreeFormula EvaluateMVA float32 myTrackCutSel myTrackMVASel.

Lemma trackBody_adds tree jetInd track c sel w s' w' :
  wfCounters nCuts c -> length sel = nCuts ->
  trackBody TTreeFormula EvaluateMVA float32 myTrackCutSel myTrackMVASel nCuts
            tree jetInd track (c, sel) w = (inr s', w') ->
  (wfCounters nCuts (fst s') /\ length (snd s') = nCuts) /\
  forall x, counterAt (fst s') x =
            counterAt c x +
            match snd x with
            | Some j => if (inCategory tree jetInd (fst x) && (j <? nCuts))
                           && acc tree track j then 1 else 0
            | None => if inCategory tree jetInd (fst x) then 1 else 0
            end.
Proof.
  intros Hc Hsel. unfold trackBody.
  destruct (keepTrackOf_run TTreeFormula EvaluateMVA float32 myTrackCutSel
              myTrackMVASel nCuts cuts_length tree track w) as [w1 [Hk _]].
  rewrite (bind_ok _ _ _ _ _ _ _ Hk). fold acc.
  pose proof (countTotal_wf nCuts tree jetInd c Hc) as Hc1.
  destruct (existsb (acc tree track) (range nCuts)) eqn:Hex.
  - intros Hrun.
    destruct (selectLoop_adds nCuts tree jetInd track (map (acc tree track) (range nCuts))
                (countTotal tree jetInd c) sel w1 s' w' Hc1 Hsel) as [Hinv Hadd];
      [unfold range; rewrite length_map; apply length_seq | exact Hrun |].
    split; [exact Hinv |]. intros [k [j |]]; rewrite Hadd, countTotal_adds; cbn [fst snd].
    + destruct (Nat.ltb_spec j nCuts) as [Hj | Hj].
      * rewrite nth_map_range by exact Hj.
        destruct (inCategory tree jetInd k), (acc tree track j); cbn; lia.
      * destruct (inCategory tree jetInd k), (acc tree track j); cbn; lia.
    + lia.
  - unfold ret. intros H. injection H as <- _. cbn [fst snd].
    split; [split; assumption |].
    intros [k [j |]]; rewrite countTotal_adds; cbn [fst snd]; [| reflexivity].
    destruct (Nat.ltb_spec j nCuts) as [Hj | Hj].
    + rewrite (existsb_false_In _ _ _ j Hex) by (apply in_seq; lia).
      rewrite andb_false_r. lia.
    + rewrite andb_false_r. cbn [andb]. lia.
Qed.

(** What one jet adds to the counters: its tracks to the total of its
    category, its selected tracks to the selected counter of each
    threshold. *)
Lemma jetBody_adds tree jetInd s w s' w' :
  wfCounters nCuts (fst (fst s)) ->
  jetBody TTreeFormula EvaluateMVA float32 myTrackCutSel myTrackMVASel nCuts
          tree jetInd s w = (inr s', w') ->
  wfCounters nCuts (fst (fst s')) /\
  forall x, counterAt (fst (fst s')) x =
            counterAt (fst (fst s)) x +
            match snd x with
            | Some j =>
                if inCategory tree jetInd (fst x) && (j <? nCuts)
                then length (selected TTreeFormula EvaluateMVA float32 myTrackCutSel
                                      myTrackMVASel tree jetInd j)
                else 0
            | None => if inCategory tree jetInd (fst x) then nTracks (tree, jetInd) else 0
            end.
Proof.
  destruct s as [[c out] T]. cbn [fst snd]. intros Hc. unfold jetBody. intros H.
  apply bind_inv in H. destruct H as [[c1 sel1] [w1 [Htracks H]]]. cbn beta iota in H.
  apply bind_inv in H. destruct H as [[out1 sj] [w2 [_ H]]]. cbn beta iota in H.
  unfold ret in H. injection H as <- _. cbn [fst snd].
  destruct (for_adds nat (Counters * SelTracks) (Category * option nat)
              (trackBody TTreeFormula EvaluateMVA float32 myTrackCutSel myTrackMVASel
                         nCuts tree jetInd)
              (fun s => wfCounters nCuts (fst s) /\ length (snd s) = nCuts)
              (fun s x => counterAt (fst s) x)
              (fun track x =>
                 match snd x with
                 | Some j => if (inCategory tree jetInd (fst x) && (j <? nCuts))
                                && acc tree track j then 1 else 0
                 | None => if inCategory tree jetInd (fst x) then 1 else 0
                 end)
              (fun _ => True)) with
    (l := xrange (Jet_nFirstTrack tree jetInd) (Jet_nLastTrack tree jetInd))
    (s := (c, map (fun _ : nat => @nil (nat * Q)) (range nCuts)))
    (w := w) (s' := (c1, sel1)) (w' := w1) as [[Hc1 _] Hadd].
  - intros t [c0 sel0] w0 s1 w3 _ [Hc0 Hs0] Hb. cbn [fst snd] in *.
    exact (trackBody_adds tree jetInd t c0 sel0 w0 s1 w3 Hc0 Hs0 Hb).
  - apply Forall_forall. intros; exact I.
  - cbn [fst snd]. split; [exact Hc |]. unfold range. rewrite length_map. apply length_seq.
  - exact Htracks.
  - cbn [fst snd] in *. split; [exact Hc1 |].
    intros [k [j |]]; rewrite Hadd; cbn [fst snd]; f_equal.
    + rewrite (list_sum_filter_length _ (fun t => acc tree t j)).
      unfold selected. rewrite length_map. reflexivity.
    + apply list_sum_const.
Qed.

Lemma eventLoop_adds (tree : list Event) w c out T w' :
  eventLoop TTreeFormula EvaluateMVA float32 myTrackCutSel myTrackMVASel nCuts tree w =
    (inr (c, out, T), w') ->
  forall x, counterAt c x =
            list_sum
              (map (fun jet =>
                      match snd x with
                      | Some j =>
                          if inCategory (fst jet) (snd jet) (fst x) && (j <? nCuts)
                          then length (selected TTreeFormula EvaluateMVA float32
                                                myTrackCutSel myTrackMVASel
                                                (fst jet) (snd jet) j)
                          else 0
                      | None => if inCategory (fst jet) (snd jet) (fst x)
                                then nTracks jet else 0
                      end)
                   (jetsOf tree)).
Proof.
  unfold eventLoop. intros H. apply bind_inv in H. destruct H as [[] [w0 [_ H]]].
  set (dJ := fun (jet : Event * nat) (x : Category * option nat) =>
               match snd x with
               | Some j =>
                   if inCategory (fst jet) (snd jet) (fst x) && (j <? nCuts)
                   then length (selected TTreeFormula EvaluateMVA float32
                                         myTrackCutSel myTrackMVASel
                                         (fst jet) (snd jet) j)
                   else 0
               | None => if inCategory (fst jet) (snd jet) (fst x)
                         then nTracks jet else 0
               end).
  set (Inv := fun s : LoopState => wfCounters nCuts (fst (fst s))).
  assert (Hevent : forall (p : nat * Event) (s : LoopState) w1 s1 w2,
             True -> Inv s ->
             eventBody TTreeFormula EvaluateMVA float32 myTrackCutSel myTrackMVASel nCuts
                       p s w1 = (inr s1, w2) ->
             Inv s1 /\
             forall x, counterAt (fst (fst s1)) x =
                       counterAt (fst (fst s)) x +
                       list_sum (map (fun j => dJ (snd p, j) x) (range (nJet (snd p))))).
  { intros [entry ev] s w1 s1 w2 _ Hs Hb. unfold eventBody in Hb.
    apply bind_inv in Hb. destruct Hb as [[] [w3 [_ Hb]]]. cbn [snd].
    apply (for_adds nat LoopState (Category * option nat)
             (jetBody TTreeFormula EvaluateMVA float32 myTrackCutSel myTrackMVASel nCuts ev)
             Inv (fun s x => counterAt (fst (fst s)) x)
             (fun j x => dJ (ev, j) x) (fun _ => True)) with (w := w3) (w' := w2).
    - intros j s2 w4 s3 w5 _ Hs2 Hj.
      exact (jetBody_adds ev j s2 w4 s3 w5 Hs2 Hj).
    - apply Forall_forall. intros; exact I.
    - exact Hs.
    - exact Hb. }
  destruct (for_adds (nat * Event) LoopState (Category * option nat)
              (eventBody TTreeFormula EvaluateMVA float32 myTrackCutSel myTrackMVASel nCuts)
              Inv (fun s x => counterAt (fst (fst s)) x)
              (fun p x => list_sum (map (fun j => dJ (snd p, j) x) (range (nJet (snd p)))))
              (fun _ => True) Hevent
              (combine (range (length tree)) tree))
    with (w := w0) (s' := (c, out, T)) (w' := w')
         (s := (mkCounters (repeat 0 nCuts) 0 (repeat 0 nCuts) 0
                           (repeat 0 nCuts) 0 (repeat 0 nCuts) 0,
                mkOut [] [] [] [], @nil Row)) as [_ Hadd].
  - apply Forall_forall. intros; exact I.
  - unfold Inv, wfCounters. cbn [fst nSelTracksB nSelTracksC nSelTracksLight nSelTracksPU].
    rewrite repeat_length. repeat split.
  - exact H.
  - intros x. rewrite Hadd. cbn [fst].
    assert (H0 : counterAt (mkCounters (repeat 0 nCuts) 0 (repeat 0 nCuts) 0
                                       (repeat 0 nCuts) 0 (repeat 0 nCuts) 0) x = 0).
    { destruct x as [[| | |] [j |]]; unfold counterAt, selectedOf, totalOf;
        cbn [fst snd nSelTracksB nSelTracksC nSelTracksLight nSelTracksPU
             nTotTracksB nTotTracksC nTotTracksLight nTotTracksPU];
        try reflexivity; apply nth_repeat. }
    rewrite H0. cbn [Nat.add]. unfold range.
    rewrite (list_sum_combine_seq _
               (fun ev => list_sum (map (fun j => dJ (ev, j) x) (seq 0 (nJet ev))))).
    unfold jetsOf. rewrite list_sum_flat_map. apply f_equal. apply map_ext.
    intros ev. unfold range. rewrite map_map. reflexivity.
Qed.

End CounterLoops.

(** X4.  When the pass over the entries ends normally, the total of each
    category is the number of tracks of the jets of that category (each
    track counted once, whatever the selection decides), and the selected
    counter of threshold i is the number of tracks accepted under i in the
    jets of that category. *)
Theorem X4_counters_count_tracks
        (TTreeFormula : string -> Event -> nat -> Q)
        (EvaluateMVA : string -> string -> list Q -> Q) (float32 : Q -> Q)
        (cutSel : option trackCutSelector) (mvaSel : option trackMVASelector)
        (nCuts : nat) (tree : list Event) (w w' : World)
        (c : Counters) (out : OutVariables) (T : list Row) :
  (forall sel, mvaSel = Some sel -> length (sel_cuts sel) = nCuts) ->
  eventLoop TTreeFormula EvaluateMVA float32 cutSel mvaSel nCuts tree w =
    (inr (c, out, T), w') ->
  forall k,
    totalOf c k =
      list_sum (map (fun jet => if inCategory (fst jet) (snd jet) k
                                then nTracks jet else 0)
                    (jetsOf tree)) /\
    forall i, i < nCuts ->
      selectedOf c k i =
        list_sum (map (fun jet =>
                         if inCategory (fst jet) (snd jet) k
                         then length (selected TTreeFormula EvaluateMVA float32
                                               cutSel mvaSel (fst jet) (snd jet) i)
                         else 0)
                      (jetsOf tree)).
Proof.
  intros Hlen Hrun k.
  pose proof (eventLoop_adds TTreeFormula EvaluateMVA float32 cutSel mvaSel nCuts Hlen
                tree w c out T w' Hrun) as Hadd.
  split.
  - exact (Hadd (k, None)).
  - intros i Hi. change (selectedOf c k i) with (counterAt c (k, Some i)).
    rewrite (Hadd (k, Some i)). cbn [fst snd].
    apply f_equal. apply map_ext. intros jet.
    destruct (Nat.ltb_spec i nCuts); [| lia]. rewrite andb_true_r. reflexivity.
Qed.

Lemma X4_counters_count_tracks_witness :
  totalOf (fst (fst (loopStateOf exLoop))) CatB =
    list_sum (map (fun jet => if inCategory (fst jet) (snd jet) CatB
                              then nTracks jet else 0)
                  (jetsOf [event4])) /\
  selectedOf (fst (fst (loopStateOf exLoop))) CatB 0 =
    list_sum (map (fun jet =>
                     if inCategory (fst jet) (snd jet) CatB
                     then length (selected exFormula exMVA (fun x => x)
                                           None None (fst jet) (snd jet) 0)
                     else 0)
                  (jetsOf [event4])).
Proof.
  assert (H1 : forall sel : trackMVASelector,
                 @None trackMVASelector = Some sel -> length (sel_cuts sel) = 1)
    by (intros sel E; discriminate E).
  assert (H2 : eventLoop exFormula exMVA (fun x => x) None None 1 [event4] world0 =
               (inr (fst (fst (loopStateOf exLoop)), snd (fst (loopStateOf exLoop)),
                     snd (loopStateOf exLoop)), snd exLoop))
    by (vm_compute; reflexivity).
  destruct (X4_counters_count_tracks exFormula exMVA (fun x => x) None None 1
              [event4] world0 (snd exLoop) (fst (fst (loopStateOf exLoop)))
              (snd (fst (loopStateOf exLoop))) (snd (loopStateOf exLoop))
              H1 H2 CatB) as [Ht Hs].
  split; [exact Ht | apply Hs; lia].
Defined.

Lemma category_exclusive (tree : Event) (jetInd : nat) (m : nat) :
  (if inCategory tree jetInd CatB then m else 0) +
  (if inCategory tree jetInd CatC then m else 0) +
  (if inCategory tree jetInd CatLight then m else 0) +
  (if inCategory tree jetInd CatPU then m else 0) <= m.
Proof.
  unfold inCategory, isB, isC, isLight.
  destruct (Qle_bool 8 (Jet_genpt tree jetInd));
    destruct (Z.eqb_spec (Z.abs (Jet_flavour tree jetInd)) 5),
             (Z.eqb_spec (Z.abs (Jet_flavour tree jetInd)) 4),
             (Z.ltb_spec (Z.abs (Jet_flavour tree jetInd)) 4),
             (Z.eqb_spec (Jet_flavour tree jetInd) 21);
    cbn [andb orb negb]; lia.
Qed.

(** X5.  When the pass over the entries ends normally, no selected counter
    exceeds the total of its category (no reported efficiency is above
    100%), and the four totals together do not exceed the number of tracks
    of the chain: no track is counted in two categories. *)
Theorem X5_counters_bounded
        (TTreeFormula : string -> Event -> nat -> Q)
        (EvaluateMVA : string -> string -> list Q -> Q) (float32 : Q -> Q)
        (cutSel : option trackCutSelector) (mvaSel : option trackMVASelector)
        (nCuts : nat) (tree : list Event) (w w' : World)
        (c : Counters) (out : OutVariables) (T : list Row) :
  (forall sel, mvaSel = Some sel -> length (sel_cuts sel) = nCuts) ->
  eventLoop TTreeFormula EvaluateMVA float32 cutSel mvaSel nCuts tree w =
    (inr (c, out, T), w') ->
  (forall k i, i < nCuts -> selectedOf c k i <= totalOf c k) /\
  nTotTracksB c + nTotTracksC c + nTotTracksLight c + nTotTracksPU c <=
    list_sum (map nTracks (jetsOf tree)).
Proof.
  intros Hlen Hrun.
  pose proof (eventLoop_adds TTreeFormula EvaluateMVA float32 cutSel mvaSel nCuts Hlen
                tree w c out T w' Hrun) as Hadd.
  split.
  - intros k i Hi.
    change (counterAt c (k, Some i) <= counterAt c (k, None)).
    rewrite !Hadd. cbn [fst snd]. apply list_sum_le. intros jet _.
    destruct (inCategory (fst jet) (snd jet) k); cbn [andb]; [| apply Nat.le_refl].
    destruct (i <? nCuts); [| apply Nat.le_0_l].
    unfold selected, nTracks. rewrite length_map. apply filter_length_le.
  - change (counterAt c (CatB, None) + counterAt c (CatC, None)
            + counterAt c (CatLight, None) + counterAt c (CatPU, None)
            <= list_sum (map nTracks (jetsOf tree))).
    rewrite !Hadd. cbn [fst snd]. rewrite <- !list_sum_plus.
    apply list_sum_le. intros jet _. apply category_exclusive.
Qed.

Lemma X5_counters_bounded_witness :
  selectedOf (fst (fst (loopStateOf exLoop))) CatB 0 <=
  totalOf (fst (fst (loopStateOf exLoop))) CatB /\
  nTotTracksB (fst (fst (loopStateOf exLoop))) + nTotTracksC (fst (fst (loopStateOf exLoop)))
  + nTotTracksLight (fst (fst (loopStateOf exLoop)))
  + nTotTracksPU (fst (fst (loopStateOf exLoop))) <=
    list_sum (map nTracks (jetsOf [event4])).
Proof.
  assert (H1 : forall sel : trackMVASelector,
                 @None trackMVASelector = Some sel -> length (sel_cuts sel) = 1)
    by (intros sel E; discriminate E).
  assert (H2 : eventLoop exFormula exMVA (fun x => x) None None 1 [event4] world0 =
               (inr (fst (fst (loopStateOf exLoop)), snd (fst (loopStateOf exLoop)),
                     snd (loopStateOf exLoop)), snd exLoop))
    by (vm_compute; reflexivity).
  destruct (X5_counters_bounded exFormula exMVA (fun x => x) None None 1
              [event4] world0 (snd exLoop) (fst (fst (loopStateOf exLoop)))
              (snd (fst (loopStateOf exLoop))) (snd (loopStateOf exLoop))
              H1 H2) as [Hs Ht].
  split; [apply Hs; lia | exact Ht].
Defined.

(** X6.  In the tree that createJetTreeTC returns, the row of a jet holds
    the six copied branches of that jet (Jet_genpt, Jet_pt, Jet_ntracks,
    Jet_eta, Jet_phi and Jet_flavour), and there are no more rows than
    jets. *)
Theorem X6_rows_copy_jet_branches
        (TTreeFormula : string -> Event -> nat -> Q)
        (EvaluateMVA : string -> string -> list Q -> Q)
        (isfile : string -> bool) (float32 : Q -> Q)
        (rootFiles : list (list Event)) (trackCut : option string)
        (trackMVA : option MVA) (w w' : World) (rows : list Row) :
  createJetTreeTC TTreeFormula EvaluateMVA isfile float32 rootFiles
                  trackCut trackMVA w = (inr rows, w') ->
  Forall2
    (fun jet row =>
       copied row =
       [("Jet_genpt", Jet_genpt (fst jet) (snd jet));
        ("Jet_pt", Jet_pt (fst jet) (snd jet));
        ("Jet_ntracks", Jet_ntracks (fst jet) (snd jet));
        ("Jet_eta", Jet_eta (fst jet) (snd jet));
        ("Jet_phi", Jet_phi (fst jet) (snd jet));
        ("Jet_flavour", inject_Z (Jet_flavour (fst jet) (snd jet)))]%string)
    (filter (jetSelected TTreeFormula EvaluateMVA float32 (cutSelOf trackCut)
                         (mvaSelOf trackMVA) (nCutsOf trackMVA))
            (jetsOf (concat rootFiles)))
    rows
  /\ length rows <= list_sum (map nJet (concat rootFiles)).
Proof.
  intros H. apply createJetTreeTC_inr in H. destruct H as [_ ->]. split.
  - apply Forall2_map_right. intros jet _. reflexivity.
  - rewrite length_map.
    eapply Nat.le_trans; [apply filter_length_le |].
    unfold jetsOf. induction (concat rootFiles) as [| ev l IH]; [apply Nat.le_refl |].
    cbn [flat_map map]. rewrite length_app, list_sum_cons, length_map.
    unfold range at 1. rewrite length_seq. lia.
Qed.

Lemma X6_rows_copy_jet_branches_witness :
  Forall2
    (fun jet row =>
       copied row =
       [("Jet_genpt", Jet_genpt (fst jet) (snd jet));
        ("Jet_pt", Jet_pt (fst jet) (snd jet));
        ("Jet_ntracks", Jet_ntracks (fst jet) (snd jet));
        ("Jet_eta", Jet_eta (fst jet) (snd jet));
        ("Jet_phi", Jet_phi (fst jet) (snd jet));
        ("Jet_flavour", inject_Z (Jet_flavour (fst jet) (snd jet)))]%string)
    (filter (jetSelected exFormula exMVA (fun x => x)
                         (cutSelOf (Some "Track_IPsig>2"%string))
                         (mvaSelOf (Some exMVAdict)) (nCutsOf (Some exMVAdict)))
            (jetsOf (concat [[event4]])))
    (rowsOf exRun)
  /\ length (rowsOf exRun) <= list_sum (map nJet (concat [[event4]])).
Proof.
  apply (X6_rows_copy_jet_branches exFormula exMVA (fun _ => true) (fun x => x)
           [[event4]] (Some "Track_IPsig>2"%string) (Some exMVAdict)
           world0 (snd exRun) (rowsOf exRun)).
  vm_compute. reflexivity.
Defined.

(** X7.  When every write TCHE[i] and TCHP[i] of the pass stays within its
    vector (no jet has an empty selected-track list under a threshold j and
    two tracks or more under a later threshold i), then in the tree that
    createJetTreeTC returns the entries of Jet_Ip, TCHE and TCHP of a row
    are, for each threshold with a non-empty selected-track list, the
    significances of the first, second and third accepted tracks in the
    order of the track indices (the list is not sorted), with -10^10 in
    TCHE when fewer than two tracks are accepted and in TCHP when fewer than
    three are. *)
Theorem X7_discriminants_in_track_order
        (TTreeFormula : string -> Event -> nat -> Q)
        (EvaluateMVA : string -> string -> list Q -> Q)
        (isfile : string -> bool) (float32 : Q -> Q)
        (rootFiles : list (list Event)) (trackCut : option string)
        (trackMVA : option MVA) (w w' : World) (rows : list Row) :
  writesStayInRange TTreeFormula EvaluateMVA float32 trackCut trackMVA
                    (jetsOf (concat rootFiles)) ->
  createJetTreeTC TTreeFormula EvaluateMVA isfile float32 rootFiles
                  trackCut trackMVA w = (inr rows, w') ->
  Forall2
    (fun jet row =>
       let lists :=
         filter nonEmpty
                (map (selected TTreeFormula EvaluateMVA float32 (cutSelOf trackCut)
                               (mvaSelOf trackMVA) (fst jet) (snd jet))
                     (range (nCutsOf trackMVA))) in
       Jet_Ip (vectors row) = map (fun l => significance l 0) lists /\
       TCHE (vectors row) =
         map (fun l => if 2 <=? length l then significance l 1 else sentinel) lists /\
       TCHP (vectors row) =
         map (fun l => if 3 <=? length l then significance l 2 else sentinel) lists)
    (filter (jetSelected TTreeFormula EvaluateMVA float32 (cutSelOf trackCut)
                         (mvaSelOf trackMVA) (nCutsOf trackMVA))
            (jetsOf (concat rootFiles)))
    rows.
Proof.
  intros _ H. apply createJetTreeTC_inr in H. destruct H as [_ ->].
  apply Forall2_map_right. intros jet _. cbv zeta.
  unfold rowOf, emitted, selTracksOf. cbn [vectors Jet_Ip TCHE TCHP].
  repeat split.
Qed.

Lemma X7_discriminants_in_track_order_witness :
  Forall2
    (fun jet row =>
       let lists :=
         filter nonEmpty
                (map (selected exFormula exMVA (fun x => x)
                               (cutSelOf (Some "Track_IPsig>2"%string))
                               (mvaSelOf (Some exMVAdict)) (fst jet) (snd jet))
                     (range (nCutsOf (Some exMVAdict)))) in
       Jet_Ip (vectors row) = map (fun l => significance l 0) lists /\
       TCHE (vectors row) =
         map (fun l => if 2 <=? length l then significance l 1 else sentinel) lists /\
       TCHP (vectors row) =
         map (fun l => if 3 <=? length l then significance l 2 else sentinel) lists)
    (filter (jetSelected exFormula exMVA (fun x => x)
                         (cutSelOf (Some "Track_IPsig>2"%string))
                         (mvaSelOf (Some exMVAdict)) (nCutsOf (Some exMVAdict)))
            (jetsOf (concat [[event4]])))
    (rowsOf exRun).
Proof.
  assert (H1 : writesStayInRange exFormula exMVA (fun x => x)
                                 (Some "Track_IPsig>2"%string) (Some exMVAdict)
                                 (jetsOf (concat [[event4]]))).
  { apply (proj2 (writesStayInRange_iff exFormula exMVA (fun x => x)
                    (Some "Track_IPsig>2"%string) (Some exMVAdict)
                    (jetsOf (concat [[event4]])))).
    vm_compute. reflexivity. }
  apply (X7_discriminants_in_track_order exFormula exMVA (fun _ => true) (fun x => x)
           [[event4]] (Some "Track_IPsig>2"%string) (Some exMVAdict)
           world0 (snd exRun) (rowsOf exRun) H1).
  vm_compute. reflexivity.
Defined.

(** ** drawEffVsCutCurve: divisor, values, warning *)

Lemma residual_last_two (h : TH1) :
  2 <= GetNbinsX h ->
  (residual h (Integral h) (xrange 2 (GetNbinsX h)) ==
   GetBinContent h (GetNbinsX h - 1) + GetBinContent h (GetNbinsX h))%Q.
Proof.
  intros HB. rewrite residual_sum. unfold xrange. rewrite xrange2_contents.
  unfold Integral. set (B := GetNbinsX h) in *.
  replace (seq 1 B) with (seq 1 (B - 2) ++ [B - 1; B]).
  2:{ replace [B - 1; B] with (seq (1 + (B - 2)) 2).
      - rewrite <- seq_app. f_equal. lia.
      - cbn [seq]. f_equal; [lia | f_equal; lia]. }
  rewrite map_app, Qsum_app. cbn [map Qsum fold_right]. lra.
Qed.

Lemma running_prefix (h : TH1) (n k : nat) :
  k <= n ->
  (nth k (Integral h :: running h (Integral h) (seq 2 n)) 0 ==
   Integral h - Qsum (map (GetBinContent h) (seq 1 k)))%Q.
Proof.
  induction k as [| k IH]; intros Hk.
  - cbn [nth seq map Qsum fold_right]. lra.
  - cbn [nth]. rewrite running_nth by (rewrite length_seq; lia).
    rewrite seq_nth by lia. rewrite IH by lia.
    replace (2 + k - 1) with (S k) by lia.
    rewrite seq_S, map_app, Qsum_app. cbn [map Qsum fold_right Nat.add]. lra.
Qed.

Lemma Integral_split (h : TH1) (k : nat) :
  k <= GetNbinsX h ->
  (Integral h ==
   Qsum (map (GetBinContent h) (seq 1 k)) +
   Qsum (map (GetBinContent h) (seq (S k) (GetNbinsX h - k))))%Q.
Proof.
  intros Hk. unfold Integral.
  replace (seq 1 (GetNbinsX h)) with (seq 1 k ++ seq (1 + k) (GetNbinsX h - k)).
  - rewrite map_app, Qsum_app. reflexivity.
  - rewrite <- seq_app. f_equal. lia.
Qed.

Lemma drawEff_GetN (h : TH1) (total : N) w g w' :
  drawEffVsCutCurve h total w = (inr g, w') -> GetN g = S (GetNbinsX h - 2).
Proof.
  intros H. apply drawEff_inr in H. destruct H as [_ ->].
  unfold GetN. rewrite length_combine. cbn [map length].
  rewrite !length_map, running_length. unfold xrange. rewrite length_seq. lia.
Qed.

Lemma histFront_counts : countHistogram histFront.
Proof.
  split.
  - intros i _. cbn [GetBinContent histFront].
    destruct (i =? 1); [exists 5 | exists 0]; reflexivity.
  - vm_compute. discriminate.
Qed.

Lemma hist3_counts : countHistogram hist3.
Proof.
  split.
  - intros i _. exists 1. reflexivity.
  - vm_compute. discriminate.
Qed.

(** X8.  For a histogram of counts, drawEffVsCutCurve returns a curve
    whenever a non-zero total of at most 2^53 is supplied.  Without a total,
    for a histogram of two bins or more, it raises ZeroDivisionError exactly
    when the last two bins are empty (their contents add up to zero),
    whatever the other bins hold. *)
Theorem X8_division_by_zero (h : TH1) (w : World) :
  countHistogram h ->
  (forall total, total <> 0%N -> (total <= maxExactCount)%N ->
                 exists g, fst (drawEffVsCutCurve h total w) = inr g)
  /\ (2 <= GetNbinsX h ->
      (fst (drawEffVsCutCurve h 0 w) = inl ZeroDivisionError <->
       (GetBinContent h (GetNbinsX h - 1) + GetBinContent h (GetNbinsX h) == 0)%Q)).
Proof.
  intros _. split.
  - intros total Ht _. apply drawEff_returns. rewrite normalisation_total by exact Ht.
    intros H. unfold Qeq in H. cbn in H. lia.
  - intros HB. rewrite drawEff_result.
    assert (Hn : (normalisation h 0 ==
                  GetBinContent h (GetNbinsX h - 1) + GetBinContent h (GetNbinsX h))%Q)
      by (unfold normalisation; cbn [N.eqb]; apply residual_last_two; exact HB).
    destruct (Qeq_bool (normalisation h 0) 0) eqn:E.
    + apply Qeq_bool_iff in E. split; [intros _ | reflexivity].
      rewrite <- Hn. exact E.
    + apply Qeq_bool_neq in E. split; [discriminate |].
      intros Hz. exfalso. apply E. rewrite Hn. exact Hz.
Qed.

Lemma X8_division_by_zero_witness :
  fst (drawEffVsCutCurve histFront 0 world0) = inl ZeroDivisionError.
Proof.
  apply (proj2 (X8_division_by_zero histFront world0 histFront_counts)).
  - cbn. lia.
  - vm_compute. reflexivity.
Defined.

Lemma drawEff_tail_sum (h : TH1) (total : N) (w w' : World) (g : TGraph) :
  drawEffVsCutCurve h total w = (inr g, w') ->
  forall k, k < GetN g ->
    (snd (GetPoint g k) ==
     Qsum (map (GetBinContent h) (seq (S k) (GetNbinsX h - k)))
     / normalisation h total)%Q.
Proof.
  intros H k Hk.
  pose proof (drawEff_GetN h total w g w' H) as HN. rewrite HN in Hk.
  apply drawEff_inr in H. destruct H as [Hd ->].
  rewrite snd_point_combine.
  2:{ cbn [map length]. rewrite !length_map, running_length. reflexivity. }
  2:{ cbn [length]. rewrite running_length. unfold xrange. rewrite length_seq. lia. }
  unfold xrange. rewrite running_prefix by lia.
  assert (HkB : k <= GetNbinsX h) by lia.
  rewrite (Integral_split h k HkB) at 1.
  apply Qeq_bool_neq in Hd.
  field. exact Hd.
Qed.

Lemma drawEff_world (h : TH1) (total : N) (w : World) :
  snd (drawEffVsCutCurve h total w) =
  mkWorld (slots w) (calls w)
          (stdout w ++
           if negb (N.eqb total 0) &&
              Qlt_bool (inject_Z (Z.of_N total))
                       (residual h (Integral h) (xrange 2 (GetNbinsX h)))
           then [effWarning] else []).
Proof.
  unfold drawEffVsCutCurve.
  rewrite effLoop_fold. cbn [app].
  set (bins := xrange 2 (GetNbinsX h)).
  set (d0 := residual h (Integral h) bins).
  destruct (N.eqb_spec total 0) as [Ht | Ht]; cbn [negb andb].
  - unfold bind at 1. unfold ret at 1. cbn beta iota.
    rewrite app_nil_r, world_eta.
    destruct (Qeq_bool d0 0) eqn:Hd.
    + erewrite bind_raises by (apply normalise_zero; exact Hd). reflexivity.
    + erewrite bind_ok by (apply normalise_ok; exact Hd). reflexivity.
  - assert (Hd : Qeq_bool (inject_Z (Z.of_N total)) 0 = false).
    { destruct (Qeq_bool (inject_Z (Z.of_N total)) 0) eqn:E; [| reflexivity].
      apply Qeq_bool_iff in E. unfold Qeq in E. cbn in E. lia. }
    destruct (Qlt_bool (inject_Z (Z.of_N total)) d0).
    + unfold bind at 1. unfold bind at 1. unfold print at 1. cbn beta iota.
      unfold ret at 1. cbn beta iota.
      erewrite bind_ok by (apply normalise_ok; exact Hd). reflexivity.
    + unfold bind at 1. unfold bind at 1. unfold ret at 1. cbn beta iota.
      unfold ret at 1. cbn beta iota.
      rewrite app_nil_r, world_eta.
      erewrite bind_ok by (apply normalise_ok; exact Hd). reflexivity.
Qed.

(** X9.  For a histogram of counts and a total of at most 2^53, the k-th
    efficiency of the curve returned by drawEffVsCutCurve is the content of
    bins k+1 to B divided by the divisor: the part of the histogram at or
    above the k-th cut value, over the divisor.  (The quotient is exact
    here and rounded once in the program.) *)
Theorem X9_efficiency_is_tail_sum (h : TH1) (total : N) (w w' : World) (g : TGraph) :
  countHistogram h ->
  (total <= maxExactCount)%N ->
  drawEffVsCutCurve h total w = (inr g, w') ->
  forall k, k < GetN g ->
    (snd (GetPoint g k) ==
     Qsum (map (GetBinContent h) (seq (S k) (GetNbinsX h - k)))
     / normalisation h total)%Q.
Proof.
  intros _ _. exact (drawEff_tail_sum h total w w' g).
Qed.

Lemma X9_efficiency_is_tail_sum_witness :
  (snd (GetPoint [(1, 3 # 2); (2, 2 # 2)]%Q 1) ==
   Qsum (map (GetBinContent hist3) (seq 2 (GetNbinsX hist3 - 1)))
   / normalisation hist3 0)%Q.
Proof.
  apply (X9_efficiency_is_tail_sum hist3 0 world0 world0 [(1, 3 # 2); (2, 2 # 2)]%Q
           hist3_counts).
  - vm_compute. discriminate.
  - vm_compute. reflexivity.
  - cbn. lia.
Defined.

(** X10.  For a histogram of counts and a supplied total of at most 2^53
    that is at least as large as its integral, every efficiency value of the
    curve lies between 0 and 1. *)
Theorem X10_efficiencies_between_0_and_1
        (h : TH1) (total : N) (w w' : World) (g : TGraph) :
  countHistogram h ->
  (total <= maxExactCount)%N ->
  total <> 0%N ->
  (Integral h <= inject_Z (Z.of_N total))%Q ->
  drawEffVsCutCurve h total w = (inr g, w') ->
  forall k, k < GetN g -> (0 <= snd (GetPoint g k) <= 1)%Q.
Proof.
  intros Hcount _ Ht Hint H k Hk.
  pose proof (countHistogram_nonneg h Hcount) as Hc.
  rewrite (drawEff_tail_sum h total w w' g H k Hk).
  rewrite (drawEff_GetN h total w g w' H) in Hk.
  assert (HkB : k <= GetNbinsX h) by lia.
  rewrite normalisation_total by exact Ht.
  assert (Hn : (0 < inject_Z (Z.of_N total))%Q).
  { unfold Qlt. cbn. lia. }
  pose proof (Integral_split h k HkB) as Hs.
  assert (H1 : (0 <= Qsum (map (GetBinContent h) (seq 1 k)))%Q).
  { apply Qsum_nonneg, contents_nonneg; [exact Hc | lia | lia]. }
  assert (H2 : (0 <= Qsum (map (GetBinContent h) (seq (S k) (GetNbinsX h - k))))%Q).
  { apply Qsum_nonneg, contents_nonneg; [exact Hc | lia | lia]. }
  split.
  - apply Qle_shift_div_l; [exact Hn | lra].
  - apply Qle_shift_div_r; [exact Hn | lra].
Qed.

Lemma X10_efficiencies_witness :
  (0 <= snd (GetPoint [(1, 3 # 3); (2, 2 # 3)]%Q 1) <= 1)%Q.
Proof.
  apply (X10_efficiencies_between_0_and_1 hist3 3 world0 world0
           [(1, 3 # 3); (2, 2 # 3)]%Q hist3_counts).
  - vm_compute. discriminate.
  - discriminate.
  - vm_compute. discriminate.
  - vm_compute. reflexivity.
  - cbn. lia.
Defined.

(** X11.  For a histogram of counts with two bins or more,
    drawEffVsCutCurve prints its warning exactly when a non-zero total is
    supplied that is smaller than the content of the last two bins, the
    value the loop leaves in the variable integral; a total smaller than the
    histogram's integral but not smaller than those two bins passes without
    warning.  Nothing else is printed, with or without an exception. *)
Theorem X11_warning_condition (h : TH1) (total : N) (w : World) :
  countHistogram h ->
  2 <= GetNbinsX h ->
  snd (drawEffVsCutCurve h total w) =
  mkWorld (slots w) (calls w)
          (stdout w ++
           if negb (N.eqb total 0) &&
              Qlt_bool (inject_Z (Z.of_N total))
                       (GetBinContent h (GetNbinsX h - 1) + GetBinContent h (GetNbinsX h))
           then [effWarning] else []).
Proof.
  intros _ HB. rewrite drawEff_world.
  unfold Qlt_bool. rewrite (residual_last_two h HB). reflexivity.
Qed.

Lemma X11_warning_condition_witness :
  (Integral histFront == 5)%Q /\
  snd (drawEffVsCutCurve histFront 3 world0) = world0.
Proof.
  split.
  - vm_compute. reflexivity.
  - apply (X11_warning_condition histFront 3 world0 histFront_counts). cbn. lia.
Defined.

(** ** drawROCfromEffVsCutCurves: what is read from the curves *)

(** X12.  drawROCfromEffVsCutCurves reads only the efficiency values of its
    two arguments: curves with the same efficiencies give the same result
    and the same output whatever their cut values are, so curves made with
    different ranges or binnings are combined without any check as soon as
    their point counts agree. *)
Theorem X12_cut_values_ignored (sigGraph sigGraph' bkgGraph bkgGraph' : TGraph) (w : World) :
  map snd sigGraph = map snd sigGraph' ->
  map snd bkgGraph = map snd bkgGraph' ->
  drawROCfromEffVsCutCurves sigGraph bkgGraph w =
  drawROCfromEffVsCutCurves sigGraph' bkgGraph' w.
Proof.
  intros Hs Hb.
  assert (Ns : GetN sigGraph = GetN sigGraph').
  { unfold GetN. rewrite <- (length_map snd sigGraph), Hs. apply length_map. }
  assert (Nb : GetN bkgGraph = GetN bkgGraph').
  { unfold GetN. rewrite <- (length_map snd bkgGraph), Hb. apply length_map. }
  destruct (Nat.eq_dec (GetN sigGraph) (GetN bkgGraph)) as [E | E].
  - rewrite (drawROC_equal_counts sigGraph bkgGraph w E).
    rewrite (drawROC_equal_counts sigGraph' bkgGraph' w) by congruence.
    rewrite Hs, Hb. reflexivity.
  - rewrite (drawROC_unequal_counts sigGraph bkgGraph w E).
    rewrite (drawROC_unequal_counts sigGraph' bkgGraph' w) by congruence.
    rewrite Ns, Nb. reflexivity.
Qed.

Lemma X12_cut_values_ignored_witness :
  drawROCfromEffVsCutCurves example_sig example_bkg world0 =
  drawROCfromEffVsCutCurves [(10, 9 # 10); (20, 5 # 10); (30, 1 # 10)]%Q
                            [(-1, 8 # 10); (-2, 3 # 10); (-3, 5 # 100)]%Q world0.
Proof.
  apply (X12_cut_values_ignored example_sig _ example_bkg _ world0); reflexivity.
Defined.

(** X13.  The curves drawEffVsCutCurve makes from two histograms go through
    drawROCfromEffVsCutCurves exactly when max(B,2) is the same for both bin
    counts B: then the ROC curve has max(B,2) - 1 points; otherwise the ROC
    builder exits with status 1.  For histograms of counts and totals of at
    most 2^53, the k-th point of the ROC curve is the pair of the tail
    fractions of the two histograms (exact here, each rounded once in the
    program). *)
Theorem X13_roc_of_two_histograms
        (hs hb : TH1) (ts tb : N) (w w1 w2 : World) (gs gb : TGraph) :
  drawEffVsCutCurve hs ts w = (inr gs, w1) ->
  drawEffVsCutCurve hb tb w1 = (inr gb, w2) ->
  (GetNbinsX hs - 2 = GetNbinsX hb - 2 ->
   exists roc,
     drawROCfromEffVsCutCurves gs gb w2 = (inr roc, w2) /\
     GetN roc = S (GetNbinsX hs - 2) /\
     (countHistogram hs -> countHistogram hb ->
      (ts <= maxExactCount)%N -> (tb <= maxExactCount)%N ->
      forall k, k < GetN roc ->
        (fst (GetPoint roc k) ==
         Qsum (map (GetBinContent hs) (seq (S k) (GetNbinsX hs - k)))
         / normalisation hs ts)%Q /\
        (snd (GetPoint roc k) ==
         Qsum (map (GetBinContent hb) (seq (S k) (GetNbinsX hb - k)))
         / normalisation hb tb)%Q))
  /\ (GetNbinsX hs - 2 <> GetNbinsX hb - 2 ->
      fst (drawROCfromEffVsCutCurves gs gb w2) = inl (SystemExit 1)).
Proof.
  intros Hs Hb.
  pose proof (drawEff_GetN hs ts w gs w1 Hs) as Ns.
  pose proof (drawEff_GetN hb tb w1 gb w2 Hb) as Nb.
  split.
  - intros E.
    assert (EN : GetN gs = GetN gb) by lia.
    exists (combine (map snd gs) (map snd gb)).
    assert (HN : GetN (combine (map snd gs) (map snd gb)) = S (GetNbinsX hs - 2)).
    { unfold GetN in *. rewrite length_combine, !length_map. lia. }
    split; [apply drawROC_equal_counts; exact EN |].
    split; [exact HN |].
    intros _ _ _ _ k Hk. rewrite HN in Hk.
    unfold GetPoint.
    rewrite (combine_nth (map snd gs) (map snd gb) k 0%Q 0%Q)
      by (rewrite !length_map; exact EN).
    cbn [fst snd].
    change 0%Q with (snd (0%Q, 0%Q)). rewrite !map_nth.
    split.
    + apply (drawEff_tail_sum hs ts w w1 gs Hs k). lia.
    + apply (drawEff_tail_sum hb tb w1 w2 gb Hb k). lia.
  - intros E. rewrite drawROC_unequal_counts by lia. reflexivity.
Qed.

Lemma X13_roc_of_two_histograms_witness :
  fst (drawROCfromEffVsCutCurves [(1, 3 # 2); (2, 2 # 2)]%Q [(1, 1 # 1)]%Q world0) =
  inl (SystemExit 1).
Proof.
  apply (proj2 (X13_roc_of_two_histograms hist3 hist1 0 0 world0 world0 world0
                  [(1, 3 # 2); (2, 2 # 2)]%Q [(1, 1 # 1)]%Q
                  ltac:(vm_compute; reflexivity) ltac:(vm_compute; reflexivity))).
  cbn. lia.
Defined.

(** ** createDiscrHist *)

(** A loop whose body always returns, leaves the output alone and adds a
    known amount to each counter. *)
Section ForTotal.
Variables A S X : Type.
Variable f : A -> S -> M S.
Variable Inv : S -> Prop.
Variable mu : S -> X -> nat.
Variable d : A -> X -> nat.
Variable dom : A -> Prop.

Hypothesis body_total : forall a s w, dom a -> Inv s ->
  exists s', f a s w = (inr s', w) /\ Inv s' /\ forall x, mu s' x = mu s x + d a x.

Lemma for_total_adds (l : list A) :
  Forall dom l -> forall s w, Inv s ->
  exists s', for_ l f s w = (inr s', w) /\ Inv s' /\
             forall x, mu s' x = mu s x + list_sum (map (fun a => d a x) l).
Proof.
  induction 1 as [| a l Ha _ IH]; intros s w Hs.
  - exists s. split; [reflexivity |]. split; [exact Hs |].
    intros x. cbn. lia.
  - destruct (body_total a s w Ha Hs) as [s1 [Hf [Hs1 Hmu1]]].
    destruct (IH s1 w Hs1) as [s2 [Hl [Hs2 Hmu2]]].
    exists s2. cbn [for_]. rewrite (bind_ok _ _ _ _ _ _ _ Hf).
    split; [exact Hl |]. split; [exact Hs2 |].
    intros x. rewrite Hmu2, Hmu1. cbn [map]. rewrite list_sum_cons. lia.
Qed.

End ForTotal.

(** A loop whose body either makes a known step or raises, leaving the
    output alone. *)
Section ForStep.
Variables A S : Type.
Variable f : A -> S -> M S.
Variable step : A -> S -> S.
Variable ok : A -> bool.
Variable dom : A -> Prop.
Variable E : exn.

Hypothesis body_ok : forall a s w, dom a -> ok a = true ->
  f a s w = (inr (step a s), w).
Hypothesis body_fail : forall a s w, dom a -> ok a = false ->
  f a s w = (inl E, w).

Lemma for_step (l : list A) :
  Forall dom l -> forall s w,
  for_ l f s w =
  if forallb ok l then (inr (fold_left (fun s a => step a s) l s), w)
  else (inl E, w).
Proof.
  induction 1 as [| a l Ha _ IH]; intros s w.
  - reflexivity.
  - cbn [for_ forallb fold_left]. destruct (ok a) eqn:Hok; cbn [andb].
    + rewrite (bind_ok _ _ _ _ _ _ _ (body_ok a s w Ha Hok)). apply IH.
    + rewrite (bind_raises _ _ _ _ _ _ _ (body_fail a s w Ha Hok)). reflexivity.
Qed.

End ForStep.

(** A loop whose body returns or raises one given exception. *)
Section ForOutcome.
Variables A S : Type.
Variable f : A -> S -> M S.
Variable dom : A -> Prop.
Variable E : exn.
Variable P : World -> World -> Prop.

Hypothesis P_refl : forall w, P w w.
Hypothesis P_trans : forall w1 w2 w3, P w1 w2 -> P w2 w3 -> P w1 w3.
Hypothesis body_outcome : forall a s w, dom a ->
  (exists s' w', f a s w = (inr s', w') /\ P w w') \/
  (exists w', f a s w = (inl E, w') /\ P w w').


End ForOutcome.

Lemma Forall_In_self (A : Type) (l : list A) : Forall (fun a => In a l) l.
Proof. apply Forall_forall. intros a Ha. exact Ha. Qed.

Lemma NoDup_map_injective (A B : Type) (f : A -> B) (l : list A) x y :
  NoDup (map f l) -> In x l -> In y l -> f x = f y -> x = y.
Proof.
  induction l as [| a l IH]; intros Hnd Hx Hy Hf; [destruct Hx |].
  cbn [map] in Hnd. inversion Hnd as [| b m Hnotin Hnd' ]; subst.
  destruct Hx as [<- | Hx], Hy as [<- | Hy].
  - reflexivity.
  - exfalso. apply Hnotin. rewrite Hf. apply in_map. exact Hy.
  - exfalso. apply Hnotin. rewrite <- Hf. apply in_map. exact Hx.
  - apply IH; assumption.
Qed.

Lemma list_sum_zero_in (A : Type) (g : A -> nat) (l : list A) :
  (forall a, In a l -> g a = 0) -> list_sum (map g l) = 0.
Proof.
  induction l as [| a l IH]; intros H; [reflexivity |].
  cbn [map]. rewrite list_sum_cons, IH, (H a).
  - reflexivity.
  - left; reflexivity.
  - intros x Hx. apply H. right. exact Hx.
Qed.

Lemma list_sum_unique (A : Type) (g : A -> nat) (l : list A) (a : A) :
  NoDup l -> In a l -> (forall x, In x l -> x <> a -> g x = 0) ->
  list_sum (map g l) = g a.
Proof.
  induction l as [| b l IH]; intros Hnd Ha Hz; [destruct Ha |].
  inversion Hnd as [| b' l' Hnotin Hnd']; subst.
  cbn [map]. rewrite list_sum_cons.
  destruct Ha as [-> | Ha].
  - assert (Hrest : list_sum (map g l) = 0).
    { apply list_sum_zero_in. intros x Hx. apply Hz; [right; exact Hx |].
      intros ->. contradiction. }
    lia.
  - rewrite IH; [| exact Hnd' | exact Ha |].
    + rewrite (Hz b); [lia | left; reflexivity |].
      intros ->. contradiction.
    + intros x Hx Hne. apply Hz; [right; exact Hx | exact Hne].
Qed.

Lemma list_sum_if_length (A : Type) (p : A -> bool) (k : nat) (l : list A) :
  list_sum (map (fun a => if p a then k else 0) l) = k * length (filter p l).
Proof.
  induction l as [| a l IH]; cbn [map filter].
  - cbn. lia.
  - rewrite list_sum_cons, IH. destruct (p a); cbn [length]; lia.
Qed.

Lemma list_sum_occurrences (p : nat -> bool) (a : nat) (l : list nat) :
  list_sum (map (fun c => if p c then (if a =? c then 1 else 0) else 0) l) =
  if p a then occurrences l a else 0.
Proof.
  unfold occurrences. induction l as [| c l IH]; cbn [map count_occ].
  - destruct (p a); reflexivity.
  - rewrite list_sum_cons, IH.
    destruct (Nat.eq_dec c a) as [-> | Hne].
    + rewrite Nat.eqb_refl. destruct (p a); lia.
    + destruct (Nat.eqb_spec a c) as [-> | _]; [contradiction |].
      destruct (p c), (p a); lia.
Qed.

(** Each entry with [q] falls in one bin of a..a+n-1. *)
Lemma list_sum_one_bin (q : bool) (k a n : nat) :
  (q = true -> a <= k < a + n) ->
  list_sum (map (fun b => if q && (k =? b) then 1 else 0) (seq a n)) =
  if q then 1 else 0.
Proof.
  destruct q; cbn [andb].
  - intros H. specialize (H eq_refl).
    revert H. induction n as [| n IH]; intros H; [lia |].
    rewrite seq_S, map_app, list_sum_app. cbn [map]. rewrite list_sum_cons.
    cbn [list_sum fold_right].
    destruct (Nat.eqb_spec k (a + n)) as [E | Hne].
    + assert (Hz : list_sum (map (fun b => if k =? b then 1 else 0) (seq a n)) = 0).
      { apply list_sum_zero_in. intros b Hb. apply in_seq in Hb.
        destruct (Nat.eqb_spec k b); [lia | reflexivity]. }
      rewrite Hz. reflexivity.
    + rewrite IH by lia. reflexivity.
  - intros _. apply list_sum_zero.
Qed.

Lemma bins_partition (A : Type) (q : A -> bool) (k : A -> nat) (a n : nat) (l : list A) :
  (forall x, In x l -> q x = true -> a <= k x < a + n) ->
  list_sum (map (fun b => length (filter (fun x => q x && (k x =? b)) l)) (seq a n)) =
  length (filter q l).
Proof.
  induction l as [| x l IH]; intros H.
  - cbn [filter length]. apply list_sum_zero.
  - cbn [filter].
    rewrite (map_ext _ (fun b => (if q x && (k x =? b) then 1 else 0) +
                                 length (filter (fun x => q x && (k x =? b)) l))).
    2:{ intros b. destruct (q x && (k x =? b)); reflexivity. }
    rewrite list_sum_plus, IH by (intros y Hy; apply H; right; exact Hy).
    rewrite list_sum_one_bin by (apply H; left; reflexivity).
    destruct (q x); reflexivity.
Qed.

Lemma filter_and_le (A : Type) (p q : A -> bool) (l : list A) :
  length (filter (fun a => p a && q a) l) <= length (filter p l).
Proof.
  induction l as [| a l IH]; cbn [filter]; [lia |].
  destruct (p a), (q a); cbn [andb length]; lia.
Qed.

Lemma filter_none (A : Type) (p : A -> bool) (l : list A) :
  length (filter p l) = 0 <-> forallb (fun a => negb (p a)) l = true.
Proof.
  induction l as [| a l IH]; cbn [filter forallb].
  - split; reflexivity.
  - destruct (p a); cbn [negb andb length].
    + split; [lia | discriminate].
    + exact IH.
Qed.

Lemma Qsum_Qnat (A : Type) (g : A -> nat) (l : list A) :
  (Qsum (map (fun a => Qnat (g a)) l) == Qnat (list_sum (map g l)))%Q.
Proof.
  induction l as [| a l IH]; cbn [map].
  - reflexivity.
  - rewrite list_sum_cons. unfold Qsum in *. cbn [fold_right]. rewrite IH.
    unfold Qnat. rewrite Nat2Z.inj_add, inject_Z_plus. reflexivity.
Qed.

(** *** The input files *)

Lemma addFiles_ok (Entry : Type) (isfile : string -> bool)
      (entriesOf : string -> string -> list Entry) (treeDirectory : string)
      (l : list string) (tree : list Entry) (w : World) :
  forallb isfile l = true ->
  for_ l (addFile isfile entriesOf treeDirectory) tree w =
  (inr (tree ++ chain entriesOf treeDirectory l), w).
Proof.
  revert tree. induction l as [| f l IH]; intros tree H.
  - cbn. rewrite app_nil_r. reflexivity.
  - cbn [forallb] in H. apply andb_prop in H. destruct H as [Hf Hl].
    cbn [for_]. unfold addFile at 1. rewrite Hf. cbn [negb].
    unfold bind at 1. unfold bind at 1. unfold ret at 1 2. cbn beta iota.
    rewrite IH by exact Hl. unfold chain. cbn [flat_map].
    rewrite app_assoc. reflexivity.
Qed.

Lemma addFiles_missing (Entry : Type) (isfile : string -> bool)
      (entriesOf : string -> string -> list Entry) (treeDirectory : string)
      (present : list string) (file : string) (rest : list string)
      (tree : list Entry) (w : World) :
  forallb isfile present = true -> isfile file = false ->
  for_ (present ++ file :: rest) (addFile isfile entriesOf treeDirectory) tree w =
  (inl (SystemExit 1),
   mkWorld (slots w) (calls w)
           (stdout w ++ [[Str "Error: file "; Str file; Str " does not exist."]])).
Proof.
  intros Hp Hf. rewrite for_app, (addFiles_ok Entry isfile entriesOf _ _ _ _ Hp).
  cbn [for_]. unfold addFile at 1. rewrite Hf. cbn [negb].
  reflexivity.
Qed.

Lemma first_missing (isfile : string -> bool) (l : list string) :
  forallb isfile l = false ->
  exists present file rest,
    l = present ++ file :: rest /\ forallb isfile present = true /\ isfile file = false.
Proof.
  induction l as [| f l IH]; intros H; [discriminate |].
  cbn [forallb] in H. destruct (isfile f) eqn:Hf.
  - cbn [andb] in H. destruct (IH H) as [p [x [r [-> [Hp Hx]]]]].
    exists (f :: p), x, r. cbn [forallb]. rewrite Hf, Hp. repeat split. exact Hx.
  - exists [], f, l. repeat split. exact Hf.
Qed.

(** *** Histograms *)

Lemma FindBin_axis (q : nat -> Q -> Q -> Q -> Z) (h h' : TH1D) (x : Q) :
  fNbins h = fNbins h' -> fXmin h = fXmin h' -> fXmax h = fXmax h' ->
  FindBin q h x = FindBin q h' x.
Proof. intros HN Hlo Hhi. unfold FindBin. rewrite HN, Hlo, Hhi. reflexivity. Qed.

Lemma Qlt_bool_iff (x y : Q) : Qlt_bool x y = true <-> (x < y)%Q.
Proof. exact (Qgt_bool_iff y x). Qed.

Lemma Qnat_pos (n : nat) : 1 <= n -> (0 < Qnat n)%Q.
Proof. intros H. unfold Qnat, Qlt. cbn. lia. Qed.

(** In binary64 a value below the upper limit can fall in the overflow bin:
    with 50 bins on [0, 0.1), the quotient for the number just below 0.1
    rounds to 50. *)
Lemma Binary64_FindBin_overflow_example :
  Binary64.less Binary64.belowTenth Binary64.tenth = true /\
  Binary64.FindBin 50 PrimFloat.zero Binary64.tenth Binary64.belowTenth = 51%Z.
Proof.
  split; vm_compute; reflexivity.
Qed.

(** A value inside the range never falls in the underflow bin. *)
Lemma FindBin_in_range (q : nat -> Q -> Q -> Q -> Z) (h : TH1D) (x : Q) :
  Qle_bool (fXmin h) x && Qlt_bool x (fXmax h) = true ->
  1 <= FindBin q h x.
Proof.
  intros H. apply andb_prop in H. destruct H as [Hlo Hhi].
  apply Qle_bool_iff in Hlo.
  unfold FindBin.
  assert (E1 : Qlt_bool x (fXmin h) = false).
  { destruct (Qlt_bool x (fXmin h)) eqn:E; [| reflexivity].
    apply Qlt_bool_iff in E. lra. }
  rewrite E1, Hhi. cbn [negb]. lia.
Qed.

(** Without rounding, a value inside the range falls in one of the bins
    1..fNbins. *)
Lemma FindBin_exact_in_range (h : TH1D) (x : Q) :
  1 <= fNbins h ->
  Qle_bool (fXmin h) x && Qlt_bool x (fXmax h) = true ->
  1 <= FindBin exactQuotient h x <= fNbins h.
Proof.
  intros HB H. apply andb_prop in H. destruct H as [Hlo Hhi].
  apply Qle_bool_iff in Hlo.
  unfold FindBin, exactQuotient.
  assert (E1 : Qlt_bool x (fXmin h) = false).
  { destruct (Qlt_bool x (fXmin h)) eqn:E; [| reflexivity].
    apply Qlt_bool_iff in E. lra. }
  rewrite E1, Hhi. cbn [negb].
  apply Qlt_bool_iff in Hhi.
  set (r := (Qnat (fNbins h) * (x - fXmin h) / (fXmax h - fXmin h))%Q).
  assert (Hw : (0 < fXmax h - fXmin h)%Q) by lra.
  assert (HN : (0 < Qnat (fNbins h))%Q) by (apply Qnat_pos; exact HB).
  assert (Hr0 : (0 <= r)%Q).
  { unfold r. apply Qle_shift_div_l; [exact Hw |].
    rewrite Qmult_0_l. apply Qmult_le_0_compat; lra. }
  assert (Hr1 : (r < Qnat (fNbins h))%Q).
  { unfold r. apply Qlt_shift_div_r; [exact Hw |].
    apply Qmult_lt_l; [exact HN | lra]. }
  assert (Hf0 : (0 <= Qfloor r)%Z).
  { change 0%Z with (Qfloor 0). apply Qfloor_resp_le. exact Hr0. }
  assert (Hf1 : (Qfloor r < Z.of_nat (fNbins h))%Z).
  { rewrite Zlt_Qlt. apply Qle_lt_trans with r; [apply Qfloor_le | exact Hr1]. }
  lia.
Qed.

Section DiscrHistFacts.

Variable Entry : Type.
Variable EvalInstance : string -> Entry -> Q.
Variable getattr : string -> Entry -> Q.
Variable binQuotient : nat -> Q -> Q -> Q -> Z.
Variable cutObj : nat -> JetCut.
Variable histObj : nat -> HistDict.
Variables histList jetCutList : list nat.

Lemma emptyHist_bins (c h : nat) : 1 <= fNbins (emptyHist cutObj histObj c h).
Proof.
  unfold emptyHist, newTH1D. cbn [fNbins].
  destruct (Z.leb_spec (hist_bins (histObj h)) 0); lia.
Qed.

Lemma binOf_in_range (h : nat) (e : Entry) :
  inRange getattr histObj h e = true ->
  1 <= binOf getattr binQuotient cutObj histObj h e.
Proof.
  intros H. unfold binOf. apply FindBin_in_range. exact H.
Qed.

(** *** The store before the pass *)

Lemma newCutDict_fold (h : nat) (l : list nat) (d : dict TH1D) (n : string) :
  fold_left
    (fun d cut =>
       dict_set d (cut_name (cutObj cut))
                (newTH1D (cut_name (cutObj cut) ++ "_" ++ hist_name (histObj h))
                         (hist_title (histObj h)) (hist_bins (histObj h))
                         (fst (hist_range (histObj h)))
                         (snd (hist_range (histObj h)))))
    l d n =
  if existsb (fun c => String.eqb n (cut_name (cutObj c))) l
  then Some (newTH1D (n ++ "_" ++ hist_name (histObj h))
                     (hist_title (histObj h)) (hist_bins (histObj h))
                     (fst (hist_range (histObj h))) (snd (hist_range (histObj h))))
  else d n.
Proof.
  revert d. induction l as [| c l IH]; intros d; cbn [fold_left existsb].
  - reflexivity.
  - rewrite IH. unfold dict_set.
    destruct (existsb (fun c0 => String.eqb n (cut_name (cutObj c0))) l).
    + rewrite orb_true_r. reflexivity.
    + rewrite orb_false_r.
      destruct (String.eqb_spec n (cut_name (cutObj c))) as [-> | _]; reflexivity.
Qed.

Lemma initStore_total (a : nat) :
  total (initStore cutObj histObj histList jetCutList) a = 0.
Proof.
  unfold initStore. cbn [total].
  assert (G : forall l (t : nat -> nat), (forall a, t a = 0) ->
              forall a, fold_left (fun t cut => fupd t cut 0) l t a = 0).
  { induction l as [| c l IH]; intros t Ht b; cbn [fold_left]; [apply Ht |].
    apply IH. intros x. unfold fupd. destruct (x =? c); [reflexivity | apply Ht]. }
  apply G. reflexivity.
Qed.

Lemma cutDict_fold (l : list nat) (d : nat -> dict TH1D) (h : nat) :
  fold_left (fun d h' => fupd d h' (newCutDict cutObj histObj jetCutList h')) l d h =
  if existsb (Nat.eqb h) l then newCutDict cutObj histObj jetCutList h else d h.
Proof.
  revert d. induction l as [| c l IH]; intros d; cbn [fold_left existsb].
  - reflexivity.
  - rewrite IH. unfold fupd.
    destruct (existsb (Nat.eqb h) l).
    + rewrite orb_true_r. reflexivity.
    + rewrite orb_false_r. destruct (Nat.eqb_spec h c) as [-> | _]; reflexivity.
Qed.

Lemma existsb_eqb_In (h : nat) (l : list nat) : In h l -> existsb (Nat.eqb h) l = true.
Proof.
  intros H. apply existsb_exists. exists h. split; [exact H | apply Nat.eqb_refl].
Qed.

Lemma initStore_lookup (h : nat) (n : string) (th : TH1D) :
  cutDict (initStore cutObj histObj histList jetCutList) h n = Some th ->
  th = newTH1D (n ++ "_" ++ hist_name (histObj h))
               (hist_title (histObj h)) (hist_bins (histObj h))
               (fst (hist_range (histObj h))) (snd (hist_range (histObj h))).
Proof.
  unfold initStore. cbn [cutDict]. rewrite cutDict_fold.
  destruct (existsb (Nat.eqb h) histList); [| discriminate].
  unfold newCutDict. rewrite newCutDict_fold.
  destruct (existsb _ jetCutList); [| discriminate].
  intros H. injection H as <-. reflexivity.
Qed.

Lemma initStore_wf :
  wfStore cutObj histObj histList jetCutList
          (initStore cutObj histObj histList jetCutList).
Proof.
  split.
  - intros h n th H. apply initStore_lookup in H. subst th.
    repeat split.
  - intros h c Hh Hc. unfold initStore. cbn [cutDict]. rewrite cutDict_fold.
    rewrite (existsb_eqb_In h histList Hh).
    unfold newCutDict. rewrite newCutDict_fold.
    assert (E : existsb (fun c0 => String.eqb (cut_name (cutObj c)) (cut_name (cutObj c0)))
                        jetCutList = true).
    { apply existsb_exists. exists c. split; [exact Hc | apply String.eqb_refl]. }
    rewrite E. discriminate.
Qed.

Lemma initStore_counter (x : Counter) :
  counter (initStore cutObj histObj histList jetCutList) x = 0.
Proof.
  destruct x as [a | h n b]; cbn [counter].
  - apply initStore_total.
  - destruct (cutDict (initStore cutObj histObj histList jetCutList) h n) as [th |] eqn:E;
      [| reflexivity].
    apply initStore_lookup in E. subst th. reflexivity.
Qed.

(** *** The pass over the entries *)

Lemma fillHist_step (e : Entry) (c h : nat) (s : Store) (w : World) :
  In h histList -> In c jetCutList ->
  wfStore cutObj histObj histList jetCutList s ->
  exists s', fillHist getattr binQuotient cutObj histObj e c h s w = (inr s', w) /\
             wfStore cutObj histObj histList jetCutList s' /\
             forall x, counter s' x = counter s x + addHist getattr binQuotient cutObj histObj e c h x.
Proof.
  intros Hh Hc Hs. unfold fillHist.
  change (Qle_bool (fst (hist_range (histObj h))) (getattr (hist_var (histObj h)) e) &&
          Qlt_bool (getattr (hist_var (histObj h)) e) (snd (hist_range (histObj h))))
    with (inRange getattr histObj h e).
  destruct (inRange getattr histObj h e) eqn:Hin.
  - unfold lookupHist.
    destruct (cutDict s h (cut_name (cutObj c))) as [th |] eqn:Hth.
    2:{ exfalso. apply (proj2 Hs h c Hh Hc). exact Hth. }
    unfold bind, ret. eexists. split; [reflexivity |].
    destruct (proj1 Hs h _ th Hth) as [Hname [Htitle [HN [Hlo Hhi]]]].
    split.
    + split.
      * intros h' n' th'. cbn [cutDict]. unfold fupd, dict_set.
        destruct (Nat.eqb_spec h' h) as [-> | _]; [| apply (proj1 Hs)].
        destruct (String.eqb_spec n' (cut_name (cutObj c))) as [-> | _];
          [| apply (proj1 Hs)].
        intros H. injection H as <-. cbn [Fill fName fTitle fNbins fXmin fXmax].
        repeat split; assumption.
      * intros h' c' Hh' Hc'. cbn [cutDict]. unfold fupd, dict_set.
        destruct (Nat.eqb_spec h' h) as [-> | _]; [| apply (proj2 Hs); assumption].
        destruct (String.eqb_spec (cut_name (cutObj c')) (cut_name (cutObj c)));
          [discriminate | apply (proj2 Hs); assumption].
    + intros [a | h' n' b]; cbn [counter addHist total cutDict]; [lia |].
      unfold fupd, dict_set.
      destruct (Nat.eqb_spec h' h) as [-> | _]; cbn [andb]; [| lia].
      destruct (String.eqb_spec n' (cut_name (cutObj c))) as [-> | _]; cbn [andb]; [| lia].
      rewrite Hth, Hin. cbn [andb Fill fArray].
      assert (Hbin : FindBin binQuotient th (getattr (hist_var (histObj h)) e) =
                     binOf getattr binQuotient cutObj histObj h e).
      { unfold binOf. apply FindBin_axis; [exact HN | exact Hlo | exact Hhi]. }
      rewrite Hbin, (Nat.eqb_sym b).
      destruct (binOf getattr binQuotient cutObj histObj h e =? b); lia.
  - exists s. split; [reflexivity |]. split; [exact Hs |].
    intros [a | h' n' b]; cbn [counter addHist]; [lia |].
    rewrite Hin, andb_false_r. cbn [andb]. lia.
Qed.

Lemma fillCut_step (e : Entry) (c : nat) (s : Store) (w : World) :
  In c jetCutList ->
  wfStore cutObj histObj histList jetCutList s ->
  exists s', fillCut EvalInstance getattr binQuotient cutObj histObj histList e c s w = (inr s', w) /\
             wfStore cutObj histObj histList jetCutList s' /\
             forall x, counter s' x =
                       counter s x + addCut EvalInstance getattr binQuotient cutObj histObj histList e c x.
Proof.
  intros Hc Hs. unfold fillCut, addCut.
  change (truthy (EvalInstance (cut_cuts (cutObj c)) e))
    with (passes EvalInstance cutObj c e).
  destruct (passes EvalInstance cutObj c e).
  - set (s1 := mkStore (fupd (total s) c (total s c + 1)) (cutDict s)).
    assert (Hs1 : wfStore cutObj histObj histList jetCutList s1) by exact Hs.
    destruct (for_total_adds nat Store Counter
                (fillHist getattr binQuotient cutObj histObj e c)
                (wfStore cutObj histObj histList jetCutList)
                counter
                (addHist getattr binQuotient cutObj histObj e c)
                (fun h => In h histList)
                (fun h s w Hh Hs => fillHist_step e c h s w Hh Hc Hs)
                histList (Forall_In_self nat histList) s1 w Hs1)
      as [s' [Hrun [Hs' Hmu]]].
    exists s'. split; [exact Hrun |]. split; [exact Hs' |].
    intros x. rewrite Hmu.
    destruct x as [a | h n b]; cbn [counter s1 total cutDict]; [| lia].
    unfold fupd. destruct (Nat.eqb_spec a c) as [-> | _]; lia.
  - exists s. split; [reflexivity |]. split; [exact Hs |]. intros x. lia.
Qed.

Lemma fillLoop_run (tree : list Entry) (w : World) :
  exists s,
    fillLoop EvalInstance getattr binQuotient cutObj histObj histList jetCutList tree
             (initStore cutObj histObj histList jetCutList) w = (inr s, w) /\
    wfStore cutObj histObj histList jetCutList s /\
    forall x, counter s x =
              list_sum (map (fun e => addEntry EvalInstance getattr binQuotient cutObj histObj
                                               histList jetCutList e x) tree).
Proof.
  unfold fillLoop.
  destruct (for_total_adds Entry Store Counter
              (fun e s => for_ jetCutList
                               (fillCut EvalInstance getattr binQuotient cutObj histObj histList e) s)
              (wfStore cutObj histObj histList jetCutList)
              counter
              (addEntry EvalInstance getattr binQuotient cutObj histObj histList jetCutList)
              (fun _ => True)
              (fun e s w _ Hs =>
                 for_total_adds nat Store Counter
                   (fillCut EvalInstance getattr binQuotient cutObj histObj histList e)
                   (wfStore cutObj histObj histList jetCutList)
                   counter
                   (addCut EvalInstance getattr binQuotient cutObj histObj histList e)
                   (fun c => In c jetCutList)
                   (fun c s w Hc Hs => fillCut_step e c s w Hc Hs)
                   jetCutList (Forall_In_self nat jetCutList) s w Hs)
              tree (proj2 (Forall_forall (fun _ => True) tree) (fun _ _ => I))
              (initStore cutObj histObj histList jetCutList) w initStore_wf)
    as [s [Hrun [Hs Hmu]]].
  exists s. split; [exact Hrun |]. split; [exact Hs |].
  intros x. rewrite Hmu, initStore_counter. reflexivity.
Qed.

End DiscrHistFacts.

(** *** drawEffVsCutCurve on a histogram of counts *)

Lemma drawEff_run (h : TH1) (t : N) (w : World) :
  drawEffVsCutCurve h t w =
  (if Qeq_bool (normalisation h t) 0 then inl ZeroDivisionError
   else inr (effCurve h t),
   mkWorld (slots w) (calls w)
           (stdout w ++
            if negb (N.eqb t 0) &&
               Qlt_bool (inject_Z (Z.of_N t))
                        (residual h (Integral h) (xrange 2 (GetNbinsX h)))
            then [effWarning] else [])).
Proof.
  rewrite (surjective_pairing (drawEffVsCutCurve h t w)).
  rewrite drawEff_result, drawEff_world. reflexivity.
Qed.

Lemma residual_le_Integral (h : TH1) :
  (forall i, 1 <= i <= GetNbinsX h -> (0 <= GetBinContent h i)%Q) ->
  (0 <= residual h (Integral h) (xrange 2 (GetNbinsX h)) <= Integral h)%Q.
Proof.
  intros Hc. split.
  - exact (normalisation_nonneg h 0 Hc).
  - rewrite residual_sum. unfold xrange. rewrite xrange2_contents.
    assert (H : (0 <= Qsum (map (GetBinContent h) (seq 1 (GetNbinsX h - 2))))%Q).
    { apply Qsum_nonneg, contents_nonneg; [exact Hc | lia | lia]. }
    lra.
Qed.

(** With a total that is a count at least as large as the integral, as
    createDiscrHist passes it: no warning, and a division by zero exactly
    for the count 0. *)
Lemma drawEff_counted (h : TH1) (t : nat) (w : World) :
  (forall i, 1 <= i <= GetNbinsX h -> (0 <= GetBinContent h i)%Q) ->
  (Integral h <= Qnat t)%Q ->
  drawEffVsCutCurve h (N.of_nat t) w =
  (if t =? 0 then inl ZeroDivisionError else inr (effCurve h (N.of_nat t)), w).
Proof.
  intros Hc Hint. rewrite drawEff_run.
  pose proof (residual_le_Integral h Hc) as [Hr0 Hr1].
  destruct t as [| t].
  - cbn [N.of_nat N.eqb negb andb Nat.eqb]. rewrite app_nil_r, world_eta.
    assert (Hz : Qeq_bool (normalisation h 0) 0 = true).
    { apply Qeq_bool_iff. unfold normalisation. cbn [N.eqb].
      change (Qnat 0) with 0%Q in Hint. lra. }
    rewrite Hz. reflexivity.
  - assert (Hne : N.of_nat (S t) <> 0%N) by lia.
    assert (Hq : inject_Z (Z.of_N (N.of_nat (S t))) = Qnat (S t)).
    { unfold Qnat. rewrite nat_N_Z. reflexivity. }
    assert (Hz : Qeq_bool (normalisation h (N.of_nat (S t))) 0 = false).
    { rewrite (normalisation_total h _ Hne), Hq.
      destruct (Qeq_bool (Qnat (S t)) 0) eqn:E; [| reflexivity].
      apply Qeq_bool_iff in E. pose proof (Qnat_pos (S t) ltac:(lia)). lra. }
    rewrite Hz, Hq.
    assert (Hl : Qlt_bool (Qnat (S t))
                          (residual h (Integral h) (xrange 2 (GetNbinsX h))) = false).
    { destruct (Qlt_bool (Qnat (S t)) _) eqn:E; [| reflexivity].
      apply Qlt_bool_iff in E. lra. }
    rewrite Hl, andb_false_r, app_nil_r, world_eta. reflexivity.
Qed.

(** *** Boolean and list facts for the last two stages *)

Lemma forallb_const_true (A : Type) (l : list A) : forallb (fun _ => true) l = true.
Proof. induction l as [| a l IH]; [reflexivity | exact IH]. Qed.

Lemma fold_left_snoc (A B : Type) (g : A -> B) (l : list A) (acc : list B) :
  fold_left (fun acc a => acc ++ [g a]) l acc = acc ++ map g l.
Proof.
  revert acc. induction l as [| a l IH]; intros acc; cbn [fold_left map].
  - rewrite app_nil_r. reflexivity.
  - rewrite IH, <- app_assoc. reflexivity.
Qed.

Lemma fold_left_snoc_if (A B : Type) (p : A -> bool) (g : A -> B) (l : list A)
      (acc : list B) :
  fold_left (fun acc a => if p a then acc ++ [g a] else acc) l acc =
  acc ++ map g (filter p l).
Proof.
  revert acc. induction l as [| a l IH]; intros acc; cbn [fold_left filter].
  - rewrite app_nil_r. reflexivity.
  - rewrite IH. destruct (p a); [| reflexivity].
    cbn [map]. rewrite <- app_assoc. reflexivity.
Qed.

Lemma fold_left_app_flat (A B : Type) (G : A -> list B) (l : list A) (acc : list B) :
  fold_left (fun acc a => acc ++ G a) l acc = acc ++ flat_map G l.
Proof.
  revert acc. induction l as [| a l IH]; intros acc; cbn [fold_left flat_map].
  - rewrite app_nil_r. reflexivity.
  - rewrite IH, <- app_assoc. reflexivity.
Qed.

Lemma forallb_negb_and (A : Type) (p : A -> bool) (z : bool) (l : list A) :
  forallb (fun a => negb (p a && z)) l = negb (existsb p l && z).
Proof.
  induction l as [| a l IH]; cbn [forallb existsb]; [reflexivity |].
  rewrite IH. destruct (p a), (existsb p l), z; reflexivity.
Qed.

Lemma forallb_negb_and_r (A : Type) (z : A -> bool) (b : bool) (l : list A) :
  forallb (fun a => negb (b && z a)) l = negb (b && existsb z l).
Proof.
  induction l as [| a l IH]; cbn [forallb existsb].
  - rewrite andb_false_r. reflexivity.
  - rewrite IH. destruct b, (z a), (existsb z l); reflexivity.
Qed.

Lemma existsb_ext_in (A : Type) (p q : A -> bool) (l : list A) :
  (forall a, In a l -> p a = q a) -> existsb p l = existsb q l.
Proof.
  induction l as [| a l IH]; intros H; cbn [existsb]; [reflexivity |].
  rewrite (H a) by (left; reflexivity). rewrite IH; [reflexivity |].
  intros x Hx. apply H. right. exact Hx.
Qed.

Lemma print_lines (A : Type) (g : A -> line) (l : list A) (w : World) :
  for_ l (fun a (_ : unit) => print (g a)) tt w =
  (inr tt, mkWorld (slots w) (calls w) (stdout w ++ map g l)).
Proof.
  revert w. induction l as [| a l IH]; intros w; cbn [for_ map].
  - rewrite app_nil_r, world_eta. reflexivity.
  - unfold bind at 1. unfold print at 1. cbn beta iota.
    rewrite IH. cbn [slots calls stdout]. rewrite <- app_assoc. reflexivity.
Qed.

Lemma forallb_ext (A : Type) (p q : A -> bool) :
  (forall a, p a = q a) -> forall l, forallb p l = forallb q l.
Proof.
  intros H l. induction l as [| a l IH]; cbn [forallb]; [reflexivity |].
  rewrite H, IH. reflexivity.
Qed.

(** *** What the pass leaves in the store *)

Section DiscrHistRun.

Variable Entry : Type.
Variable EvalInstance : string -> Entry -> Q.
Variable getattr : string -> Entry -> Q.
Variable binQuotient : nat -> Q -> Q -> Q -> Z.
Variable cutObj : nat -> JetCut.
Variable histObj : nat -> HistDict.
Variables histList jetCutList : list nat.

Lemma addCut_total (e : Entry) (c a : nat) :
  addCut EvalInstance getattr binQuotient cutObj histObj histList e c (TotalOf a) =
  if passes EvalInstance cutObj c e then (if a =? c then 1 else 0) else 0.
Proof.
  unfold addCut. destruct (passes EvalInstance cutObj c e); [| reflexivity].
  cbn [addHist]. rewrite list_sum_zero. lia.
Qed.

Lemma total_formula (tree : list Entry) (a : nat) :
  list_sum (map (fun e => addEntry EvalInstance getattr binQuotient cutObj histObj
                                   histList jetCutList e (TotalOf a)) tree) =
  occurrences jetCutList a * length (filter (passes EvalInstance cutObj a) tree).
Proof.
  rewrite <- list_sum_if_length. f_equal. apply map_ext. intros e.
  unfold addEntry.
  rewrite (map_ext _ _ (fun c => addCut_total e c a)).
  apply (list_sum_occurrences (fun c => passes EvalInstance cutObj c e)).
Qed.

Hypothesis distinct_hists : NoDup histList.
Hypothesis distinct_names : NoDup (map (fun c => cut_name (cutObj c)) jetCutList).

Lemma addEntry_bin (e : Entry) (c0 h0 b : nat) :
  In c0 jetCutList -> In h0 histList ->
  addEntry EvalInstance getattr binQuotient cutObj histObj histList jetCutList e
           (BinOf h0 (cut_name (cutObj c0)) b) =
  if passes EvalInstance cutObj c0 e && inRange getattr histObj h0 e &&
     (binOf getattr binQuotient cutObj histObj h0 e =? b)
  then 1 else 0.
Proof.
  intros Hc0 Hh0. unfold addEntry.
  rewrite (list_sum_unique nat _ jetCutList c0
             (NoDup_map_inv _ _ distinct_names) Hc0).
  - unfold addCut. destruct (passes EvalInstance cutObj c0 e); cbn [andb]; [| reflexivity].
    rewrite (list_sum_unique nat _ histList h0 distinct_hists Hh0).
    + cbn [addHist]. rewrite Nat.eqb_refl, String.eqb_refl. reflexivity.
    + intros h Hh Hne. cbn [addHist].
      destruct (Nat.eqb_spec h0 h); [congruence | reflexivity].
  - intros c Hc Hne. unfold addCut.
    destruct (passes EvalInstance cutObj c e); [| reflexivity].
    rewrite list_sum_zero_in; [reflexivity |].
    intros h _. cbn [addHist].
    destruct (String.eqb_spec (cut_name (cutObj c0)) (cut_name (cutObj c))) as [E | _].
    + exfalso. apply Hne. symmetry.
      apply (NoDup_map_injective nat string (fun c => cut_name (cutObj c)) jetCutList);
        assumption.
    + rewrite andb_false_r. reflexivity.
Qed.

Lemma bin_formula (tree : list Entry) (c0 h0 b : nat) :
  In c0 jetCutList -> In h0 histList ->
  list_sum (map (fun e => addEntry EvalInstance getattr binQuotient cutObj histObj
                                   histList jetCutList e
                                   (BinOf h0 (cut_name (cutObj c0)) b)) tree) =
  length (binEntries EvalInstance getattr binQuotient cutObj histObj tree c0 h0 b).
Proof.
  intros Hc0 Hh0.
  rewrite (map_ext _ _ (fun e => addEntry_bin e c0 h0 b Hc0 Hh0)).
  rewrite list_sum_if_length. unfold binEntries. lia.
Qed.

End DiscrHistRun.

Section DiscrHistStore.

Variable Entry : Type.
Variable EvalInstance : string -> Entry -> Q.
Variable getattr : string -> Entry -> Q.
Variable binQuotient : nat -> Q -> Q -> Q -> Z.
Variable cutObj : nat -> JetCut.
Variable histObj : nat -> HistDict.
Variables histList jetCutList : list nat.
Variable tree : list Entry.
Variable s : Store.

Hypothesis filled :
  filledStore EvalInstance getattr binQuotient cutObj histObj histList jetCutList tree s.

Lemma histOf_lookup (c h : nat) :
  In c jetCutList -> In h histList ->
  cutDict s h (cut_name (cutObj c)) = Some (histOf cutObj histObj s c h).
Proof.
  intros Hc Hh. unfold histOf.
  destruct (cutDict s h (cut_name (cutObj c))) eqn:E; [reflexivity |].
  exfalso. exact (proj2 (proj1 filled) h c Hh Hc E).
Qed.

Lemma lookupHist_run (c h : nat) (w : World) :
  In c jetCutList -> In h histList ->
  lookupHist cutObj s c h w = (inr (histOf cutObj histObj s c h), w).
Proof.
  intros Hc Hh. unfold lookupHist. rewrite (histOf_lookup c h Hc Hh). reflexivity.
Qed.

Lemma histOf_made (c h : nat) :
  In c jetCutList -> In h histList ->
  fName (histOf cutObj histObj s c h) =
    (cut_name (cutObj c) ++ "_" ++ hist_name (histObj h))%string /\
  fTitle (histOf cutObj histObj s c h) = hist_title (histObj h) /\
  fNbins (histOf cutObj histObj s c h) = fNbins (emptyHist cutObj histObj 0 h) /\
  fXmin (histOf cutObj histObj s c h) = fst (hist_range (histObj h)) /\
  fXmax (histOf cutObj histObj s c h) = snd (hist_range (histObj h)).
Proof.
  intros Hc Hh. exact (proj1 (proj1 filled) h _ _ (histOf_lookup c h Hc Hh)).
Qed.

Lemma store_total (c : nat) :
  total s c =
  occurrences jetCutList c * length (filter (passes EvalInstance cutObj c) tree).
Proof.
  rewrite <- total_formula with (getattr := getattr) (binQuotient := binQuotient)
                                (histObj := histObj) (histList := histList).
  exact (proj2 filled (TotalOf c)).
Qed.

Hypothesis distinct_hists : NoDup histList.
Hypothesis distinct_names : NoDup (map (fun c => cut_name (cutObj c)) jetCutList).

Lemma store_total_distinct (c : nat) :
  In c jetCutList ->
  total s c = length (filter (passes EvalInstance cutObj c) tree).
Proof.
  intros Hc. rewrite store_total. unfold occurrences.
  pose proof (NoDup_map_inv _ _ distinct_names) as Hnd.
  rewrite (proj1 (NoDup_count_occ' Nat.eq_dec jetCutList) Hnd c Hc). lia.
Qed.

Lemma store_bin (c h b : nat) :
  In c jetCutList -> In h histList ->
  fArray (histOf cutObj histObj s c h) b =
  length (binEntries EvalInstance getattr binQuotient cutObj histObj tree c h b).
Proof.
  intros Hc Hh.
  rewrite <- (bin_formula Entry EvalInstance getattr binQuotient cutObj histObj histList jetCutList
                distinct_hists distinct_names tree c h b Hc Hh).
  rewrite <- (proj2 filled (BinOf h (cut_name (cutObj c)) b)).
  cbn [counter]. rewrite (histOf_lookup c h Hc Hh). reflexivity.
Qed.

(** Nothing lands in the underflow bin. *)
Lemma store_flow (c h : nat) :
  In c jetCutList -> In h histList ->
  fArray (histOf cutObj histObj s c h) 0 = 0.
Proof.
  intros Hc Hh. rewrite (store_bin c h 0 Hc Hh).
  unfold binEntries.
  apply filter_none with (p := fun e => passes EvalInstance cutObj c e &&
                                         inRange getattr histObj h e &&
                                         (binOf getattr binQuotient cutObj histObj h e =? 0)).
  apply forallb_forall. intros e _.
  destruct (inRange getattr histObj h e) eqn:Hin.
  - pose proof (binOf_in_range Entry getattr binQuotient cutObj histObj h e Hin) as Hk.
    destruct (Nat.eqb_spec (binOf getattr binQuotient cutObj histObj h e) 0); [lia |].
    rewrite andb_false_r. reflexivity.
  - rewrite andb_false_r. reflexivity.
Qed.

(** The integral counts the entries of the category whose value lies in
    the range and which FindBin puts in one of the bins 1..fNbins. *)
Lemma hist_Integral (c h : nat) :
  In c jetCutList -> In h histList ->
  (Integral (asTH1 (histOf cutObj histObj s c h)) ==
   Qnat (length (filter (fun e => passes EvalInstance cutObj c e &&
                                  inRange getattr histObj h e &&
                                  (binOf getattr binQuotient cutObj histObj h e <=?
                                   fNbins (emptyHist cutObj histObj 0 h))) tree)))%Q.
Proof.
  intros Hc Hh. unfold Integral. cbn [asTH1 GetNbinsX GetBinContent].
  set (th := histOf cutObj histObj s c h).
  rewrite (map_ext_in _ (fun i => Qnat (fArray th i))).
  2:{ intros i Hi. apply in_seq in Hi. f_equal. f_equal. lia. }
  rewrite Qsum_Qnat.
  rewrite (map_ext _ _ (fun b => store_bin c h b Hc Hh)).
  unfold binEntries.
  destruct (histOf_made c h Hc Hh) as [_ [_ [HN _]]]. fold th in HN. rewrite HN.
  set (B := fNbins (emptyHist cutObj histObj 0 h)).
  rewrite (map_ext_in
             (fun b => length (filter (fun e => passes EvalInstance cutObj c e &&
                                                inRange getattr histObj h e &&
                                                (binOf getattr binQuotient cutObj histObj h e
                                                 =? b)) tree))
             (fun b => length (filter
                                 (fun e => (passes EvalInstance cutObj c e &&
                                            inRange getattr histObj h e &&
                                            (binOf getattr binQuotient cutObj histObj h e
                                             <=? B)) &&
                                           (binOf getattr binQuotient cutObj histObj h e
                                            =? b)) tree))).
  2:{ intros b Hb. apply in_seq in Hb. f_equal. apply filter_ext. intros e.
      destruct (Nat.eqb_spec (binOf getattr binQuotient cutObj histObj h e) b) as [E | _].
      - rewrite E. destruct (Nat.leb_spec b B); [| lia].
        rewrite !andb_true_r. reflexivity.
      - rewrite !andb_false_r. reflexivity. }
  rewrite (bins_partition Entry
             (fun e => passes EvalInstance cutObj c e && inRange getattr histObj h e &&
                       (binOf getattr binQuotient cutObj histObj h e <=? B))
             (binOf getattr binQuotient cutObj histObj h)).
  - reflexivity.
  - intros e _ Hq. apply andb_prop in Hq. destruct Hq as [Hq HB].
    apply andb_prop in Hq. destruct Hq as [_ Hin].
    apply Nat.leb_le in HB.
    pose proof (binOf_in_range Entry getattr binQuotient cutObj histObj h e Hin). lia.
Qed.

Lemma hist_nonneg (th : TH1D) (i : nat) : (0 <= GetBinContent (asTH1 th) i)%Q.
Proof.
  cbn [asTH1 GetBinContent]. unfold Qnat, Qle. cbn. lia.
Qed.

Lemma hist_Integral_le_total (c h : nat) :
  In c jetCutList -> In h histList ->
  (Integral (asTH1 (histOf cutObj histObj s c h)) <= Qnat (total s c))%Q.
Proof.
  intros Hc Hh. rewrite (hist_Integral c h Hc Hh), (store_total_distinct c Hc).
  unfold Qnat. rewrite <- Zle_Qle. apply Nat2Z.inj_le.
  rewrite (filter_ext _ (fun e => passes EvalInstance cutObj c e &&
                                  (inRange getattr histObj h e &&
                                   (binOf getattr binQuotient cutObj histObj h e <=?
                                    fNbins (emptyHist cutObj histObj 0 h)))))
    by (intros e; rewrite andb_assoc; reflexivity).
  apply filter_and_le.
Qed.

(** *** Writing the histograms and the curves *)

Lemma writeHists_run (keys : list TKey) (w : World) :
  writeHists cutObj histObj histList jetCutList s keys w =
  (inr (keys ++ histKeys cutObj histObj histList jetCutList s), w).
Proof.
  unfold writeHists, histKeys.
  rewrite (for_step nat (list TKey)
             (fun cut keys => for_ histList (writeHist cutObj histObj s cut) keys)
             (fun c keys => keys ++ map (histKey cutObj histObj s c) histList)
             (fun _ => true) (fun c => In c jetCutList) IndexError).
  - rewrite forallb_const_true.
    rewrite (fold_left_app_flat nat TKey
               (fun c => map (histKey cutObj histObj s c) histList)).
    reflexivity.
  - intros c keys0 w0 Hc _.
    rewrite (for_step nat (list TKey) (writeHist cutObj histObj s c)
               (fun h keys => keys ++ [histKey cutObj histObj s c h])
               (fun _ => true) (fun h => In h histList) IndexError).
    + rewrite forallb_const_true.
      rewrite (fold_left_snoc nat TKey (histKey cutObj histObj s c)). reflexivity.
    + intros h keys1 w1 Hh _. unfold writeHist.
      rewrite (bind_ok _ _ _ _ _ _ _ (lookupHist_run c h w1 Hc Hh)). reflexivity.
    + intros; discriminate.
    + apply Forall_In_self.
  - intros; discriminate.
  - apply Forall_In_self.
Qed.

Lemma writeGraph_run (c h : nat) (keys : list TKey) (w : World) :
  In c jetCutList -> In h histList ->
  writeGraph cutObj histObj s c h keys w =
  if wantsGraph histObj h && (total s c =? 0) then (inl ZeroDivisionError, w)
  else (inr (if wantsGraph histObj h
             then keys ++ [graphKey cutObj histObj s c h] else keys), w).
Proof.
  intros Hc Hh. unfold writeGraph, wantsGraph.
  destruct (hist_discreff (histObj h)) as [[|] |]; cbn [andb]; try reflexivity.
  rewrite (bind_ok _ _ _ _ _ _ _ (lookupHist_run c h w Hc Hh)).
  unfold bind at 1.
  rewrite (drawEff_counted (asTH1 (histOf cutObj histObj s c h)) (total s c) w
             (fun i _ => hist_nonneg _ i) (hist_Integral_le_total c h Hc Hh)).
  destruct (total s c =? 0); reflexivity.
Qed.

Lemma writeGraphs_run (keys : list TKey) (w : World) :
  writeGraphs cutObj histObj histList jetCutList s keys w =
  if emptyCategoryWithGraph EvalInstance cutObj histObj histList jetCutList tree
  then (inl ZeroDivisionError, w)
  else (inr (keys ++ graphKeys cutObj histObj histList jetCutList s), w).
Proof.
  unfold writeGraphs, graphKeys.
  rewrite (for_step nat (list TKey)
             (fun cut keys => for_ histList (writeGraph cutObj histObj s cut) keys)
             (fun c keys => keys ++ map (graphKey cutObj histObj s c)
                                        (filter (wantsGraph histObj) histList))
             (fun c => forallb (fun h => negb (wantsGraph histObj h && (total s c =? 0)))
                               histList)
             (fun c => In c jetCutList) ZeroDivisionError).
  - rewrite (fold_left_app_flat nat TKey
               (fun c => map (graphKey cutObj histObj s c)
                             (filter (wantsGraph histObj) histList))).
    assert (E : forallb (fun c => forallb (fun h => negb (wantsGraph histObj h &&
                                                          (total s c =? 0))) histList)
                        jetCutList =
                negb (emptyCategoryWithGraph EvalInstance cutObj histObj
                                             histList jetCutList tree)).
    { unfold emptyCategoryWithGraph.
      rewrite (forallb_ext nat _
                 (fun c => negb (existsb (wantsGraph histObj) histList &&
                                (total s c =? 0)))).
      2:{ intros c. apply forallb_negb_and. }
      rewrite forallb_negb_and_r. f_equal. f_equal.
      apply existsb_ext_in. intros c Hc.
      rewrite (store_total_distinct c Hc).
      destruct (forallb (fun e => negb (passes EvalInstance cutObj c e)) tree) eqn:F.
      - apply filter_none in F. rewrite F. reflexivity.
      - destruct (Nat.eqb_spec (length (filter (passes EvalInstance cutObj c) tree)) 0)
          as [Z | _]; [| reflexivity].
        apply filter_none in Z. congruence. }
    rewrite E.
    destruct (emptyCategoryWithGraph EvalInstance cutObj histObj histList jetCutList tree);
      reflexivity.
  - intros c keys0 w0 Hc Hok.
    rewrite (for_step nat (list TKey) (writeGraph cutObj histObj s c)
               (fun h keys => if wantsGraph histObj h
                              then keys ++ [graphKey cutObj histObj s c h] else keys)
               (fun h => negb (wantsGraph histObj h && (total s c =? 0)))
               (fun h => In h histList) ZeroDivisionError).
    + rewrite Hok.
      rewrite (fold_left_snoc_if nat TKey (wantsGraph histObj)
                 (graphKey cutObj histObj s c)).
      reflexivity.
    + intros h keys1 w1 Hh Hb. rewrite (writeGraph_run c h keys1 w1 Hc Hh).
      apply negb_true_iff in Hb. rewrite Hb. reflexivity.
    + intros h keys1 w1 Hh Hb. rewrite (writeGraph_run c h keys1 w1 Hc Hh).
      apply negb_false_iff in Hb. rewrite Hb. reflexivity.
    + apply Forall_In_self.
  - intros c keys0 w0 Hc Hok.
    rewrite (for_step nat (list TKey) (writeGraph cutObj histObj s c)
               (fun h keys => if wantsGraph histObj h
                              then keys ++ [graphKey cutObj histObj s c h] else keys)
               (fun h => negb (wantsGraph histObj h && (total s c =? 0)))
               (fun h => In h histList) ZeroDivisionError).
    + rewrite Hok. reflexivity.
    + intros h keys1 w1 Hh Hb. rewrite (writeGraph_run c h keys1 w1 Hc Hh).
      apply negb_true_iff in Hb. rewrite Hb. reflexivity.
    + intros h keys1 w1 Hh Hb. rewrite (writeGraph_run c h keys1 w1 Hc Hh).
      apply negb_false_iff in Hb. rewrite Hb. reflexivity.
    + apply Forall_In_self.
  - apply Forall_In_self.
Qed.

End DiscrHistStore.

(** *** The points of the curve *)

Lemma effCurve_GetN (h : TH1) (t : N) : GetN (effCurve h t) = S (GetNbinsX h - 2).
Proof.
  unfold GetN, effCurve. rewrite length_combine. cbn [map length].
  rewrite !length_map, running_length. unfold xrange. rewrite length_seq. lia.
Qed.

Lemma effCurve_fst (h : TH1) (t : N) (k : nat) :
  k < S (GetNbinsX h - 2) ->
  fst (GetPoint (effCurve h t) k) = GetBinLowEdge h (S k).
Proof.
  intros Hk. unfold GetPoint, effCurve.
  rewrite combine_nth
    by (cbn [map length]; rewrite !length_map, running_length; reflexivity).
  cbn [fst].
  rewrite (nth_indep _ 0%Q (GetBinLowEdge h 0))
    by (cbn [map length]; rewrite length_map; unfold xrange; rewrite length_seq; lia).
  rewrite map_nth. f_equal.
  destruct k as [| k]; [reflexivity |].
  cbn [nth]. unfold xrange. rewrite seq_nth by lia. reflexivity.
Qed.

Section DiscrHistCurves.

Variable Entry : Type.
Variable EvalInstance : string -> Entry -> Q.
Variable getattr : string -> Entry -> Q.
Variable binQuotient : nat -> Q -> Q -> Q -> Z.
Variable cutObj : nat -> JetCut.
Variable histObj : nat -> HistDict.
Variables histList jetCutList : list nat.
Variable tree : list Entry.
Variable s : Store.

Hypothesis filled :
  filledStore EvalInstance getattr binQuotient cutObj histObj histList jetCutList tree s.





Hypothesis distinct_hists : NoDup histList.
Hypothesis distinct_names : NoDup (map (fun c => cut_name (cutObj c)) jetCutList).

(** The content of the bins above bin [k]. *)
Lemma hist_tail (c h k : nat) :
  In c jetCutList -> In h histList ->
  k <= fNbins (histOf cutObj histObj s c h) ->
  (Qsum (map (GetBinContent (asTH1 (histOf cutObj histObj s c h)))
             (seq (S k) (fNbins (histOf cutObj histObj s c h) - k))) ==
   Qnat (length (filter (fun e => passes EvalInstance cutObj c e &&
                                  inRange getattr histObj h e &&
                                  aboveBin getattr binQuotient cutObj histObj h k e)
                        tree)))%Q.
Proof.
  intros Hc Hh Hk. cbn [asTH1 GetBinContent].
  destruct (histOf_made Entry EvalInstance getattr binQuotient cutObj histObj histList
              jetCutList tree s filled c h Hc Hh) as [_ [_ [HN _]]].
  set (th := histOf cutObj histObj s c h) in *.
  rewrite (map_ext_in _ (fun i => Qnat (fArray th i))).
  2:{ intros i Hi. apply in_seq in Hi. f_equal. f_equal. lia. }
  rewrite Qsum_Qnat.
  rewrite (map_ext _ _ (fun b => store_bin Entry EvalInstance getattr binQuotient cutObj histObj
                                   histList jetCutList tree s filled
                                   distinct_hists distinct_names c h b Hc Hh)).
  unfold binEntries.
  rewrite (map_ext_in _
             (fun b => length (filter
                         (fun e => (passes EvalInstance cutObj c e &&
                                    inRange getattr histObj h e &&
                                    aboveBin getattr binQuotient cutObj histObj h k e) &&
                                   (binOf getattr binQuotient cutObj histObj h e =? b)) tree))).
  2:{ intros b Hb. apply in_seq in Hb. f_equal. apply filter_ext. intros e.
      unfold aboveBin.
      destruct (Nat.eqb_spec (binOf getattr binQuotient cutObj histObj h e) b) as [E | _].
      - rewrite E.
        destruct (Nat.ltb_spec k b); [| lia].
        destruct (Nat.leb_spec b (fNbins (emptyHist cutObj histObj 0 h))); [| lia].
        rewrite !andb_true_r. reflexivity.
      - rewrite !andb_false_r. reflexivity. }
  rewrite (bins_partition Entry
             (fun e => passes EvalInstance cutObj c e && inRange getattr histObj h e &&
                       aboveBin getattr binQuotient cutObj histObj h k e)
             (binOf getattr binQuotient cutObj histObj h)).
  - reflexivity.
  - intros e _ Hq. apply andb_prop in Hq. destruct Hq as [_ Hab].
    unfold aboveBin in Hab. apply andb_prop in Hab. destruct Hab as [Hlt Hle].
    apply Nat.ltb_lt in Hlt. apply Nat.leb_le in Hle. lia.
Qed.

Lemma nonempty_category (c h : nat) :
  emptyCategoryWithGraph EvalInstance cutObj histObj histList jetCutList tree = false ->
  In c jetCutList -> In h histList -> wantsGraph histObj h = true ->
  total s c <> 0.
Proof.
  intros He Hc Hh Hw.
  rewrite (store_total_distinct Entry EvalInstance getattr binQuotient cutObj histObj histList
             jetCutList tree s filled distinct_names c Hc).
  unfold emptyCategoryWithGraph in He.
  assert (E1 : existsb (wantsGraph histObj) histList = true).
  { apply existsb_exists. exists h. split; assumption. }
  rewrite E1 in He. cbn [andb] in He.
  intros Z. apply filter_none in Z.
  assert (E2 : existsb (fun c => forallb (fun e => negb (passes EvalInstance cutObj c e))
                                         tree) jetCutList = true).
  { apply existsb_exists. exists c. split; assumption. }
  congruence.
Qed.

Lemma curve_points (c h : nat) :
  In c jetCutList -> In h histList -> total s c <> 0 ->
  GetN (effCurve (asTH1 (histOf cutObj histObj s c h)) (N.of_nat (total s c))) =
  S (fNbins (histOf cutObj histObj s c h) - 2) /\
  forall k, k < S (fNbins (histOf cutObj histObj s c h) - 2) ->
    fst (GetPoint (effCurve (asTH1 (histOf cutObj histObj s c h))
                            (N.of_nat (total s c))) k) =
    GetBinLowEdge (asTH1 (histOf cutObj histObj s c h)) (S k) /\
    (snd (GetPoint (effCurve (asTH1 (histOf cutObj histObj s c h))
                             (N.of_nat (total s c))) k) ==
     Qnat (length (filter (fun e => passes EvalInstance cutObj c e &&
                                    inRange getattr histObj h e &&
                                    aboveBin getattr binQuotient cutObj histObj h k e)
                          tree)) /
     Qnat (length (filter (passes EvalInstance cutObj c) tree)))%Q /\
    (0 <= snd (GetPoint (effCurve (asTH1 (histOf cutObj histObj s c h))
                                  (N.of_nat (total s c))) k) <= 1)%Q.
Proof.
  intros Hc Hh Ht.
  set (th := histOf cutObj histObj s c h).
  split; [apply (effCurve_GetN (asTH1 th)) |].
  intros k Hk.
  split; [apply (effCurve_fst (asTH1 th)); exact Hk |].
  assert (Hrun : drawEffVsCutCurve (asTH1 th) (N.of_nat (total s c)) world0 =
                 (inr (effCurve (asTH1 th) (N.of_nat (total s c))), world0)).
  { rewrite (drawEff_counted (asTH1 th) (total s c) world0
               (fun i _ => hist_nonneg th i)
               (hist_Integral_le_total Entry EvalInstance getattr binQuotient cutObj histObj
                  histList jetCutList tree s filled distinct_hists distinct_names
                  c h Hc Hh)).
    destruct (Nat.eqb_spec (total s c) 0); [contradiction | reflexivity]. }
  assert (Hval :
    (snd (GetPoint (effCurve (asTH1 th) (N.of_nat (total s c))) k) ==
     Qnat (length (filter (fun e => passes EvalInstance cutObj c e &&
                                    inRange getattr histObj h e &&
                                    aboveBin getattr binQuotient cutObj histObj h k e)
                          tree)) /
     Qnat (length (filter (passes EvalInstance cutObj c) tree)))%Q).
  { rewrite (drawEff_tail_sum (asTH1 th) (N.of_nat (total s c)) world0 world0 _ Hrun k)
      by (rewrite effCurve_GetN; exact Hk).
    rewrite normalisation_total by lia.
    change (GetNbinsX (asTH1 th)) with (fNbins th).
    unfold th in *.
    rewrite (hist_tail c h k Hc Hh) by lia.
    rewrite nat_N_Z.
    rewrite (store_total_distinct Entry EvalInstance getattr binQuotient cutObj histObj histList
               jetCutList tree s filled distinct_names c Hc).
    reflexivity. }
  split; [exact Hval |].
  rewrite Hval.
  assert (Hpos : (0 < Qnat (length (filter (passes EvalInstance cutObj c) tree)))%Q).
  { apply Qnat_pos.
    rewrite <- (store_total_distinct Entry EvalInstance getattr binQuotient cutObj histObj histList
                  jetCutList tree s filled distinct_names c Hc). lia. }
  assert (Hle : length (filter (fun e => passes EvalInstance cutObj c e &&
                                         inRange getattr histObj h e &&
                                         aboveBin getattr binQuotient cutObj histObj h k e)
                               tree)
                <= length (filter (passes EvalInstance cutObj c) tree)).
  { rewrite (filter_ext _ (fun e => passes EvalInstance cutObj c e &&
                                    (inRange getattr histObj h e &&
                                     aboveBin getattr binQuotient cutObj histObj h k e)))
      by (intros e; rewrite andb_assoc; reflexivity).
    apply filter_and_le. }
  split.
  - apply Qle_shift_div_l; [exact Hpos |]. rewrite Qmult_0_l.
    unfold Qnat, Qle. cbn. lia.
  - apply Qle_shift_div_r; [exact Hpos |]. rewrite Qmult_1_l.
    unfold Qnat. rewrite <- Zle_Qle. apply Nat2Z.inj_le. exact Hle.
Qed.

End DiscrHistCurves.

(** *** The whole function *)

Section DiscrHistWhole.

Variable Entry : Type.
Variable EvalInstance : string -> Entry -> Q.
Variable getattr : string -> Entry -> Q.
Variable binQuotient : nat -> Q -> Q -> Q -> Z.
Variable isfile : string -> bool.
Variable entriesOf : string -> string -> list Entry.
Variable cutObj : nat -> JetCut.
Variable histObj : nat -> HistDict.
Variable inputFileList : list string.
Variables treeDirectory outputFileName : string.
Variables histList jetCutList : list nat.

Lemma createDiscrHist_missing (present : list string) (file : string)
      (rest : list string) (w : World) :
  inputFileList = present ++ file :: rest ->
  forallb isfile present = true -> isfile file = false ->
  createDiscrHist EvalInstance getattr binQuotient isfile entriesOf cutObj histObj
                  inputFileList treeDirectory outputFileName histList jetCutList w =
  (inl (SystemExit 1),
   mkWorld (slots w) (calls w)
           (stdout w ++ [[Str "Error: file "; Str file; Str " does not exist."]])).
Proof.
  intros -> Hp Hf. unfold createDiscrHist.
  apply bind_raises. apply addFiles_missing; assumption.
Qed.

Hypothesis files_exist : forallb isfile inputFileList = true.

(** Up to the histograms: the pass, the totals, the histograms written. *)
Lemma createDiscrHist_stages (w : World) :
  exists s,
    filledStore EvalInstance getattr binQuotient cutObj histObj histList jetCutList
                (chain entriesOf treeDirectory inputFileList) s /\
    createDiscrHist EvalInstance getattr binQuotient isfile entriesOf cutObj histObj
                    inputFileList treeDirectory outputFileName histList jetCutList w =
    bind (writeGraphs cutObj histObj histList jetCutList s
                      (histKeys cutObj histObj histList jetCutList s))
         (fun keys => ret keys)
         (mkWorld (slots w) (calls w)
                  (stdout w ++ map (totalLine cutObj s) jetCutList)).
Proof.
  destruct (fillLoop_run Entry EvalInstance getattr binQuotient cutObj histObj histList jetCutList
              (chain entriesOf treeDirectory inputFileList) w)
    as [s [Hrun [Hwf Hmu]]].
  assert (Hfilled : filledStore EvalInstance getattr binQuotient cutObj histObj histList jetCutList
                                (chain entriesOf treeDirectory inputFileList) s)
    by (split; assumption).
  exists s. split; [exact Hfilled |].
  unfold createDiscrHist.
  rewrite (bind_ok _ _ _ _ _ _ _
             (addFiles_ok Entry isfile entriesOf treeDirectory inputFileList [] w
                          files_exist)).
  cbn [app].
  rewrite (bind_ok _ _ _ _ _ _ _ Hrun).
  unfold printTotals.
  rewrite (bind_ok _ _ _ _ _ _ _
             (print_lines nat (totalLine cutObj s) jetCutList w)).
  rewrite (bind_ok _ _ _ _ _ _ _
             (writeHists_run Entry EvalInstance getattr binQuotient cutObj histObj
                             histList jetCutList _ s Hfilled [] _)).
  reflexivity.
Qed.

End DiscrHistWhole.

Section DiscrHistOutcome.

Variable Entry : Type.
Variable EvalInstance : string -> Entry -> Q.
Variable getattr : string -> Entry -> Q.
Variable binQuotient : nat -> Q -> Q -> Q -> Z.
Variable isfile : string -> bool.
Variable entriesOf : string -> string -> list Entry.
Variable cutObj : nat -> JetCut.
Variable histObj : nat -> HistDict.
Variable inputFileList : list string.
Variables treeDirectory outputFileName : string.
Variables histList jetCutList : list nat.

Hypothesis files_exist : forallb isfile inputFileList = true.


Hypothesis distinct_hists : NoDup histList.
Hypothesis distinct_names : NoDup (map (fun c => cut_name (cutObj c)) jetCutList).

Lemma createDiscrHist_distinct (w : World) :
  exists s,
    filledStore EvalInstance getattr binQuotient cutObj histObj histList jetCutList
                (chain entriesOf treeDirectory inputFileList) s /\
    createDiscrHist EvalInstance getattr binQuotient isfile entriesOf cutObj histObj
                    inputFileList treeDirectory outputFileName histList jetCutList w =
    (if emptyCategoryWithGraph EvalInstance cutObj histObj histList jetCutList
                               (chain entriesOf treeDirectory inputFileList)
     then inl ZeroDivisionError
     else inr (histKeys cutObj histObj histList jetCutList s ++
               graphKeys cutObj histObj histList jetCutList s),
     mkWorld (slots w) (calls w) (stdout w ++ map (totalLine cutObj s) jetCutList)).
Proof.
  destruct (createDiscrHist_stages Entry EvalInstance getattr binQuotient isfile entriesOf
              cutObj histObj inputFileList treeDirectory outputFileName
              histList jetCutList files_exist w) as [s [Hfilled Hrun]].
  exists s. split; [exact Hfilled |]. rewrite Hrun.
  unfold bind.
  rewrite (writeGraphs_run Entry EvalInstance getattr binQuotient cutObj histObj
             histList jetCutList _ s Hfilled distinct_hists distinct_names).
  destruct (emptyCategoryWithGraph _ _ _ _ _ _); reflexivity.
Qed.

End DiscrHistOutcome.

(** X14.  createDiscrHist checks its input files in list order: at the
    first one that does not exist it prints the error line naming that file
    and exits with status 1; nothing else is printed and no entry is read. *)
Theorem X14_missing_input_file
        (Entry : Type) (EvalInstance getattr : string -> Entry -> Q)
        (binQuotient : nat -> Q -> Q -> Q -> Z)
        (isfile : string -> bool) (entriesOf : string -> string -> list Entry)
        (cutObj : nat -> JetCut) (histObj : nat -> HistDict)
        (present : list string) (file : string) (rest : list string)
        (treeDirectory outputFileName : string) (histList jetCutList : list nat)
        (w : World) :
  forallb isfile present = true -> isfile file = false ->
  createDiscrHist EvalInstance getattr binQuotient isfile entriesOf cutObj histObj
                  (present ++ file :: rest) treeDirectory outputFileName
                  histList jetCutList w =
  (inl (SystemExit 1),
   mkWorld (slots w) (calls w)
           (stdout w ++ [[Str "Error: file "; Str file; Str " does not exist."]])).
Proof.
  intros Hp Hf.
  apply (createDiscrHist_missing Entry EvalInstance getattr binQuotient isfile entriesOf cutObj
           histObj (present ++ file :: rest) treeDirectory outputFileName
           histList jetCutList present file rest w eq_refl Hp Hf).
Qed.

Lemma X14_missing_input_file_witness :
  createDiscrHist exEval (fun _ e => e) exactQuotient exIsfile exEntriesOf exCutObj exHistObj
                  (["in.root"%string] ++ "missing.root"%string :: ["in.root"%string])
                  "jets" "out.root" [0] [0; 2] world0 =
  (inl (SystemExit 1),
   mkWorld [] [] [[Str "Error: file "; Str "missing.root"; Str " does not exist."]]).
Proof.
  apply (X14_missing_input_file Q exEval (fun _ e => e) exactQuotient exIsfile exEntriesOf
           exCutObj exHistObj ["in.root"%string] "missing.root" ["in.root"%string]
           "jets" "out.root" [0] [0; 2] world0).
  - vm_compute. reflexivity.
  - vm_compute. reflexivity.
Defined.





(** X17.  When createDiscrHist returns (input files present, distinct
    histogram dictionaries, distinct category names), the file holds first
    one histogram per category and histogram dictionary, then the curves.
    The histogram of a category and a dictionary has the name cut_hist, the
    title, max(bins,1) bins and the range of the dictionary.  For a chain of
    at most 2^53 entries, its bin b holds the number of entries that pass
    the cut of the category, whose value lies in the range, and which
    FindBin puts in bin b; the underflow bin is empty, and the integral is
    the number of those entries that FindBin puts in one of the regular
    bins (rounding can send a value just below the upper end of the range
    to the overflow bin). *)
Theorem X17_histograms_written
        (Entry : Type) (EvalInstance getattr : string -> Entry -> Q)
        (binQuotient : nat -> Q -> Q -> Q -> Z)
        (isfile : string -> bool) (entriesOf : string -> string -> list Entry)
        (cutObj : nat -> JetCut) (histObj : nat -> HistDict)
        (inputFileList : list string)
        (treeDirectory outputFileName : string) (histList jetCutList : list nat)
        (w w' : World) (keys : list TKey) :
  forallb isfile inputFileList = true ->
  NoDup histList ->
  NoDup (map (fun c => cut_name (cutObj c)) jetCutList) ->
  createDiscrHist EvalInstance getattr binQuotient isfile entriesOf cutObj histObj
                  inputFileList treeDirectory outputFileName histList jetCutList w =
  (inr keys, w') ->
  exists s,
    keys = histKeys cutObj histObj histList jetCutList s ++
           graphKeys cutObj histObj histList jetCutList s /\
    forall c h, In c jetCutList -> In h histList ->
      fName (histOf cutObj histObj s c h) =
        (cut_name (cutObj c) ++ "_" ++ hist_name (histObj h))%string /\
      fTitle (histOf cutObj histObj s c h) = hist_title (histObj h) /\
      fNbins (histOf cutObj histObj s c h) =
        (if (hist_bins (histObj h) <=? 0)%Z then 1
         else Z.to_nat (hist_bins (histObj h))) /\
      fXmin (histOf cutObj histObj s c h) = fst (hist_range (histObj h)) /\
      fXmax (histOf cutObj histObj s c h) = snd (hist_range (histObj h)) /\
      ((N.of_nat (length (chain entriesOf treeDirectory inputFileList))
        <= maxExactCount)%N ->
       (forall b, fArray (histOf cutObj histObj s c h) b =
                  length (binEntries EvalInstance getattr binQuotient cutObj histObj
                                     (chain entriesOf treeDirectory inputFileList)
                                     c h b)) /\
       fArray (histOf cutObj histObj s c h) 0 = 0 /\
       (Integral (asTH1 (histOf cutObj histObj s c h)) ==
        Qnat (length (filter (fun e => passes EvalInstance cutObj c e &&
                                       inRange getattr histObj h e &&
                                       (binOf getattr binQuotient cutObj histObj h e <=?
                                        fNbins (histOf cutObj histObj s c h)))
                             (chain entriesOf treeDirectory inputFileList))))%Q).
Proof.
  intros Hfiles Hh Hn Hrun.
  destruct (createDiscrHist_distinct Entry EvalInstance getattr binQuotient isfile entriesOf
              cutObj histObj inputFileList treeDirectory outputFileName
              histList jetCutList Hfiles Hh Hn w) as [s [Hfilled Hrun']].
  rewrite Hrun in Hrun'.
  exists s. split.
  - destruct (emptyCategoryWithGraph _ _ _ _ _ _); [discriminate |].
    injection Hrun' as -> _. reflexivity.
  - intros c h Hc Hhh.
    destruct (histOf_made Entry EvalInstance getattr binQuotient cutObj histObj histList jetCutList
                _ s Hfilled c h Hc Hhh) as [H1 [H2 [H3 [H4 H5]]]].
    split; [exact H1 |]. split; [exact H2 |]. split; [exact H3 |].
    split; [exact H4 |]. split; [exact H5 |].
    intros _. split.
    { intros b. apply (store_bin Entry EvalInstance getattr binQuotient cutObj histObj histList
                         jetCutList _ s Hfilled Hh Hn c h b Hc Hhh). }
    split.
    { apply (store_flow Entry EvalInstance getattr binQuotient cutObj histObj histList
               jetCutList _ s Hfilled Hh Hn c h Hc Hhh). }
    rewrite H3.
    apply (hist_Integral Entry EvalInstance getattr binQuotient cutObj histObj histList
             jetCutList _ s Hfilled Hh Hn c h Hc Hhh).
Qed.

Lemma X17_histograms_written_witness :
  exists s,
    keysOf (exDiscrHist [0] [0; 2]) =
      histKeys exCutObj exHistObj [0] [0; 2] s ++
      graphKeys exCutObj exHistObj [0] [0; 2] s /\
    fName (histOf exCutObj exHistObj s 2 0) = "high_x"%string /\
    fNbins (histOf exCutObj exHistObj s 2 0) = 4 /\
    map (fArray (histOf exCutObj exHistObj s 0 0)) (seq 0 6) = [0; 1; 1; 0; 1; 0].
Proof.
  destruct (X17_histograms_written Q exEval (fun _ e => e) exactQuotient exIsfile exEntriesOf
              exCutObj exHistObj ["in.root"%string] "jets" "out.root"
              [0] [0; 2] world0 (snd (exDiscrHist [0] [0; 2]))
              (keysOf (exDiscrHist [0] [0; 2])))
    as [s [Hkeys Hall]].
  - vm_compute. reflexivity.
  - repeat constructor; cbn; intuition discriminate.
  - repeat constructor; cbn; intuition discriminate.
  - vm_compute. reflexivity.
  - exists s. split; [exact Hkeys |].
    destruct (Hall 2 0) as [Hname [_ [Hbins _]]]; [cbn; auto | cbn; auto |].
    destruct (Hall 0 0) as [_ [_ [_ [_ [_ Hcount]]]]]; [cbn; auto | cbn; auto |].
    destruct Hcount as [Hbin _]; [vm_compute; discriminate |].
    split; [exact Hname |]. split; [exact Hbins |].
    cbn [map seq]. rewrite !Hbin. vm_compute. reflexivity.
Defined.

(** X18.  When createDiscrHist returns (same conditions), the curve written
    for a category and a histogram dictionary with discreff True has
    max(B,2) - 1 points for B bins; its k-th point has the lower edge of bin
    k+1 of the histogram as cut value and, for a chain of at most 2^53
    entries, as efficiency the number of entries of the category whose value
    lies in the range and which FindBin puts in one of the bins k+1..B,
    divided by the number of all entries of the category (the quotient is
    exact here and rounded once in the program).  Every efficiency lies
    between 0 and 1; entries outside the range or in the overflow bin count
    in the divisor only. *)
Theorem X18_curves_written
        (Entry : Type) (EvalInstance getattr : string -> Entry -> Q)
        (binQuotient : nat -> Q -> Q -> Q -> Z)
        (isfile : string -> bool) (entriesOf : string -> string -> list Entry)
        (cutObj : nat -> JetCut) (histObj : nat -> HistDict)
        (inputFileList : list string)
        (treeDirectory outputFileName : string) (histList jetCutList : list nat)
        (w w' : World) (keys : list TKey) :
  forallb isfile inputFileList = true ->
  NoDup histList ->
  NoDup (map (fun c => cut_name (cutObj c)) jetCutList) ->
  createDiscrHist EvalInstance getattr binQuotient isfile entriesOf cutObj histObj
                  inputFileList treeDirectory outputFileName histList jetCutList w =
  (inr keys, w') ->
  exists s,
    keys = histKeys cutObj histObj histList jetCutList s ++
           graphKeys cutObj histObj histList jetCutList s /\
    forall c h, In c jetCutList -> In h histList -> wantsGraph histObj h = true ->
      let B := if (hist_bins (histObj h) <=? 0)%Z then 1
               else Z.to_nat (hist_bins (histObj h)) in
      let g := effCurve (asTH1 (histOf cutObj histObj s c h)) (N.of_nat (total s c)) in
      GetN g = S (B - 2) /\
      forall k, k < S (B - 2) ->
        fst (GetPoint g k) =
        GetBinLowEdge (asTH1 (histOf cutObj histObj s c h)) (S k) /\
        ((N.of_nat (length (chain entriesOf treeDirectory inputFileList))
          <= maxExactCount)%N ->
         (snd (GetPoint g k) ==
          Qnat (length (filter (fun e => passes EvalInstance cutObj c e &&
                                         inRange getattr histObj h e &&
                                         aboveBin getattr binQuotient cutObj histObj h k e)
                               (chain entriesOf treeDirectory inputFileList))) /
          Qnat (length (filter (passes EvalInstance cutObj c)
                               (chain entriesOf treeDirectory inputFileList))))%Q /\
         (0 <= snd (GetPoint g k) <= 1)%Q).
Proof.
  intros Hfiles Hh Hn Hrun.
  destruct (createDiscrHist_distinct Entry EvalInstance getattr binQuotient isfile entriesOf
              cutObj histObj inputFileList treeDirectory outputFileName
              histList jetCutList Hfiles Hh Hn w) as [s [Hfilled Hrun']].
  rewrite Hrun in Hrun'.
  destruct (emptyCategoryWithGraph EvalInstance cutObj histObj histList jetCutList
              (chain entriesOf treeDirectory inputFileList)) eqn:He; [discriminate |].
  exists s. split.
  - injection Hrun' as -> _. reflexivity.
  - intros c h Hc Hhh Hw B g.
    destruct (histOf_made Entry EvalInstance getattr binQuotient cutObj histObj histList jetCutList
                _ s Hfilled c h Hc Hhh) as [_ [_ [H3 [H4 H5]]]].
    change (fNbins (emptyHist cutObj histObj 0 h)) with B in H3.
    destruct (curve_points Entry EvalInstance getattr binQuotient cutObj histObj histList jetCutList
                _ s Hfilled Hh Hn c h Hc Hhh
                (nonempty_category Entry EvalInstance getattr binQuotient cutObj histObj histList
                   jetCutList _ s Hfilled Hn c h He Hc Hhh Hw)) as [HN Hpts].
    fold g in HN, Hpts. rewrite H3 in HN, Hpts.
    split; [exact HN |].
    intros k Hk. destruct (Hpts k Hk) as [Hx [Hy Hb]].
    split; [exact Hx |]. intros _. split; assumption.
Qed.

Lemma X18_curves_written_witness :
  exists s,
    keysOf (exDiscrHist [0] [0; 2]) =
      histKeys exCutObj exHistObj [0] [0; 2] s ++
      graphKeys exCutObj exHistObj [0] [0; 2] s /\
    GetN (effCurve (asTH1 (histOf exCutObj exHistObj s 0 0)) (N.of_nat (total s 0))) = 3 /\
    (snd (GetPoint (effCurve (asTH1 (histOf exCutObj exHistObj s 0 0))
                             (N.of_nat (total s 0))) 1) == 2 # 4)%Q.
Proof.
  destruct (X18_curves_written Q exEval (fun _ e => e) exactQuotient exIsfile exEntriesOf
              exCutObj exHistObj ["in.root"%string] "jets" "out.root"
              [0] [0; 2] world0 (snd (exDiscrHist [0] [0; 2]))
              (keysOf (exDiscrHist [0] [0; 2])))
    as [s [Hkeys Hall]].
  - vm_compute. reflexivity.
  - repeat constructor; cbn; intuition discriminate.
  - repeat constructor; cbn; intuition discriminate.
  - vm_compute. reflexivity.
  - exists s. split; [exact Hkeys |].
    destruct (Hall 0 0) as [HN Hpts]; [cbn; auto | cbn; auto | reflexivity |].
    split; [exact HN |].
    destruct (Hpts 1) as [_ Hcount]; [cbn; lia |].
    destruct Hcount as [Hy _]; [vm_compute; discriminate |].
    rewrite Hy. vm_compute. reflexivity.
Defined.

(** ** createROCfromEffVsCutCurves *)

Lemma find_append (A : Type) (p : A -> bool) (l1 l2 : list A) :
  find p (l1 ++ l2) =
  match find p l1 with
  | Some a => Some a
  | None => find p l2
  end.
Proof.
  induction l1 as [| a l1 IH]; cbn [app find]; [reflexivity |].
  destruct (p a); [reflexivity | exact IH].
Qed.

Section ROCFileFacts.

Variable Get : string -> option TGraph.
Variable items : list string -> list string.
Variable sigCat : string.
Variable discriminants : list string.

Lemma rocBody_ok (bkg discri : string) (keys : list TKey) (w : World) :
  rocOK Get sigCat bkg discri = true ->
  rocBody Get sigCat bkg discri keys w =
  (inr (keys ++ [rocKey Get sigCat bkg discri]), w).
Proof.
  unfold rocOK, rocBody, rocKey, effOf.
  destruct (Get (sigCat ++ "/" ++ discri ++ "_graph")) as [sg |]; [| discriminate].
  destruct (Get (bkg ++ "/" ++ discri ++ "_graph")) as [bg |]; [| discriminate].
  intros H. apply Nat.eqb_eq in H.
  rewrite (bind_ok _ _ _ _ _ _ _ (drawROC_equal_counts sg bg w H)). reflexivity.
Qed.

Lemma rocBody_fail (bkg discri : string) (keys : list TKey) (w : World) :
  rocOK Get sigCat bkg discri = false ->
  rocBody Get sigCat bkg discri keys w = rocFailure Get sigCat bkg discri w.
Proof.
  unfold rocOK, rocBody, rocFailure.
  destruct (Get (sigCat ++ "/" ++ discri ++ "_graph")) as [sg |]; [| reflexivity].
  destruct (Get (bkg ++ "/" ++ discri ++ "_graph")) as [bg |]; [| reflexivity].
  intros H. apply Nat.eqb_neq in H.
  apply bind_raises. apply drawROC_unequal_counts. exact H.
Qed.

Lemma rocFailure_raises (bkg discri : string) (w : World) :
  exists e w', rocFailure Get sigCat bkg discri w = (inl e, w').
Proof.
  unfold rocFailure.
  destruct (Get (sigCat ++ "/" ++ discri ++ "_graph")) as [sg |];
    [| eexists; eexists; reflexivity].
  destruct (Get (bkg ++ "/" ++ discri ++ "_graph")) as [bg |];
    eexists; eexists; reflexivity.
Qed.

(** The loop over the discriminants stops at the first pair that is not
    in order. *)
Lemma rocInner_run (bkg : string) (l : list string) (keys : list TKey) (w : World) :
  for_ l (rocBody Get sigCat bkg) keys w =
  match find (fun d => negb (rocOK Get sigCat bkg d)) l with
  | None => (inr (keys ++ map (rocKey Get sigCat bkg) l), w)
  | Some d => rocFailure Get sigCat bkg d w
  end.
Proof.
  revert keys. induction l as [| d l IH]; intros keys; cbn [for_ find map].
  - rewrite app_nil_r. reflexivity.
  - destruct (rocOK Get sigCat bkg d) eqn:Hok; cbn [negb].
    + rewrite (bind_ok _ _ _ _ _ _ _ (rocBody_ok bkg d keys w Hok)).
      rewrite IH, <- app_assoc. reflexivity.
    + destruct (rocFailure_raises bkg d w) as [e [w' Hf]].
      rewrite Hf. apply bind_raises. rewrite <- Hf. apply rocBody_fail. exact Hok.
Qed.

Lemma rocOuter_run (bkgs : list string) (keys : list TKey) (w : World) :
  for_ bkgs (fun bkg keys => for_ discriminants (rocBody Get sigCat bkg) keys) keys w =
  match find (fun p => negb (rocOK Get sigCat (fst p) (snd p)))
             (flat_map (fun bkg => map (pair bkg) discriminants) bkgs) with
  | None => (inr (keys ++ flat_map (fun bkg => map (rocKey Get sigCat bkg) discriminants)
                                   bkgs), w)
  | Some p => rocFailure Get sigCat (fst p) (snd p) w
  end.
Proof.
  revert keys. induction bkgs as [| bkg bkgs IH]; intros keys; cbn [for_ flat_map].
  - rewrite app_nil_r. reflexivity.
  - rewrite find_append.
    assert (Hfind : find (fun p => negb (rocOK Get sigCat (fst p) (snd p)))
                         (map (pair bkg) discriminants) =
                    option_map (pair bkg)
                               (find (fun d => negb (rocOK Get sigCat bkg d)) discriminants)).
    { clear. induction discriminants as [| d l IHl]; cbn [map find fst snd option_map].
      - reflexivity.
      - destruct (negb (rocOK Get sigCat bkg d)); [reflexivity | exact IHl]. }
    rewrite Hfind.
    pose proof (rocInner_run bkg discriminants keys w) as Hin.
    destruct (find (fun d => negb (rocOK Get sigCat bkg d)) discriminants) as [d |];
      cbn [option_map].
    + cbn [fst snd].
      destruct (rocFailure_raises bkg d w) as [e [w' Hf]].
      rewrite Hf in Hin |- *. apply bind_raises. exact Hin.
    + rewrite (bind_ok _ _ _ _ _ _ _ Hin). rewrite IH, <- app_assoc. reflexivity.
Qed.

(** The whole function: the first pair that is not in order decides. *)
Lemma createROC_run (inFile outFile : string) (bkgCats : list string) (w : World) :
  createROCfromEffVsCutCurves Get items inFile outFile sigCat bkgCats discriminants w =
  match firstBadPair Get items sigCat bkgCats discriminants with
  | None =>
      (inr (flat_map (fun bkg => map (rocKey Get sigCat bkg) discriminants)
                     (items bkgCats)), w)
  | Some p => rocFailure Get sigCat (fst p) (snd p) w
  end.
Proof.
  unfold createROCfromEffVsCutCurves, firstBadPair, rocPairs.
  rewrite rocOuter_run. reflexivity.
Qed.

End ROCFileFacts.

Lemma firstBadPair_None (Get : string -> option TGraph)
      (items : list string -> list string)
      (sigCat : string) (bkgCats discriminants : list string) :
  (forall x, In x (items bkgCats) <-> In x bkgCats) ->
  (firstBadPair Get items sigCat bkgCats discriminants = None <->
   forall bkg d, In bkg bkgCats -> In d discriminants ->
                 rocOK Get sigCat bkg d = true).
Proof.
  intros Hitems. unfold firstBadPair, rocPairs. split.
  - intros H bkg d Hb Hd.
    pose proof (find_none _ _ H (bkg, d)) as Hn. cbn [fst snd] in Hn.
    apply negb_false_iff. apply Hn.
    apply in_flat_map. exists bkg. split; [apply Hitems; exact Hb |].
    apply in_map. exact Hd.
  - intros H.
    destruct (find _ _) as [[bkg d] |] eqn:E; [| reflexivity].
    apply find_some in E. destruct E as [Hin Hbad]. cbn [fst snd] in Hbad.
    apply in_flat_map in Hin. destruct Hin as [b [Hb Hp]].
    apply in_map_iff in Hp. destruct Hp as [d' [Hp Hd]]. injection Hp as <- <-.
    rewrite (H b d' (proj1 (Hitems b) Hb) Hd) in Hbad. discriminate.
Qed.

(** X19.  createROCfromEffVsCutCurves returns normally exactly when, for
    every background category and every discriminant of its lists, the file
    holds the curve of the signal and the curve of the background and the
    two have the same number of points; it then prints nothing.  Otherwise
    the first pair of a category and a discriminant, in the order of the
    loops, for which this fails decides how the function ends: with
    AttributeError and nothing printed when one of its two curves is
    missing (GetN is looked up on the null object that TFile::Get gave),
    else with the three lines on the point counts and exit status 1. *)
Theorem X19_roc_file_outcome
        (Get : string -> option TGraph) (items : list string -> list string)
        (inFile outFile sigCat : string) (bkgCats discriminants : list string)
        (w : World) :
  (forall x, In x (items bkgCats) <-> In x bkgCats) ->
  (firstBadPair Get items sigCat bkgCats discriminants = None <->
   forall bkg d, In bkg bkgCats -> In d discriminants ->
                 rocOK Get sigCat bkg d = true) /\
  createROCfromEffVsCutCurves Get items inFile outFile sigCat bkgCats discriminants w =
  match firstBadPair Get items sigCat bkgCats discriminants with
  | None =>
      (inr (flat_map (fun bkg => map (rocKey Get sigCat bkg) discriminants)
                     (items bkgCats)), w)
  | Some (bkg, d) =>
      match Get (sigCat ++ "/" ++ d ++ "_graph")%string,
            Get (bkg ++ "/" ++ d ++ "_graph")%string with
      | Some sigGraph, Some bkgGraph =>
          (inl (SystemExit 1),
           mkWorld (slots w) (calls w)
                   (stdout w ++
                    [[Str "Background and signal curves must have the same number of entries!"];
                     [Str "Entries signal:     "; Int (Z.of_nat (GetN sigGraph))];
                     [Str "Entries background: "; Int (Z.of_nat (GetN bkgGraph))]]))
      | _, _ => (inl AttributeError, w)
      end
  end.
Proof.
  intros Hitems. split.
  - apply firstBadPair_None. exact Hitems.
  - rewrite createROC_run.
    destruct (firstBadPair Get items sigCat bkgCats discriminants) as [[bkg d] |];
      reflexivity.
Qed.

Lemma X19_roc_file_outcome_witness :
  createROCfromEffVsCutCurves exGet exItems "in.root" "out.root" "b"
                              ["light"; "c"; "pu"]%string ["x"%string] world0 =
  (inl (SystemExit 1),
   mkWorld [] []
           [[Str "Background and signal curves must have the same number of entries!"];
            [Str "Entries signal:     "; Int 3];
            [Str "Entries background: "; Int 1]]).
Proof.
  destruct (X19_roc_file_outcome exGet exItems "in.root" "out.root" "b"
              ["light"; "c"; "pu"]%string ["x"%string] world0
              (fun x => nodup_In string_dec ["light"; "c"; "pu"]%string x))
    as [_ Hrun].
  rewrite Hrun. vm_compute. reflexivity.
Defined.

(** A category whose curve is not in the file: the function ends with
    AttributeError at that category. *)
Lemma createROC_missing_curve_example :
  createROCfromEffVsCutCurves exGet exItems "in.root" "out.root" "b"
                              ["light"; "pu"; "c"]%string ["x"%string] world0 =
  (inl AttributeError, world0).
Proof.
  vm_compute. reflexivity.
Qed.

(** X20.  When createROCfromEffVsCutCurves returns, the file holds one ROC
    curve for every background category, taken once however often it is
    listed, and every element of the list of discriminants: the curve is
    written in directory sig_vs_bkg under the name of the discriminant, and
    its i-th point is the pair of the i-th efficiencies of the signal and of
    the background curve.  Nothing is printed. *)
Theorem X20_roc_file_content
        (Get : string -> option TGraph) (items : list string -> list string)
        (inFile outFile sigCat : string) (bkgCats discriminants : list string)
        (w w' : World) (keys : list TKey) :
  (forall x, In x (items bkgCats) <-> In x bkgCats) ->
  NoDup (items bkgCats) ->
  createROCfromEffVsCutCurves Get items inFile outFile sigCat bkgCats
                              discriminants w = (inr keys, w') ->
  w' = w /\
  keys = flat_map (fun bkg => map (rocKey Get sigCat bkg) discriminants)
                  (items bkgCats) /\
  length keys = length (nodup string_dec bkgCats) * length discriminants /\
  forall key, In key keys <->
              exists bkg d, In bkg bkgCats /\ In d discriminants /\
                            key = rocKey Get sigCat bkg d.
Proof.
  intros Hitems Hnd Hrun.
  rewrite createROC_run in Hrun.
  destruct (firstBadPair Get items sigCat bkgCats discriminants) as [[bkg d] |].
  { destruct (rocFailure_raises Get sigCat bkg d w) as [e [w1 Hf]].
    cbn [fst snd] in Hrun. rewrite Hf in Hrun. discriminate. }
  injection Hrun as <- <-.
  split; [reflexivity |]. split; [reflexivity |]. split.
  - assert (HL : length (items bkgCats) = length (nodup string_dec bkgCats)).
    { apply Nat.le_antisymm.
      - apply NoDup_incl_length; [exact Hnd |].
        intros x Hx. apply nodup_In. apply Hitems. exact Hx.
      - apply NoDup_incl_length; [apply NoDup_nodup |].
        intros x Hx. apply Hitems. apply nodup_In in Hx. exact Hx. }
    rewrite <- HL. clear.
    induction (items bkgCats) as [| b l IH]; [reflexivity |].
    cbn [flat_map length]. rewrite length_app, length_map, IH. lia.
  - intros key. rewrite in_flat_map. split.
    + intros [bkg [Hb Hk]]. apply in_map_iff in Hk. destruct Hk as [d [<- Hd]].
      exists bkg, d. split; [apply Hitems; exact Hb |]. split; [exact Hd | reflexivity].
    + intros [bkg [d [Hb [Hd ->]]]]. exists bkg.
      split; [apply Hitems; exact Hb |]. apply in_map. exact Hd.
Qed.

Lemma X20_roc_file_content_witness :
  snd (createROCfromEffVsCutCurves exGet exItems "in.root" "out.root" "b"
                                   ["light"; "light"]%string ["x"; "x"]%string world0) =
    world0 /\
  keysOf (createROCfromEffVsCutCurves exGet exItems "in.root" "out.root" "b"
                                      ["light"; "light"]%string ["x"; "x"]%string world0) =
    [mkKey "b_vs_light" "x" (Graph [(9 # 10, 8 # 10); (5 # 10, 3 # 10); (1 # 10, 5 # 100)]%Q);
     mkKey "b_vs_light" "x" (Graph [(9 # 10, 8 # 10); (5 # 10, 3 # 10); (1 # 10, 5 # 100)]%Q)].
Proof.
  destruct (X20_roc_file_content exGet exItems "in.root" "out.root" "b"
              ["light"; "light"]%string ["x"; "x"]%string world0
              (snd (createROCfromEffVsCutCurves exGet exItems "in.root" "out.root" "b"
                      ["light"; "light"]%string ["x"; "x"]%string world0))
              (keysOf (createROCfromEffVsCutCurves exGet exItems "in.root" "out.root" "b"
                         ["light"; "light"]%string ["x"; "x"]%string world0)))
    as [Hw [Hk _]].
  - intros x. apply nodup_In.
  - apply NoDup_nodup.
  - vm_compute. reflexivity.
  - split; [exact Hw |]. rewrite Hk. vm_compute. reflexivity.
Defined.

(** ** createJetTreeTC: the calls to the engines over the whole pass *)

(** A loop whose body appends known calls. *)
Section ForCalls.
Variables A S : Type.
Variable f : A -> S -> M S.
Variable Inv : S -> Prop.
Variable cs : A -> list call.

Hypothesis body_calls : forall a s w s' w',
  Inv s -> f a s w = (inr s', w') -> Inv s' /\ calls w' = calls w ++ cs a.

Lemma for_calls (l : list A) :
  forall s w s' w',
  Inv s -> for_ l f s w = (inr s', w') ->
  Inv s' /\ calls w' = calls w ++ flat_map cs l.
Proof.
  induction l as [| a l IH]; intros s w s' w' Hs Hrun.
  - cbn in Hrun. unfold ret in Hrun. injection Hrun as <- <-.
    split; [exact Hs |]. cbn [flat_map]. rewrite app_nil_r. reflexivity.
  - cbn [for_] in Hrun. apply bind_inv in Hrun.
    destruct Hrun as [s1 [w1 [Hf Hrest]]].
    destruct (body_calls a s w s1 w1 Hs Hf) as [Hs1 Hc1].
    destruct (IH s1 w1 s' w' Hs1 Hrest) as [Hs' Hc'].
    split; [exact Hs' |]. rewrite Hc', Hc1. cbn [flat_map].
    rewrite app_assoc. reflexivity.
Qed.

End ForCalls.

Lemma count_flat_map (A : Type) (p : call -> bool) (g : A -> list call) (l : list A) :
  count p (flat_map g l) = list_sum (map (fun a => count p (g a)) l).
Proof.
  induction l as [| a l IH]; [reflexivity |].
  cbn [flat_map map]. rewrite count_app, list_sum_cons, IH. reflexivity.
Qed.

Section CallLoops.
Variable TTreeFormula : string -> Event -> nat -> Q.
Variable EvaluateMVA : string -> string -> list Q -> Q.
Variable float32 : Q -> Q.
Variable myTrackCutSel : option trackCutSelector.
Variable myTrackMVASel : option trackMVASelector.
Variable nCuts : nat.
Hypothesis cuts_length :
  forall sel, myTrackMVASel = Some sel -> length (sel_cuts sel) = nCuts.

Lemma trackBody_calls tree jetInd track c sel w s' w' :
  wfCounters nCuts c -> length sel = nCuts ->
  trackBody TTreeFormula EvaluateMVA float32 myTrackCutSel myTrackMVASel nCuts
            tree jetInd track (c, sel) w = (inr s', w') ->
  (wfCounters nCuts (fst s') /\ length (snd s') = nCuts) /\
  calls w' = calls w ++ cutCalls myTrackCutSel track
                     ++ mvaCalls TTreeFormula myTrackCutSel myTrackMVASel nCuts tree track.
Proof.
  intros Hc Hsel Hrun.
  split.
  { exact (proj1 (trackBody_adds TTreeFormula EvaluateMVA float32 myTrackCutSel
                    myTrackMVASel nCuts cuts_length tree jetInd track c sel w s' w'
                    Hc Hsel Hrun)). }
  unfold trackBody in Hrun.
  destruct (keepTrackOf_run TTreeFormula EvaluateMVA float32 myTrackCutSel
              myTrackMVASel nCuts cuts_length tree track w) as [w1 [Hk [Hcalls _]]].
  rewrite (bind_ok _ _ _ _ _ _ _ Hk) in Hrun.
  destruct (existsb _ (range nCuts)); cbn beta iota in Hrun.
  - destruct (selectLoop_run nCuts tree jetInd track
                (map (accepted TTreeFormula EvaluateMVA float32 myTrackCutSel
                               myTrackMVASel tree track) (range nCuts))
                (countTotal tree jetInd c) sel w1) as [c' [Hloop _]].
    + apply countTotal_wf. exact Hc.
    + exact Hsel.
    + rewrite length_map. apply length_seq.
    + pose proof (eq_trans (eq_sym Hloop) Hrun) as E.
      injection E as _ <-. exact Hcalls.
  - unfold ret in Hrun. injection Hrun as _ <-. exact Hcalls.
Qed.

Lemma jetBody_calls tree jetInd s w s' w' :
  wfCounters nCuts (fst (fst s)) /\ snd (fst s) = mkOut [] [] [] [] ->
  jetBody TTreeFormula EvaluateMVA float32 myTrackCutSel myTrackMVASel nCuts
          tree jetInd s w = (inr s', w') ->
  (wfCounters nCuts (fst (fst s')) /\ snd (fst s') = mkOut [] [] [] []) /\
  calls w' =
  calls w ++
  flat_map (fun track =>
              cutCalls myTrackCutSel track ++
              mvaCalls TTreeFormula myTrackCutSel myTrackMVASel nCuts tree track)
           (tracksOf (tree, jetInd)).
Proof.
  intros [Hc Hout] Hrun.
  split.
  { split.
    - exact (proj1 (jetBody_adds TTreeFormula EvaluateMVA float32 myTrackCutSel
                      myTrackMVASel nCuts cuts_length tree jetInd s w s' w' Hc Hrun)).
    - exact (jetBody_clears TTreeFormula EvaluateMVA float32 myTrackCutSel
               myTrackMVASel nCuts tree jetInd s w s' w' Hrun). }
  destruct s as [[c out] T]. cbn [fst snd] in Hc, Hout. subst out.
  unfold jetBody in Hrun.
  apply bind_inv in Hrun. destruct Hrun as [[c1 sel1] [w1 [Htracks Hrun]]].
  cbn beta iota in Hrun.
  apply bind_inv in Hrun. destruct Hrun as [[out1 sj] [w2 [Hemit Hrun]]].
  cbn beta iota in Hrun. unfold ret in Hrun. injection Hrun as _ <-.
  destruct (for_calls nat (Counters * SelTracks)
              (trackBody TTreeFormula EvaluateMVA float32 myTrackCutSel myTrackMVASel
                         nCuts tree jetInd)
              (fun s => wfCounters nCuts (fst s) /\ length (snd s) = nCuts)
              (fun track =>
                 cutCalls myTrackCutSel track ++
                 mvaCalls TTreeFormula myTrackCutSel myTrackMVASel nCuts tree track))
    with (l := xrange (Jet_nFirstTrack tree jetInd) (Jet_nLastTrack tree jetInd))
         (s := (c, map (fun _ : nat => @nil (nat * Q)) (range nCuts)))
         (w := w) (s' := (c1, sel1)) (w' := w1) as [[_ Hlen] Hcalls].
  - intros t [c0 sel0] w0 s1 w3 [Hc0 Hs0] Hb. cbn [fst snd] in *.
    rewrite app_assoc.
    destruct (trackBody_calls tree jetInd t c0 sel0 w0 s1 w3 Hc0 Hs0 Hb) as [Hi Hcl].
    split; [exact Hi |]. rewrite Hcl, <- app_assoc. reflexivity.
  - cbn [fst snd]. split; [exact Hc |]. unfold range. rewrite length_map. apply length_seq.
  - exact Htracks.
  - cbn [snd] in Hlen. rewrite <- Hlen in Hemit. rewrite emitLoop_cleared in Hemit.
    destruct (writesInRange true sel1); [| discriminate].
    injection Hemit as _ _ <-. exact Hcalls.
Qed.

Lemma eventLoop_calls (tree : list Event) w c out T w' :
  eventLoop TTreeFormula EvaluateMVA float32 myTrackCutSel myTrackMVASel nCuts tree w =
    (inr (c, out, T), w') ->
  calls w' =
  calls w ++
  flat_map (fun jet =>
              flat_map (fun track =>
                          cutCalls myTrackCutSel track ++
                          mvaCalls TTreeFormula myTrackCutSel myTrackMVASel nCuts
                                   (fst jet) track)
                       (tracksOf jet))
           (jetsOf tree).
Proof.
  unfold eventLoop. intros H. apply bind_inv in H. destruct H as [[] [w0 [Hp H]]].
  unfold print in Hp. injection Hp as <-.
  set (cJ := fun (jet : Event * nat) =>
               flat_map (fun track =>
                           cutCalls myTrackCutSel track ++
                           mvaCalls TTreeFormula myTrackCutSel myTrackMVASel nCuts
                                    (fst jet) track)
                        (tracksOf jet)).
  set (Inv := fun s : LoopState =>
                wfCounters nCuts (fst (fst s)) /\ snd (fst s) = mkOut [] [] [] []).
  assert (Hevent : forall (p : nat * Event) (s : LoopState) w1 s1 w2,
             Inv s ->
             eventBody TTreeFormula EvaluateMVA float32 myTrackCutSel myTrackMVASel nCuts
                       p s w1 = (inr s1, w2) ->
             Inv s1 /\
             calls w2 = calls w1 ++ flat_map (fun j => cJ (snd p, j)) (range (nJet (snd p)))).
  { intros [entry ev] s w1 s1 w2 Hs Hb. unfold eventBody in Hb.
    apply bind_inv in Hb. destruct Hb as [[] [w3 [Hpr Hb]]]. cbn [snd].
    assert (Hw3 : calls w3 = calls w1).
    { destruct ((entry + 1) mod 1000 =? 0).
      - unfold print in Hpr. injection Hpr as <-. reflexivity.
      - unfold ret in Hpr. injection Hpr as <-. reflexivity. }
    rewrite <- Hw3.
    apply (for_calls nat LoopState
             (jetBody TTreeFormula EvaluateMVA float32 myTrackCutSel myTrackMVASel nCuts ev)
             Inv (fun j => cJ (ev, j))) with (s := s).
    - intros j s2 w4 s3 w5 Hs2 Hj.
      exact (jetBody_calls ev j s2 w4 s3 w5 Hs2 Hj).
    - exact Hs.
    - exact Hb. }
  destruct (for_calls (nat * Event) LoopState
              (eventBody TTreeFormula EvaluateMVA float32 myTrackCutSel myTrackMVASel nCuts)
              Inv
              (fun p => flat_map (fun j => cJ (snd p, j)) (range (nJet (snd p))))
              Hevent
              (combine (range (length tree)) tree))
    with (s := (mkCounters (repeat 0 nCuts) 0 (repeat 0 nCuts) 0
                           (repeat 0 nCuts) 0 (repeat 0 nCuts) 0,
                mkOut [] [] [] [], @nil Row))
         (s' := (c, out, T)) (w' := w')
         (w := mkWorld (slots w) (calls w)
                       (stdout w ++ [[Str "Will loop over ";
                                      Int (Z.of_nat (length tree)); Str " events."]]))
    as [_ Hcalls].
  - unfold Inv, wfCounters. cbn [fst snd nSelTracksB nSelTracksC nSelTracksLight nSelTracksPU].
    rewrite repeat_length. repeat split.
  - exact H.
  - rewrite Hcalls. cbn [calls]. f_equal. unfold range.
    rewrite (flat_map_combine_seq _ _
               (fun ev => flat_map (fun j => cJ (ev, j)) (seq 0 (nJet ev)))).
    unfold jetsOf, range. clear.
    induction tree as [| ev tree IH]; [reflexivity |].
    cbn [flat_map]. rewrite flat_map_app, IH, flat_map_map_comp. reflexivity.
Qed.

Lemma count_cut_of_track (tree : Event) (track : nat) :
  count isCutEval (cutCalls myTrackCutSel track ++
                   mvaCalls TTreeFormula myTrackCutSel myTrackMVASel nCuts tree track) =
  match myTrackCutSel with Some _ => 1 | None => 0 end.
Proof.
  rewrite count_app.
  assert (H2 : count isCutEval
                 (mvaCalls TTreeFormula myTrackCutSel myTrackMVASel nCuts tree track) = 0).
  { unfold mvaCalls. destruct myTrackMVASel as [sel |]; [| reflexivity].
    destruct (_ && _); [| reflexivity].
    rewrite count_app, count_syncCalls by reflexivity. reflexivity. }
  rewrite H2. unfold cutCalls. destruct myTrackCutSel; reflexivity.
Qed.

Lemma count_mva_of_track (tree : Event) (track : nat) :
  count isMVAEval (cutCalls myTrackCutSel track ++
                   mvaCalls TTreeFormula myTrackCutSel myTrackMVASel nCuts tree track) =
  match myTrackMVASel with
  | Some _ => if (0 <? nCuts) && cutPassed TTreeFormula myTrackCutSel tree track
              then 1 else 0
  | None => 0
  end.
Proof.
  rewrite count_app.
  assert (H1 : count isMVAEval (cutCalls myTrackCutSel track) = 0).
  { unfold cutCalls. destruct myTrackCutSel; reflexivity. }
  rewrite H1. unfold mvaCalls. destruct myTrackMVASel as [sel |]; [| reflexivity].
  destruct (_ && _); [| reflexivity].
  rewrite count_app, count_syncCalls by reflexivity. reflexivity.
Qed.

End CallLoops.

(** X21.  Over a pass of createJetTreeTC that ends normally, the cut formula
    is evaluated once for every track of every jet (when a cut is
    configured), and the classifier is evaluated once for every track that
    passes the cut and for no other track (when a classifier with at least
    one cut value is configured). *)
Theorem X21_engine_calls_of_the_pass
        (TTreeFormula : string -> Event -> nat -> Q)
        (EvaluateMVA : string -> string -> list Q -> Q) (float32 : Q -> Q)
        (cutSel : option trackCutSelector) (mvaSel : option trackMVASelector)
        (nCuts : nat) (tree : list Event) (w w' : World)
        (c : Counters) (out : OutVariables) (T : list Row) :
  (forall sel, mvaSel = Some sel -> length (sel_cuts sel) = nCuts) ->
  eventLoop TTreeFormula EvaluateMVA float32 cutSel mvaSel nCuts tree w =
    (inr (c, out, T), w') ->
  exists new,
    calls w' = calls w ++ new /\
    count isCutEval new =
      match cutSel with
      | Some _ => list_sum (map (fun jet => length (tracksOf jet)) (jetsOf tree))
      | None => 0
      end /\
    count isMVAEval new =
      match mvaSel with
      | Some _ =>
          if 0 <? nCuts
          then list_sum (map (fun jet =>
                                length (filter (cutPassed TTreeFormula cutSel (fst jet))
                                               (tracksOf jet)))
                             (jetsOf tree))
          else 0
      | None => 0
      end.
Proof.
  intros Hlen Hrun.
  eexists. split.
  - exact (eventLoop_calls TTreeFormula EvaluateMVA float32 cutSel mvaSel nCuts Hlen
             tree w c out T w' Hrun).
  - split.
    + rewrite count_flat_map.
      rewrite (map_ext _ (fun jet => match cutSel with
                                     | Some _ => length (tracksOf jet)
                                     | None => 0
                                     end)).
      * destruct cutSel; [reflexivity | apply list_sum_zero].
      * intros jet. rewrite count_flat_map.
        rewrite (map_ext _ _ (count_cut_of_track TTreeFormula cutSel mvaSel nCuts Hlen
                                                 (fst jet))).
        destruct cutSel; [| apply list_sum_zero].
        rewrite (list_sum_const nat true). reflexivity.
    + rewrite count_flat_map.
      rewrite (map_ext _ (fun jet =>
                            match mvaSel with
                            | Some _ =>
                                if 0 <? nCuts
                                then length (filter (cutPassed TTreeFormula cutSel (fst jet))
                                                    (tracksOf jet))
                                else 0
                            | None => 0
                            end)).
      * destruct mvaSel; [| apply list_sum_zero].
        destruct (0 <? nCuts); [reflexivity | apply list_sum_zero].
      * intros jet. rewrite count_flat_map.
        rewrite (map_ext _ _ (count_mva_of_track TTreeFormula cutSel mvaSel nCuts Hlen
                                                 (fst jet))).
        destruct mvaSel; [| apply list_sum_zero].
        destruct (0 <? nCuts); cbn [andb]; [| apply list_sum_zero].
        rewrite list_sum_if_length. lia.
Qed.

Lemma X21_engine_calls_witness :
  exists new,
    calls (snd exLoopSel) = calls world0 ++ new /\
    count isCutEval new = 5 /\
    count isMVAEval new = 3.
Proof.
  assert (H1 : forall sel, mvaSelOf (Some exMVAdict) = Some sel ->
                           length (sel_cuts sel) = nCutsOf (Some exMVAdict))
    by (intros sel E; injection E as <-; reflexivity).
  assert (H2 : eventLoop exFormula exMVA (fun x => x)
                 (cutSelOf (Some "Track_IPsig>2"%string)) (mvaSelOf (Some exMVAdict))
                 (nCutsOf (Some exMVAdict)) [event4] world0 =
               (inr (fst (fst (loopStateOf exLoopSel)), snd (fst (loopStateOf exLoopSel)),
                     snd (loopStateOf exLoopSel)), snd exLoopSel))
    by (vm_compute; reflexivity).
  destruct (X21_engine_calls_of_the_pass exFormula exMVA (fun x => x)
              (cutSelOf (Some "Track_IPsig>2"%string)) (mvaSelOf (Some exMVAdict))
              (nCutsOf (Some exMVAdict)) [event4] world0 (snd exLoopSel)
              (fst (fst (loopStateOf exLoopSel))) (snd (fst (loopStateOf exLoopSel)))
              (snd (loopStateOf exLoopSel)) H1 H2) as [new [Hc [Hcut Hmva]]].
  exists new. split; [exact Hc |]. split.
  - rewrite Hcut. vm_compute. reflexivity.
  - rewrite Hmva. vm_compute. reflexivity.
Defined.

(** ** createJetTreeTC: the report *)

Lemma for_prints (A : Type) (f : A -> unit -> M unit) (g : A -> list line)
      (dom : A -> Prop) (l : list A) :
  (forall a w, dom a ->
     f a tt w = (inr tt, mkWorld (slots w) (calls w) (stdout w ++ g a))) ->
  Forall dom l -> forall w,
  for_ l f tt w = (inr tt, mkWorld (slots w) (calls w) (stdout w ++ flat_map g l)).
Proof.
  intros Hbody. induction 1 as [| a l Ha _ IH]; intros w; cbn [for_ flat_map].
  - rewrite app_nil_r, world_eta. reflexivity.
  - rewrite (bind_ok _ _ _ _ _ _ _ (Hbody a w Ha)), IH.
    cbn [slots calls stdout]. rewrite <- app_assoc. reflexivity.
Qed.

Lemma reportBody_lines (trackMVA : option MVA) (c : Counters) (i : nat) (w : World) :
  wfCounters (nCutsOf trackMVA) c -> i < nCutsOf trackMVA ->
  someTotalZero c = false ->
  reportBody trackMVA c i tt w =
  (inr tt, mkWorld (slots w) (calls w) (stdout w ++ reportLines trackMVA c i)).
Proof.
  intros [HB [HL [HC HP]]] Hi Hz. unfold someTotalZero in Hz.
  apply orb_false_iff in Hz. destruct Hz as [Hz ZP].
  apply orb_false_iff in Hz. destruct Hz as [Hz ZL].
  apply orb_false_iff in Hz. destruct Hz as [ZB ZC].
  unfold reportBody, reportLines.
  assert (Hhead :
    (match trackMVA with
     | Some m => cut <- getitem (mva_cuts m) i ;;
                 print [Str "MVA cut value "; Flt cut; Str ":"]
     | None => print [Str "Non-MVA cuts:"]
     end) w =
    (inr tt, mkWorld (slots w) (calls w)
               (stdout w ++
                [match trackMVA with
                 | Some m => [Str "MVA cut value "; Flt (nth i (mva_cuts m) 0%Q); Str ":"]
                 | None => [Str "Non-MVA cuts:"]
                 end]))).
  { destruct trackMVA as [m |].
    - cbn [nCutsOf] in Hi. unfold bind. rewrite (getitem_run _ 0%Q) by lia. reflexivity.
    - reflexivity. }
  rewrite (bind_ok _ _ _ _ _ _ _ Hhead).
  unfold bind at 1. rewrite (getitem_run _ 0) by lia.
  unfold bind at 1. rewrite pydiv_nat, ZB.
  unfold bind at 1. unfold print at 1. cbn iota beta.
  unfold bind at 1. rewrite (getitem_run _ 0) by lia.
  unfold bind at 1. rewrite pydiv_nat, ZC.
  unfold bind at 1. unfold print at 1. cbn iota beta.
  unfold bind at 1. rewrite (getitem_run _ 0) by lia.
  unfold bind at 1. rewrite pydiv_nat, ZL.
  unfold bind at 1. unfold print at 1. cbn iota beta.
  unfold bind at 1. rewrite (getitem_run _ 0) by lia.
  unfold bind at 1. rewrite pydiv_nat, ZP.
  unfold print. cbn [slots calls stdout]. rewrite <- !app_assoc. reflexivity.
Qed.

(** X22.  When no category total is zero, the report of createJetTreeTC
    prints five lines per threshold: the header and the B, C, light and PU
    efficiencies.  The light line shows the selected light tracks over the
    total of B tracks, while the percentage next to it is computed with the
    total of light tracks. *)
Theorem X22_report_lines (trackMVA : option MVA) (c : Counters) (w : World) :
  wfCounters (nCutsOf trackMVA) c ->
  someTotalZero c = false ->
  report trackMVA (nCutsOf trackMVA) c w =
  (inr tt,
   mkWorld (slots w) (calls w)
           (stdout w ++ flat_map (reportLines trackMVA c) (range (nCutsOf trackMVA))))
  /\ forall i,
       nth 3 (reportLines trackMVA c i) [] =
       [Str "Light track efficiency:  "; Int (Z.of_nat (nth i (nSelTracksLight c) 0));
        Str "/"; Int (Z.of_nat (nTotTracksB c)); Str " = ";
        Flt (Qnat (100 * nth i (nSelTracksLight c) 0) / Qnat (nTotTracksLight c));
        Str "%."].
Proof.
  intros Hc Hz. split; [| reflexivity].
  unfold report.
  apply (for_prints nat (reportBody trackMVA c) (reportLines trackMVA c)
           (fun i => i < nCutsOf trackMVA)).
  - intros i w0 Hi. apply reportBody_lines; assumption.
  - apply Forall_forall. intros i Hi. apply in_seq in Hi. lia.
Qed.

Lemma X22_report_lines_witness :
  stdout (snd (report (Some exMVAdict) 2 exCounters world0)) =
  flat_map (reportLines (Some exMVAdict) exCounters) [0; 1] /\
  nth 3 (reportLines (Some exMVAdict) exCounters 0) [] =
  [Str "Light track efficiency:  "; Int 2; Str "/"; Int 4; Str " = ";
   Flt (Qnat 200 / Qnat 10); Str "%."].
Proof.
  destruct (X22_report_lines (Some exMVAdict) exCounters world0) as [Hrun Hlight].
  - repeat split.
  - reflexivity.
  - split.
    + change 2 with (nCutsOf (Some exMVAdict)). rewrite Hrun. reflexivity.
    + rewrite Hlight. reflexivity.
Defined.

(** ** From createDiscrHist to the ROC curve *)

(** X23.  The curves createDiscrHist writes for one histogram dictionary and
    any two categories always go through drawROCfromEffVsCutCurves: they
    have the same number of points.  For a chain of at most 2^53 entries,
    the k-th point of the ROC curve pairs, signal first, the fractions of
    the entries of the two categories whose value lies in the range and
    which FindBin puts in one of the bins k+1..B (each fraction is exact
    here and rounded once in the program). *)
Theorem X23_roc_of_written_curves
        (Entry : Type) (EvalInstance getattr : string -> Entry -> Q)
        (binQuotient : nat -> Q -> Q -> Q -> Z)
        (isfile : string -> bool) (entriesOf : string -> string -> list Entry)
        (cutObj : nat -> JetCut) (histObj : nat -> HistDict)
        (inputFileList : list string)
        (treeDirectory outputFileName : string) (histList jetCutList : list nat)
        (w w' : World) (keys : list TKey) :
  forallb isfile inputFileList = true ->
  NoDup histList ->
  NoDup (map (fun c => cut_name (cutObj c)) jetCutList) ->
  createDiscrHist EvalInstance getattr binQuotient isfile entriesOf cutObj histObj
                  inputFileList treeDirectory outputFileName histList jetCutList w =
  (inr keys, w') ->
  exists s,
    keys = histKeys cutObj histObj histList jetCutList s ++
           graphKeys cutObj histObj histList jetCutList s /\
    forall sig bkg h w0,
      In sig jetCutList -> In bkg jetCutList -> In h histList ->
      wantsGraph histObj h = true ->
      let B := if (hist_bins (histObj h) <=? 0)%Z then 1
               else Z.to_nat (hist_bins (histObj h)) in
      let fraction := fun c k =>
        (Qnat (length (filter (fun e => passes EvalInstance cutObj c e &&
                                        inRange getattr histObj h e &&
                                        aboveBin getattr binQuotient cutObj histObj h k e)
                              (chain entriesOf treeDirectory inputFileList))) /
         Qnat (length (filter (passes EvalInstance cutObj c)
                              (chain entriesOf treeDirectory inputFileList))))%Q in
      exists roc,
        drawROCfromEffVsCutCurves
          (effCurve (asTH1 (histOf cutObj histObj s sig h)) (N.of_nat (total s sig)))
          (effCurve (asTH1 (histOf cutObj histObj s bkg h)) (N.of_nat (total s bkg)))
          w0 = (inr roc, w0) /\
        GetN roc = S (B - 2) /\
        ((N.of_nat (length (chain entriesOf treeDirectory inputFileList))
          <= maxExactCount)%N ->
         forall k, k < S (B - 2) ->
           (fst (GetPoint roc k) == fraction sig k)%Q /\
           (snd (GetPoint roc k) == fraction bkg k)%Q).
Proof.
  intros Hfiles Hh Hn Hrun.
  destruct (createDiscrHist_distinct Entry EvalInstance getattr binQuotient isfile entriesOf
              cutObj histObj inputFileList treeDirectory outputFileName
              histList jetCutList Hfiles Hh Hn w) as [s [Hfilled Hrun']].
  rewrite Hrun in Hrun'.
  destruct (emptyCategoryWithGraph EvalInstance cutObj histObj histList jetCutList
              (chain entriesOf treeDirectory inputFileList)) eqn:He; [discriminate |].
  exists s. split.
  - injection Hrun' as -> _. reflexivity.
  - intros sig bkg h w0 Hsig Hbkg Hhh Hw B fraction.
    destruct (histOf_made Entry EvalInstance getattr binQuotient cutObj histObj histList jetCutList
                _ s Hfilled sig h Hsig Hhh) as [_ [_ [HBs _]]].
    destruct (histOf_made Entry EvalInstance getattr binQuotient cutObj histObj histList jetCutList
                _ s Hfilled bkg h Hbkg Hhh) as [_ [_ [HBb _]]].
    change (fNbins (emptyHist cutObj histObj 0 h)) with B in HBs, HBb.
    destruct (curve_points Entry EvalInstance getattr binQuotient cutObj histObj histList jetCutList
                _ s Hfilled Hh Hn sig h Hsig Hhh
                (nonempty_category Entry EvalInstance getattr binQuotient cutObj histObj histList
                   jetCutList _ s Hfilled Hn sig h He Hsig Hhh Hw)) as [HNs Hps].
    destruct (curve_points Entry EvalInstance getattr binQuotient cutObj histObj histList jetCutList
                _ s Hfilled Hh Hn bkg h Hbkg Hhh
                (nonempty_category Entry EvalInstance getattr binQuotient cutObj histObj histList
                   jetCutList _ s Hfilled Hn bkg h He Hbkg Hhh Hw)) as [HNb Hpb].
    rewrite HBs in HNs, Hps. rewrite HBb in HNb, Hpb.
    set (gs := effCurve (asTH1 (histOf cutObj histObj s sig h)) (N.of_nat (total s sig)))
      in *.
    set (gb := effCurve (asTH1 (histOf cutObj histObj s bkg h)) (N.of_nat (total s bkg)))
      in *.
    exists (combine (map snd gs) (map snd gb)).
    split; [apply drawROC_equal_counts; congruence |].
    split.
    + unfold GetN in *. rewrite length_combine, !length_map. lia.
    + intros _ k Hk. unfold GetPoint.
      rewrite nth_combine_map_snd by (unfold GetN in *; lia).
      cbn [fst snd].
      destruct (Hps k Hk) as [_ [Hys _]]. destruct (Hpb k Hk) as [_ [Hyb _]].
      split; [exact Hys | exact Hyb].
Qed.

Lemma X23_roc_of_written_curves_witness :
  exists s,
    keysOf (exDiscrHist [0] [0; 2]) =
      histKeys exCutObj exHistObj [0] [0; 2] s ++
      graphKeys exCutObj exHistObj [0] [0; 2] s /\
    exists roc,
      drawROCfromEffVsCutCurves
        (effCurve (asTH1 (histOf exCutObj exHistObj s 2 0)) (N.of_nat (total s 2)))
        (effCurve (asTH1 (histOf exCutObj exHistObj s 0 0)) (N.of_nat (total s 0)))
        world0 = (inr roc, world0) /\
      GetN roc = 3 /\
      (fst (GetPoint roc 1) == 1 # 2)%Q /\ (snd (GetPoint roc 1) == 2 # 4)%Q.
Proof.
  destruct (X23_roc_of_written_curves Q exEval (fun _ e => e) exactQuotient exIsfile exEntriesOf
              exCutObj exHistObj ["in.root"%string] "jets" "out.root"
              [0] [0; 2] world0 (snd (exDiscrHist [0] [0; 2]))
              (keysOf (exDiscrHist [0] [0; 2])))
    as [s [Hkeys Hall]].
  - vm_compute. reflexivity.
  - repeat constructor; cbn; intuition discriminate.
  - repeat constructor; cbn; intuition discriminate.
  - vm_compute. reflexivity.
  - exists s. split; [exact Hkeys |].
    destruct (Hall 2 0 0 world0) as [roc [Hroc [HN Hpts]]];
      [cbn; auto | cbn; auto | cbn; auto | reflexivity |].
    exists roc. split; [exact Hroc |]. split; [exact HN |].
    destruct (Hpts ltac:(vm_compute; discriminate) 1) as [Hx Hy]; [cbn; lia |].
    split.
    + rewrite Hx. vm_compute. reflexivity.
    + rewrite Hy. vm_compute. reflexivity.
Defined.
